(** * Open-data pipeline (tp2-pipeline-bis): transformer, quality analyzer
      and enricher, embedded from [pipeline/transformer.py],
      [pipeline/quality.py] and [pipeline/enricher.py].

    Conventions of the embedding.
    - A Python [str] is the list of its Unicode code points ([pystr]).
    - Python floats are read as exact rationals ([Q]) where no rounding
      decides a result.  The grade and the outlier filter compare floats
      that the code has just computed; the module [Binary64] embeds them
      over IEEE 754 binary64 values, and the statements about their
      thresholds and bounds are made there.
    - A pandas DataFrame is an ordered list of named, typed columns whose
      value lists are positionally aligned.
    - pandas is read as pandas 2 with [object] columns: [astype(str)] gives
      "None" for [None] and "nan" for NaN, a comparison with a missing cell
      is false, and statistics skip missing cells.
    - The Unicode tables that the code reaches through [unicodedata] and the
      [re] module are not part of the repository; they are the fields of the
      class [Platform]. *)

From Stdlib Require Import QArith Qminmax Qround Qabs Lqa.
From Stdlib Require Import SpecFloat.
From stdpp Require Import base list strings gmap sets.

Local Open Scope N_scope.

(* ===================================================================== *)
(** ** Python strings *)
(* ===================================================================== *)

Definition pystr := list N.

(** Code points of a literal (all literals of the sources are ASCII). *)
Definition u (s : string) : pystr :=
  List.map Ascii.N_of_ascii (String.list_ascii_of_string s).

(** [str.isspace] on one code point; [re]'s [\s] on [str] patterns is the same
    predicate. *)
Definition isspace (c : N) : bool :=
  ((9 <=? c) && (c <=? 13)) || ((28 <=? c) && (c <=? 32))
  || (c =? 133) || (c =? 160) || (c =? 5760)
  || ((8192 <=? c) && (c <=? 8202))
  || (c =? 8232) || (c =? 8233) || (c =? 8239) || (c =? 8287) || (c =? 12288).

Definition is_ascii (c : N) : bool := c <? 128.

Definition is_ascii_alnum (c : N) : bool :=
  ((48 <=? c) && (c <=? 57)) || ((65 <=? c) && (c <=? 90))
  || ((97 <=? c) && (c <=? 122)).

(** The tables consulted through the standard library.
    - [decompose c]: full compatibility decomposition (NFKD) of a non-ASCII
      code point; ASCII code points decompose to themselves and are never
      looked up.
    - [isalnum_hi c]: [str.isalnum] of a non-ASCII code point.
    - [float_str x]: [str(x)] of a float. *)
Class Platform := {
  decompose : N -> pystr;
  isalnum_hi : N -> bool;
  float_str : Q -> pystr
}.

(** A platform whose tables are empty above U+007F.  It agrees with every
    platform on ASCII text and is used to evaluate ASCII examples. *)
Definition ascii_platform : Platform :=
  {| decompose := fun _ => [];
     isalnum_hi := fun _ => false;
     float_str := fun _ => [] |}.

Fixpoint lstrip (s : pystr) : pystr :=
  match s with
  | [] => []
  | c :: t => if isspace c then lstrip t else s
  end.

Definition rstrip (s : pystr) : pystr := rev (lstrip (rev s)).

(** [s.strip()] *)
Definition strip (s : pystr) : pystr := rstrip (lstrip s).

(** [s.split(sep)] for a one-character separator. *)
Fixpoint split (sep : N) (s : pystr) : list pystr :=
  match s with
  | [] => [[]]
  | c :: t =>
      if c =? sep then [] :: split sep t
      else match split sep t with
           | p :: ps => (c :: p) :: ps
           | [] => [[c]]
           end
  end.

Definition comma : N := 44.

(** [s.lower()] on text that has been through the ASCII codec. *)
Definition lower_char (c : N) : N :=
  if (65 <=? c) && (c <=? 90) then c + 32 else c.

Definition lower (s : pystr) : pystr := List.map lower_char s.

(** [unicodedata.normalize('NFKD', s).encode('ascii', errors='ignore')
    .decode('ascii')].  Canonical reordering only permutes combining marks,
    none of which is ASCII, so the ASCII residue is computed per code point. *)
Definition nfkd_ascii `{Platform} (s : pystr) : pystr :=
  List.filter is_ascii
    (List.flat_map (fun c => if is_ascii c then [c] else decompose c) s).

(** [re.sub(r'\s+', ' ', s)]: every maximal whitespace run becomes one space.
    [in_run] tells that the previous code point was whitespace. *)
Fixpoint sub_spaces (in_run : bool) (s : pystr) : pystr :=
  match s with
  | [] => []
  | c :: t =>
      if isspace c
      then (if in_run then sub_spaces true t else 32 :: sub_spaces true t)
      else c :: sub_spaces false t
  end.

(** [\w] on [str] patterns: alphanumeric or underscore. *)
Definition is_word `{Platform} (c : N) : bool :=
  if is_ascii c then is_ascii_alnum c || (c =? 95) else isalnum_hi c.

(** Membership in the class [[\w\s,.-]]. *)
Definition address_char `{Platform} (c : N) : bool :=
  is_word c || isspace c || (c =? 44) || (c =? 46) || (c =? 45).

(** [re.sub(r'[^\w\s,.-]', '', s)] *)
Definition sub_special `{Platform} (s : pystr) : pystr :=
  List.filter address_char s.

(* ===================================================================== *)
(** ** Enricher: [DataEnricher.extract_addresses] *)
(* ===================================================================== *)

(** A value stored in a product dict. [PyNum] stands for the values that are
    neither [None] nor [str]. *)
Inductive pyval :=
  | PyNone
  | PyStr (s : pystr)
  | PyNum (x : Q).

Definition product := gmap string pyval.

(** [for part in addr.split(","): cleaned = part.strip();
     if len(cleaned) > 3: addresses.add(cleaned)] *)
Definition add_parts (addresses : gset pystr) (addr : pystr) : gset pystr :=
  fold_left
    (fun acc part =>
       let cleaned := strip part in
       if (3 <? length cleaned)%nat then acc ∪ {[ cleaned ]} else acc)
    (split comma addr) addresses.

(** One iteration of [for product in products]. *)
Definition extract_step (address_field : string)
    (addresses : gset pystr) (p : product) : gset pystr :=
  (* addr = product.get(address_field, "") *)
  match default (PyStr []) (p !! address_field) with
  | PyStr addr =>
      (* addr and isinstance(addr, str) and addr.strip() *)
      match addr, strip addr with
      | _ :: _, _ :: _ => add_parts addresses addr
      | _, _ => addresses
      end
  | _ => addresses
  end.

Definition extract_addresses (products : list product)
    (address_field : string) : list pystr :=
  elements (fold_left (extract_step address_field) products ∅).

(* ===================================================================== *)
(** ** Exceptions *)
(* ===================================================================== *)

Inductive exn := KeyError | IndexError | TypeError | ValueError.

Inductive result (A : Type) :=
  | Ok (a : A)
  | Raise (e : exn).
Arguments Ok {A} a.
Arguments Raise {A} e.

Global Instance result_ret : MRet result := fun _ a => Ok a.

Global Instance result_bind : MBind result := fun _ _ f r =>
  match r with
  | Ok a => f a
  | Raise e => Raise e
  end.

Global Instance result_fmap : FMap result := fun _ _ f r =>
  match r with
  | Ok a => Ok (f a)
  | Raise e => Raise e
  end.

Fixpoint mapM_result {A B} (f : A -> result B) (l : list A) : result (list B) :=
  match l with
  | [] => Ok []
  | x :: t => y ← f x; ys ← mapM_result f t; Ok (y :: ys)
  end.

(* ===================================================================== *)
(** ** Tabular container (pandas DataFrame) *)
(* ===================================================================== *)

(** A cell. [CNone] is Python's [None], [CNaN] the float NaN; both are
    missing for [isna]/[notna]. *)
Inductive cell :=
  | CNone
  | CNaN
  | CStr (s : pystr)
  | CNum (x : Q)
  | CBool (b : bool).

Inductive dtype := Float64 | Int64 | Bool | Object.

Record column := mkCol {
  col_name : string;
  col_dtype : dtype;
  col_values : list cell
}.

(** [index_len] is [len(df)]; every column holds [index_len] values. *)
Record DataFrame := mkDF {
  index_len : nat;
  columns : list column
}.

Definition isna (c : cell) : bool :=
  match c with
  | CNone | CNaN => true
  | _ => false
  end.

Definition notna (c : cell) : bool := negb (isna c).

(** Value equality of cells, as used to hash row keys. *)
Definition cell_eqb (a b : cell) : bool :=
  match a, b with
  | CNone, CNone => true
  | CNaN, CNaN => true
  | CStr s, CStr t => bool_decide (s = t)
  | CNum x, CNum y => Qeq_bool x y
  | CBool x, CBool y => Bool.eqb x y
  | _, _ => false
  end.

Fixpoint key_eqb (k1 k2 : list cell) : bool :=
  match k1, k2 with
  | [], [] => true
  | a :: k1', b :: k2' => cell_eqb a b && key_eqb k1' k2'
  | _, _ => false
  end.

Definition column_names (d : DataFrame) : list string :=
  List.map col_name (columns d).

(** [col in df.columns] *)
Definition has_column (d : DataFrame) (name : string) : bool :=
  bool_decide (name ∈ column_names d).

(** [df[name]] *)
Definition get_column (d : DataFrame) (name : string) : result column :=
  match List.find (fun c => String.eqb (col_name c) name) (columns d) with
  | Some c => Ok c
  | None => Raise KeyError
  end.

(** [df.empty]: some axis has length zero. *)
Definition df_empty (d : DataFrame) : bool :=
  (index_len d =? 0)%nat || (length (columns d) =? 0)%nat.

(** [df.size] *)
Definition df_size (d : DataFrame) : nat :=
  (index_len d * length (columns d))%nat.

Definition count_if {A} (p : A -> bool) (l : list A) : nat :=
  length (List.filter p l).

(** [df.notna().sum().sum()] *)
Definition non_null_cells (d : DataFrame) : nat :=
  list_sum (List.map (fun c => count_if notna (col_values c)) (columns d)).

(** Boolean indexing [l[mask]] on one column. *)
Fixpoint mask_filter {A} (m : list bool) (l : list A) : list A :=
  match m, l with
  | b :: m', x :: l' => if b then x :: mask_filter m' l' else mask_filter m' l'
  | _, _ => []
  end.

(** [df[mask]]: the same rows are dropped from every column. *)
Definition filter_rows (m : list bool) (d : DataFrame) : DataFrame :=
  {| index_len := count_if id m;
     columns :=
       List.map (fun c => mkCol (col_name c) (col_dtype c)
                            (mask_filter m (col_values c)))
                (columns d) |}.

(** The key of row [i] over the columns [cs]. *)
Definition row_key (cs : list column) (i : nat) : list cell :=
  List.map (fun c => nth i (col_values c) CNaN) cs.

Definition row_keys (cs : list column) (n : nat) : list (list cell) :=
  List.map (row_key cs) (seq 0 n).

(** Marks a key that equals a key seen before it ([keep='first']). *)
Fixpoint duplicated_from (seen ks : list (list cell)) : list bool :=
  match ks with
  | [] => []
  | k :: t => existsb (key_eqb k) seen :: duplicated_from (k :: seen) t
  end.

(** [df.duplicated(subset=subset)].  An empty frame has no row to mark; a
    name that is no column raises, and so does an empty [subset] (pandas
    unpacks the per-column codes of no column). *)
Definition duplicated (d : DataFrame) (subset : list string)
    : result (list bool) :=
  if df_empty d then Ok []
  else
    cs ← mapM_result (get_column d) subset;
    match cs with
    | [] => Raise ValueError
    | _ => Ok (duplicated_from [] (row_keys cs (index_len d)))
    end.

(** [df.drop_duplicates(subset=subset, keep='first')]; an empty frame is
    returned as it is. *)
Definition drop_duplicates (d : DataFrame) (subset : list string)
    : result DataFrame :=
  if df_empty d then Ok d
  else
    dup ← duplicated d subset;
    Ok (filter_rows (List.map negb dup) d).

(* ===================================================================== *)
(** ** Column statistics *)
(* ===================================================================== *)

(** The numeric value of a cell, if it has one. *)
Definition cell_num (c : cell) : option Q :=
  match c with
  | CNum x => Some x
  | CBool b => Some (if b then 1%Q else 0%Q)
  | _ => None
  end.

(** The present numeric values of a column (pandas skips missing cells). *)
Definition present (vs : list cell) : list Q := omap cell_num vs.

Fixpoint insert_sorted (x : Q) (l : list Q) : list Q :=
  match l with
  | [] => [x]
  | y :: t => if Qle_bool x y then x :: l else y :: insert_sorted x t
  end.

Definition sort_Q (l : list Q) : list Q := fold_right insert_sorted [] l.

Definition sum_Q (l : list Q) : Q := fold_right Qplus 0%Q l.

Definition Q_of_nat (n : nat) : Q := inject_Z (Z.of_nat n).

(** [Series.mean()]; [None] is NaN. *)
Definition mean (xs : list Q) : option Q :=
  match xs with
  | [] => None
  | _ => Some (sum_Q xs / Q_of_nat (length xs))%Q
  end.

(** [Series.median()] *)
Definition median (xs : list Q) : option Q :=
  let s := sort_Q xs in
  let n := length s in
  match n with
  | O => None
  | _ =>
      if Nat.even n
      then Some ((nth (n / 2 - 1) s 0%Q + nth (n / 2) s 0%Q) / 2)%Q
      else Some (nth (n / 2) s 0%Q)
  end.

(** [Series.quantile(p)], linear interpolation between order statistics. *)
Definition quantile (p : Q) (xs : list Q) : option Q :=
  let s := sort_Q xs in
  match length s with
  | O => None
  | S m =>
      let h := (Q_of_nat m * p)%Q in
      let i := Z.to_nat (Qfloor h) in
      let frac := (h - inject_Z (Qfloor h))%Q in
      let lo := nth i s 0%Q in
      let hi := nth (Nat.min (S i) m) s 0%Q in
      Some (lo + (hi - lo) * frac)%Q
  end.

(** [Series.var()] with one delta degree of freedom; [Series.std()] is its
    square root, NaN for fewer than two values. *)
Definition variance (xs : list Q) : option Q :=
  match xs, mean xs with
  | _ :: _ :: _, Some m =>
      Some (sum_Q (List.map (fun x => (x - m) * (x - m))%Q xs)
            / Q_of_nat (length xs - 1))%Q
  | _, _ => None
  end.

(** [round(x, ndigits)] on the exact value, ties to even. *)
Definition round_half_even (x : Q) : Z :=
  let f := Qfloor x in
  let r := (x - inject_Z f)%Q in
  match (r ?= 1 # 2)%Q with
  | Lt => f
  | Gt => (f + 1)%Z
  | Eq => if Z.even f then f else (f + 1)%Z
  end.

Definition py_round (x : Q) (ndigits : nat) : Q :=
  let scale := inject_Z (10 ^ Z.of_nat ndigits) in
  (inject_Z (round_half_even (x * scale)) / scale)%Q.

Definition Qltb (x y : Q) : bool := negb (Qle_bool y x).

Definition cell_of_stat (o : option Q) : cell :=
  match o with
  | Some x => CNum x
  | None => CNaN
  end.

(* ===================================================================== *)
(** ** Quality analyzer ([pipeline/quality.py]) *)
(* ===================================================================== *)

(** [QualityAnalyzer.calculate_completeness] *)
Definition calculate_completeness (d : DataFrame) : Q :=
  if df_empty d then 0%Q
  else (Q_of_nat (non_null_cells d) / Q_of_nat (df_size d))%Q.

Definition possible_ids : list string :=
  ["code"; "id"; "product_id"; "siret"; "uuid"]%string.

(** [self.df.columns[0]] *)
Definition first_column_name (d : DataFrame) : result string :=
  match columns d with
  | c :: _ => Ok (col_name c)
  | [] => Raise IndexError
  end.

(** The key columns of [count_duplicates] (quality.py, lines 37-43). *)
Definition count_duplicates_keys (d : DataFrame)
    (id_columns : option (list string)) : result (list string) :=
  match id_columns with
  | Some ids => Ok ids
  | None =>
      match List.filter (has_column d) possible_ids with
      | [] => c ← first_column_name d; Ok [c]
      | ids => Ok ids
      end
  end.

(** [QualityAnalyzer.count_duplicates] *)
Definition count_duplicates (d : DataFrame)
    (id_columns : option (list string)) : result (nat * Q) :=
  if df_empty d then Ok (O, 0%Q)
  else
    ids ← count_duplicates_keys d id_columns;
    match ids with
    | [] => Ok (O, 0%Q)
    | _ =>
        dup ← duplicated d ids;
        let duplicates := count_if id dup in
        let pct :=
          if (0 <? index_len d)%nat
          then (Q_of_nat duplicates / Q_of_nat (index_len d) * 100)%Q
          else 0%Q in
        Ok (duplicates, pct)
    end.

(** [series >= x] on one cell: a missing cell compares false, text cannot
    be ordered against a number. *)
Definition cell_ge (c : cell) (x : Q) : result bool :=
  match c with
  | CNone | CNaN => Ok false
  | CStr _ => Raise TypeError
  | CNum v => Ok (Qle_bool x v)
  | CBool b => Ok (Qle_bool x (if b then 1 else 0))
  end.

(** [QualityAnalyzer.calculate_geocoding_stats] *)
Definition calculate_geocoding_stats (d : DataFrame) : result (Q * Q) :=
  if df_empty d || negb (has_column d "geocoding_score") then Ok (0%Q, 0%Q)
  else
    c ← get_column d "geocoding_score";
    valid_geo ← mapM_result
      (fun v => b ← cell_ge v (1 # 2); Ok (notna v && b)) (col_values c);
    if (index_len d =? 0)%nat then Ok (0%Q, 0%Q)
    else
      let success_rate :=
        (Q_of_nat (count_if id valid_geo) / Q_of_nat (index_len d) * 100)%Q in
      let avg_score :=
        if existsb id valid_geo
        then default 0%Q (mean (present (mask_filter valid_geo (col_values c))))
        else 0%Q in
      Ok (success_rate, avg_score).

(** [QualityAnalyzer.calculate_null_counts]: column name, count, rounded
    percentage, in column order. *)
Definition calculate_null_counts (d : DataFrame) : list (string * (nat * Q)) :=
  if df_empty d then []
  else
    List.map
      (fun c =>
         let count := count_if isna (col_values c) in
         let pct :=
           if (0 <? index_len d)%nat
           then (Q_of_nat count / Q_of_nat (index_len d) * 100)%Q
           else 0%Q in
         (col_name c, (count, py_round pct 2)))
      (columns d).

(** [QualityAnalyzer.determine_quality_grade]; [d] is [self.df]. *)
Definition determine_quality_grade (d : DataFrame)
    (completeness duplicates_pct geo_rate : Q) : string :=
  let score := 0%Q in
  let score := (score + Qmin (completeness * 40) 40)%Q in
  let score :=
    if Qle_bool duplicates_pct 1 then (score + 30)%Q
    else if Qle_bool duplicates_pct 5 then (score + 20)%Q
    else if Qle_bool duplicates_pct 10 then (score + 10)%Q
    else score in
  let score :=
    if has_column d "geocoding_score"
    then (score + Qmin (geo_rate / 100 * 30) 30)%Q
    else (score + 30)%Q in
  if Qle_bool 90 score then "A"%string
  else if Qle_bool 75 score then "B"%string
  else if Qle_bool 60 score then "C"%string
  else if Qle_bool 40 score then "D"%string
  else "F"%string.

(** Modelled from the spec: the record [QualityMetrics] of
    [pipeline/models.py], which is not among the sources; its fields are the
    keyword arguments of the constructor call in [analyze]. *)
Record QualityMetrics := mkMetrics {
  total_records : nat;
  valid_records : Z;
  completeness_score : Q;
  duplicates_count : nat;
  duplicates_pct : Q;
  geocoding_success_rate : Q;
  avg_geocoding_score : Q;
  null_counts : list (string * (nat * Q));
  quality_grade : string
}.

(** [QualityAnalyzer.analyze] *)
Definition analyze (d : DataFrame) : result QualityMetrics :=
  let completeness := calculate_completeness d in
  '(duplicates, dup_pct) ← count_duplicates d None;
  '(geo_rate, geo_avg) ← calculate_geocoding_stats d;
  let nulls := calculate_null_counts d in
  let valid := (Z.of_nat (index_len d) - Z.of_nat duplicates)%Z in
  let grade := determine_quality_grade d completeness dup_pct geo_rate in
  Ok {| total_records := index_len d;
        valid_records := valid;
        completeness_score := py_round completeness 3;
        duplicates_count := duplicates;
        duplicates_pct := py_round dup_pct 2;
        geocoding_success_rate := py_round geo_rate 2;
        avg_geocoding_score := py_round geo_avg 3;
        null_counts := nulls;
        quality_grade := grade |}.

(* ===================================================================== *)
(** ** Transformer ([pipeline/transformer.py]) *)
(* ===================================================================== *)

(** One entry of [transformations_applied]; each constructor stands for the
    f-string given beside it. *)
Inductive log_entry :=
  | LogDuplicates (removed : nat)
      (* f"Doublons supprimés: {removed}" *)
  | LogFillNumeric (col : string) (null_count : nat) (fill_value : cell)
      (* f"{col}: {null_count} nulls → {fill_value:.2f}" *)
  | LogFillText (col : string) (null_count : nat) (text_strategy : pystr)
      (* f"{col}: {null_count} nulls → '{text_strategy}'" *)
  | LogNormalize (ncols : nat)
      (* f"Normalisation texte: {len(columns)} colonnes" *)
  | LogAddresses (removed : Z) (min_length : Z)
      (* f"Adresses nettoyées: {removed} invalidées (<{min_length} chars)" *)
  | LogOutliers (method : string) (removed : nat)
      (* f"Outliers filtrés ({method}): {removed}" *)
  | LogAdded (column : string)
      (* f"Ajout: {column}" *)
  | LogCustom (name : pystr).
      (* f"Custom: {name}" *)

(** The transformer object, with the frame it owns held by value. *)
Record DataTransformer := mkT {
  df : DataFrame;
  transformations_applied : list log_entry;
  verbose : bool
}.

(** [DataTransformer.__init__]: [self.df = df.copy()]. *)
Definition init (d : DataFrame) (verbose : bool) : DataTransformer :=
  mkT d [] verbose.

(** [DataTransformer.get_result]: [self.df.copy()]. *)
Definition get_result (t : DataTransformer) : DataFrame := df t.

(** The default [subset] of [remove_duplicates] (transformer.py, line 41). *)
Definition remove_duplicates_keys (d : DataFrame)
    (subset : option (list string)) : result (list string) :=
  match subset with
  | Some s => Ok s
  | None =>
      if has_column d "code" then Ok ["code"%string]
      else c ← first_column_name d; Ok [c]
  end.

(** [DataTransformer.remove_duplicates] *)
Definition remove_duplicates (subset : option (list string))
    (t : DataTransformer) : result DataTransformer :=
  let initial := index_len (df t) in
  subset ← remove_duplicates_keys (df t) subset;
  d' ← drop_duplicates (df t) subset;
  let removed := (initial - index_len d')%nat in
  Ok (mkT d'
        (if (0 <? removed)%nat
         then transformations_applied t ++ [LogDuplicates removed]
         else transformations_applied t)
        (verbose t)).

(** [select_dtypes(include=[np.number])] *)
Definition is_number_dtype (ty : dtype) : bool :=
  match ty with
  | Float64 | Int64 => true
  | _ => false
  end.

(** [select_dtypes(include=['object'])] *)
Definition is_object_dtype (ty : dtype) : bool :=
  match ty with
  | Object => true
  | _ => false
  end.

(** [series.fillna(v)] *)
Definition fillna (v : cell) (vs : list cell) : list cell :=
  List.map (fun c => if isna c then v else c) vs.

(** [fill_value] of the numeric branch; [None] when no fill is made. *)
Definition numeric_fill_value (numeric_strategy : option string)
    (vs : list cell) : option cell :=
  match numeric_strategy with
  | Some s =>
      if String.eqb s "median" then Some (cell_of_stat (median (present vs)))
      else if String.eqb s "mean" then Some (cell_of_stat (mean (present vs)))
      else if String.eqb s "zero" then Some (CNum 0)
      else None
  | None => None
  end.

(** Body of [for col in num_cols] on one column. *)
Definition fill_numeric_column (numeric_strategy : option string)
    (c : column) : column * list log_entry :=
  if is_number_dtype (col_dtype c) then
    let null_count := count_if isna (col_values c) in
    if (0 <? null_count)%nat then
      match numeric_fill_value numeric_strategy (col_values c) with
      | Some fill_value =>
          (mkCol (col_name c) (col_dtype c) (fillna fill_value (col_values c)),
           [LogFillNumeric (col_name c) null_count fill_value])
      | None => (c, [])
      end
    else (c, [])
  else (c, []).

(** Body of [for col in text_cols] on one column. *)
Definition fill_text_column (text_strategy : pystr)
    (c : column) : column * list log_entry :=
  if is_object_dtype (col_dtype c) then
    let null_count := count_if isna (col_values c) in
    if (0 <? null_count)%nat then
      (mkCol (col_name c) (col_dtype c)
         (fillna (CStr text_strategy) (col_values c)),
       [LogFillText (col_name c) null_count text_strategy])
    else (c, [])
  else (c, []).

(** A loop that visits the columns in order, rewrites each one and collects
    the log entries. *)
Fixpoint for_columns (body : column -> column * list log_entry)
    (cs : list column) : list column * list log_entry :=
  match cs with
  | [] => ([], [])
  | c :: rest =>
      let '(c', l1) := body c in
      let '(rest', l2) := for_columns body rest in
      (c' :: rest', l1 ++ l2)
  end.

(** [DataTransformer.handle_missing_values] *)
Definition handle_missing_values (numeric_strategy : option string)
    (text_strategy : pystr) (t : DataTransformer) : DataTransformer :=
  let '(cs1, log1) :=
    for_columns (fill_numeric_column numeric_strategy) (columns (df t)) in
  let '(cs2, log2) := for_columns (fill_text_column text_strategy) cs1 in
  mkT (mkDF (index_len (df t)) cs2)
      (transformations_applied t ++ log1 ++ log2)
      (verbose t).

(** [str(x)] of a cell, as [astype(str)] computes it. *)
Definition str_of_cell `{Platform} (c : cell) : pystr :=
  match c with
  | CNone => u "None"
  | CNaN => u "nan"
  | CStr s => s
  | CNum x => float_str x
  | CBool b => if b then u "True" else u "False"
  end.

(** The chain [.astype(str).str.strip().str.normalize('NFKD')
    .str.encode('ascii', errors='ignore').str.decode('ascii').str.lower()]
    on one cell. *)
Definition normalize_cell `{Platform} (c : cell) : cell :=
  CStr (lower (nfkd_ascii (strip (str_of_cell c)))).

(** [self.df[name] = f(self.df[name])] *)
Definition assign_column (name : string) (f : column -> column)
    (d : DataFrame) : DataFrame :=
  mkDF (index_len d)
       (List.map (fun c => if String.eqb (col_name c) name then f c else c)
                 (columns d)).

Definition object_column_names (d : DataFrame) : list string :=
  List.map col_name
    (List.filter (fun c => is_object_dtype (col_dtype c)) (columns d)).

(** The normalised column assigned by [self.df[col] = (...)]; the result
    holds text, so its dtype is [object]. *)
Definition normalize_column `{Platform} (c : column) : column :=
  mkCol (col_name c) Object (List.map normalize_cell (col_values c)).

(** Body of [for col in columns] in [normalize_text_columns]. *)
Definition normalize_step `{Platform} (d : DataFrame) (col : string)
    : DataFrame :=
  if has_column d col then assign_column col normalize_column d else d.

(** [DataTransformer.normalize_text_columns] *)
Definition normalize_text_columns `{Platform} (cols : option (list string))
    (t : DataTransformer) : DataTransformer :=
  let cols := default (object_column_names (df t)) cols in
  let d' := fold_left normalize_step cols (df t) in
  mkT d' (transformations_applied t ++ [LogNormalize (length cols)])
      (verbose t).

(** The cleaning chain of [clean_address_column] on one cell:
    [.astype(str).str.strip().str.replace(r'\s+', ' ')
     .str.replace(r'[^\w\s,.-]', '')]. *)
Definition clean_address_cell `{Platform} (c : cell) : cell :=
  CStr (sub_special (sub_spaces false (strip (str_of_cell c)))).

(** [mask = series.str.len() >= min_length; series[~mask] = None] on one
    cell of the cleaned column. *)
Definition invalidate_short (min_length : Z) (c : cell) : cell :=
  match c with
  | CStr s => if (min_length <=? Z.of_nat (length s))%Z then c else CNone
  | _ => CNone
  end.

(** [DataTransformer.clean_address_column] *)
Definition clean_address_column `{Platform} (address_col : string)
    (min_length : Z) (t : DataTransformer) : DataTransformer :=
  match get_column (df t) address_col with
  | Raise _ => t
  | Ok c0 =>
      let initial_count := count_if notna (col_values c0) in
      let d1 :=
        assign_column address_col
          (fun c => mkCol (col_name c) Object
                      (List.map clean_address_cell (col_values c))) (df t) in
      let d2 :=
        assign_column address_col
          (fun c => mkCol (col_name c) (col_dtype c)
                      (List.map (invalidate_short min_length) (col_values c)))
          d1 in
      let cleaned_count :=
        match get_column d2 address_col with
        | Ok c2 => count_if notna (col_values c2)
        | Raise _ => O
        end in
      let removed := (Z.of_nat initial_count - Z.of_nat cleaned_count)%Z in
      mkT d2
          (if (0 <? removed)%Z
           then transformations_applied t ++ [LogAddresses removed min_length]
           else transformations_applied t)
          (verbose t)
  end.

(** [(series >= lower) & (series <= upper)] on one cell; a comparison with a
    missing cell is false. *)
Definition cell_between (lower upper : Q) (c : cell) : bool :=
  match cell_num c with
  | Some v => Qle_bool lower v && Qle_bool v upper
  | None => false
  end.

(** [np.abs((series - mean) / std) < threshold] on one cell, for [std > 0].
    [std] is the square root of [var] and need not be rational; with
    [std > 0] the test [|v - mean| / std < threshold] holds exactly when
    [0 < threshold] and [(v - mean)^2 < threshold^2 * var]. *)
Definition cell_zscore_below (mean var threshold : Q) (c : cell) : bool :=
  match cell_num c with
  | Some v =>
      Qltb 0 threshold
      && Qltb ((v - mean) * (v - mean)) (threshold * threshold * var)
  | None => false
  end.

(** The row mask of the IQR branch, [None] when the branch assigns nothing
    ([IQR > 0] fails). *)
Definition iqr_mask (threshold : Q) (vs : list cell) : option (list bool) :=
  match quantile (1 # 4) (present vs), quantile (3 # 4) (present vs) with
  | Some Q1, Some Q3 =>
      let IQR := (Q3 - Q1)%Q in
      if Qltb 0 IQR then
        let lower := (Q1 - threshold * IQR)%Q in
        let upper := (Q3 + threshold * IQR)%Q in
        Some (List.map (cell_between lower upper) vs)
      else None
  | _, _ => None
  end.

(** The row mask of the z-score branch, [None] when [std > 0] fails. *)
Definition zscore_mask (threshold : Q) (vs : list cell) : option (list bool) :=
  match mean (present vs), variance (present vs) with
  | Some m, Some var =>
      if Qltb 0 var
      then Some (List.map (cell_zscore_below m var threshold) vs)
      else None
  | _, _ => None
  end.

(** Body of [for col in columns] in [filter_outliers]: [Some d'] when the
    iteration rebinds [self.df] to the filtered frame [d'], [None] when it
    leaves [self.df] alone.  Quantiles and moments of a column that is not
    numeric raise. *)
Definition filter_outliers_step (method : string) (threshold : Q)
    (d : DataFrame) (col : string) : result (option DataFrame) :=
  if negb (has_column d col) then Ok None
  else
    c ← get_column d col;
    let vs := col_values c in
    if String.eqb method "iqr" && (0 <? count_if notna vs)%nat then
      if is_number_dtype (col_dtype c)
      then Ok (m ← iqr_mask threshold vs; Some (filter_rows m d))
      else Raise TypeError
    else if String.eqb method "zscore" && (0 <? count_if notna vs)%nat then
      if is_number_dtype (col_dtype c)
      then Ok (m ← zscore_mask threshold vs; Some (filter_rows m d))
      else Raise TypeError
    else Ok None.

(** The loop of [filter_outliers] on the frame. *)
Fixpoint filter_outliers_loop (method : string) (threshold : Q)
    (cols : list string) (d : DataFrame) : result DataFrame :=
  match cols with
  | [] => Ok d
  | col :: rest =>
      r ← filter_outliers_step method threshold d col;
      filter_outliers_loop method threshold rest (default d r)
  end.

(** [DataTransformer.filter_outliers] *)
Definition filter_outliers (cols : list string) (method : string)
    (threshold : Q) (t : DataTransformer) : result DataTransformer :=
  let initial := index_len (df t) in
  d' ← filter_outliers_loop method threshold cols (df t);
  let removed := (initial - index_len d')%nat in
  Ok (mkT d'
        (if (0 <? removed)%nat
         then transformations_applied t ++ [LogOutliers method removed]
         else transformations_applied t)
        (verbose t)).

(** [DataTransformer.apply_custom]; [func] is taken to compute its result
    from its argument alone. *)
Definition apply_custom (func : DataFrame -> DataFrame) (name : pystr)
    (t : DataTransformer) : DataTransformer :=
  mkT (func (df t)) (transformations_applied t ++ [LogCustom name]) (verbose t).

(** The pipeline of the round-trip property:
    [remove_duplicates().handle_missing_values(s, txt)
     .normalize_text_columns().get_result()], with the log it leaves. *)
Definition clean_pipeline `{Platform} (numeric_strategy : option string)
    (text_strategy : pystr) (d : DataFrame)
    : result (DataFrame * list log_entry) :=
  t1 ← remove_duplicates None (init d true);
  let t2 := handle_missing_values numeric_strategy text_strategy t1 in
  let t3 := normalize_text_columns None t2 in
  Ok (get_result t3, transformations_applied t3).

(** Example frames. *)
Definition float_column (name : string) (xs : list Q) : column :=
  mkCol name Float64 (List.map CNum xs).

Definition text_column (name : string) (xs : list string) : column :=
  mkCol name Object (List.map (fun s => CStr (u s)) xs).

(** The frame [{'sugars_100g': [40, 35, 50, 40, 100]}]. *)
Definition sugars_df : DataFrame :=
  mkDF 5 [float_column "sugars_100g" [40; 35; 50; 40; 100]%Q].

(* ===================================================================== *)
(** ** The transformer among shared frames *)
(* ===================================================================== *)

(** DataFrames are mutable objects.  The store maps the identity of every
    live frame to its content; [df.copy()] allocates, an assignment
    [self.df[col] = ...] writes the frame that [self.df] designates, and
    [self.df = ...] makes [self.df] designate a new frame. *)

Abbreviation loc := positive.

Abbreviation store := (gmap loc DataFrame).

Global Instance DataFrame_inhabited : Inhabited DataFrame :=
  populate (mkDF 0 []).

(** The transformer object; [self_df] is a reference. *)
Record transformer_ref := mkRef {
  self_df : loc;
  self_log : list log_entry;
  self_verbose : bool
}.

Record world := mkWorld {
  frames : store;
  self : transformer_ref
}.

(** [d.copy()] *)
Definition copy_frame (h : store) (d : DataFrame) : loc * store :=
  let l := fresh (dom h) in (l, <[l := d]> h).

(** The frame that [self.df] designates. *)
Definition current (w : world) : DataFrame := frames w !!! self_df (self w).

(** The transformer read by value. *)
Definition snapshot (w : world) : DataTransformer :=
  mkT (current w) (self_log (self w)) (self_verbose (self w)).

(** [DataTransformer(df, verbose)] for the frame at [input]. *)
Definition construct (h : store) (input : loc) (verbose : bool) : world :=
  let '(l, h') := copy_frame h (h !!! input) in
  mkWorld h' (mkRef l [] verbose).

(** A method whose assignments all go into the frame of [self.df]. *)
Definition in_place (t' : DataTransformer) (w : world) : world :=
  mkWorld (<[self_df (self w) := df t']> (frames w))
          (mkRef (self_df (self w)) (transformations_applied t') (verbose t')).

(** [self.df = d'] for a frame [d'] that pandas has just built. *)
Definition rebind (d' : DataFrame) (w : world) : world :=
  let '(l, h') := copy_frame (frames w) d' in
  mkWorld h' (mkRef l (self_log (self w)) (self_verbose (self w))).

Definition set_log (log : list log_entry) (w : world) : world :=
  mkWorld (frames w) (mkRef (self_df (self w)) log (self_verbose (self w))).

(** The chained methods. *)
Inductive method_call :=
  | RemoveDuplicates (subset : option (list string))
  | HandleMissingValues (numeric_strategy : option string)
      (text_strategy : pystr)
  | NormalizeTextColumns (cols : option (list string))
  | CleanAddressColumn (address_col : string) (min_length : Z)
  | FilterOutliers (cols : list string) (method : string) (threshold : Q)
  | AddDerivedColumns
  | ApplyCustom (func : DataFrame -> DataFrame) (name : pystr).

Section Methods.
Context `{Platform}.

(** [add_derived_columns] only assigns columns of [self.df]
    ([self.df['sugar_category'] = ...] and the like, lines 234-310) and
    appends to the log; which columns it computes plays no part here, so
    the frame and the entries it leaves are a parameter. *)
Variable derived_columns : DataFrame -> DataFrame * list log_entry.

(** The loop of [filter_outliers], one rebinding per filtered column. *)
Fixpoint filter_outliers_iter (method : string) (threshold : Q)
    (cols : list string) (w : world) : result world :=
  match cols with
  | [] => Ok w
  | col :: rest =>
      r ← filter_outliers_step method threshold (current w) col;
      filter_outliers_iter method threshold rest
        (match r with
         | Some d' => rebind d' w
         | None => w
         end)
  end.

Definition call (m : method_call) (w : world) : result world :=
  match m with
  | RemoveDuplicates subset =>
      t' ← remove_duplicates subset (snapshot w);
      Ok (set_log (transformations_applied t') (rebind (df t') w))
  | HandleMissingValues numeric_strategy text_strategy =>
      Ok (in_place
            (handle_missing_values numeric_strategy text_strategy (snapshot w))
            w)
  | NormalizeTextColumns cols =>
      Ok (in_place (normalize_text_columns cols (snapshot w)) w)
  | CleanAddressColumn address_col min_length =>
      Ok (in_place (clean_address_column address_col min_length (snapshot w)) w)
  | FilterOutliers cols method threshold =>
      let initial := index_len (current w) in
      w' ← filter_outliers_iter method threshold cols w;
      let removed := (initial - index_len (current w'))%nat in
      Ok (if (0 <? removed)%nat
          then set_log (self_log (self w') ++ [LogOutliers method removed]) w'
          else w')
  | AddDerivedColumns =>
      let '(d', entries) := derived_columns (current w) in
      Ok (in_place (mkT d' (self_log (self w) ++ entries)
                       (self_verbose (self w))) w)
  | ApplyCustom func name =>
      Ok (set_log (self_log (self w) ++ [LogCustom name])
            (rebind (func (current w)) w))
  end.

(** [get_result()]: the identity of the returned frame and the world that
    holds it. *)
Definition get_result_ref (w : world) : loc * world :=
  let '(l, h') := copy_frame (frames w) (current w) in
  (l, mkWorld h' (self w)).

(** What a client does with a chain: call a method, take a result, or
    assign into a frame of its own. *)
Inductive action :=
  | Call (m : method_call)
  | GetResult
  | Assign (l : loc) (d : DataFrame).

Definition act (a : action) (w : world) : result world :=
  match a with
  | Call m => call m w
  | GetResult => Ok (snd (get_result_ref w))
  | Assign l d => Ok (mkWorld (<[l := d]> (frames w)) (self w))
  end.

Fixpoint run (acts : list action) (w : world) : result world :=
  match acts with
  | [] => Ok w
  | a :: rest => w' ← act a w; run rest w'
  end.

End Methods.

(* ===================================================================== *)
(** ** Reference definitions, written from the specification *)
(* ===================================================================== *)

(** Duplicate points: at most 1 percent gives 30, at most 5 gives 20, at
    most 10 gives 10, more gives 0. *)
Definition spec_duplicate_points (duplicates_pct : Q) : Q :=
  if Qle_bool duplicates_pct 1 then 30%Q
  else if Qle_bool duplicates_pct 5 then 20%Q
  else if Qle_bool duplicates_pct 10 then 10%Q
  else 0%Q.

(** Geocoding points: the full 30 without a geocoding column. *)
Definition spec_geocoding_points (has_geocoding : bool) (geo_rate : Q) : Q :=
  if has_geocoding then Qmin (geo_rate / 100 * 30) 30 else 30%Q.

Definition spec_score (has_geocoding : bool)
    (completeness duplicates_pct geo_rate : Q) : Q :=
  (Qmin (completeness * 40) 40 + spec_duplicate_points duplicates_pct
   + spec_geocoding_points has_geocoding geo_rate)%Q.

Definition spec_letter (score : Q) : string :=
  if Qle_bool 90 score then "A"%string
  else if Qle_bool 75 score then "B"%string
  else if Qle_bool 60 score then "C"%string
  else if Qle_bool 40 score then "D"%string
  else "F"%string.

(** The records of the enricher test ([tests/test_enricher.py]). *)
Definition sample_products : list product :=
  [ {[ "code"%string := PyStr (u "001");
       "stores"%string := PyStr (u "Carrefour Paris, Auchan") ]};
    {[ "code"%string := PyStr (u "002");
       "stores"%string := PyStr (u "Leclerc Toulouse") ]};
    {[ "code"%string := PyStr (u "003"); "stores"%string := PyNone ]};
    {[ "code"%string := PyStr (u "004");
       "stores"%string := PyStr (u "Carrefour Paris") ]} ].

(** The key policy in the words of the specification: the explicit columns
    if given, else the first available column of the preferred list, else
    the first column. *)
Definition spec_key_columns (d : DataFrame)
    (explicit : option (list string)) : result (list string) :=
  match explicit with
  | Some ids => Ok ids
  | None =>
      match List.filter (has_column d) possible_ids with
      | c :: _ => Ok [c]
      | [] => c ← first_column_name d; Ok [c]
      end
  end.

(** Row [i] repeats an earlier row of the key list [ks]. *)
Definition repeats_earlier (ks : list (list cell)) (i : nat) : Prop :=
  ∃ (j : nat) (ki kj : list cell),
    (j < i)%nat ∧ ks !! i = Some ki ∧ ks !! j = Some kj
    ∧ key_eqb ki kj = true.

(** Frames for the key-selection examples. *)
Definition name_id_df : DataFrame :=
  mkDF 2 [text_column "name" ["x"; "x"]; text_column "id" ["1"; "2"]]%string.

Definition code_id_df : DataFrame :=
  mkDF 2 [text_column "code" ["a"; "a"]; text_column "id" ["1"; "2"]]%string.

(** The [code] column of the transformer tests. *)
Definition codes_df : DataFrame :=
  mkDF 5 [text_column "code" ["001"; "002"; "003"; "001"; "005"]]%string.



(** The words of a string: its maximal runs of non-whitespace. *)
Fixpoint words (s : pystr) : list pystr :=
  match s with
  | [] => []
  | c :: t =>
      if isspace c then words t
      else
        match t with
        | [] => [[c]]
        | c' :: _ =>
            if isspace c' then [c] :: words t
            else match words t with
                 | w :: ws => (c :: w) :: ws
                 | [] => [[c]]
                 end
        end
  end.

(** The words put back together with single spaces. *)
Fixpoint join_spaces (ws : list pystr) : pystr :=
  match ws with
  | [] => []
  | [w] => w
  | w :: rest => w ++ 32 :: join_spaces rest
  end.

(** Collapsing the internal whitespace runs of a stripped string. *)
Definition collapse_spaces (s : pystr) : pystr := join_spaces (words s).

(** A letter or a digit. *)
Definition is_letter_or_digit `{Platform} (c : N) : bool :=
  if is_ascii c then is_ascii_alnum c else isalnum_hi c.

(** The characters the specification keeps in an address: letters, digits,
    whitespace, comma, period, hyphen. *)
Definition spec_address_char `{Platform} (c : N) : bool :=
  is_letter_or_digit c || isspace c || (c =? 44) || (c =? 46) || (c =? 45).

(** The same with the underscore. *)
Definition kept_address_char `{Platform} (c : N) : bool :=
  spec_address_char c || (c =? 95).

(** The cleaned address cell in the words of the specification, for a set
    [keep] of retained characters. *)
Definition spec_clean_address (keep : N → bool) (min_length : Z)
    (s : pystr) : cell :=
  let r := List.filter keep (collapse_spaces (strip s)) in
  if (min_length <=? Z.of_nat (length r))%Z then CStr r else CNone.

(** A string ends clean when its last code point is no whitespace. *)
Fixpoint ends_clean (s : pystr) : Prop :=
  match s with
  | [] => True
  | [c] => isspace c = false
  | _ :: t => ends_clean t
  end.

(** Frames for the text-cleaning examples. *)
Definition address_df : DataFrame :=
  mkDF 2 [text_column "stores"
            ["12 rue_de_Paris"; "  Leclerc   Toulouse  "]]%string.

Definition names_df : DataFrame :=
  mkDF 3 [mkCol "product_name" Object
            [CStr (u "  Chocolat Noir  "); CNone; CNaN]].

(** The cells of [c] that stand where [c0] had a missing cell hold the text
    that [str] gives for the marker, and no cell of [c] is missing. *)
Definition unmissed (c0 c : column) : Prop :=
  length (col_values c) = length (col_values c0)
  ∧ (∀ i, col_values c0 !! i = Some CNaN →
          col_values c !! i = Some (CStr (u "nan")))
  ∧ (∀ i, col_values c0 !! i = Some CNone →
          col_values c !! i = Some (CStr (u "none")))
  ∧ count_if isna (col_values c) = O.

(** The invariant of a Tabular Container: unique column names, and as many
    values in every column as the frame has rows. *)
Definition wf_frame (d : DataFrame) : Prop :=
  NoDup (column_names d)
  ∧ Forall (fun c => length (col_values c) = index_len d) (columns d).

(** No row of [d] repeats an earlier row under the default key of
    Deduplicate. *)
Definition no_duplicate_rows (d : DataFrame) : Prop :=
  ∀ keys mask,
    remove_duplicates_keys d None = Ok keys →
    duplicated d keys = Ok mask →
    count_if id mask = O.

(** No text cell of a text column begins or ends with whitespace. *)
Definition stripped_text (d : DataFrame) : Prop :=
  Forall
    (fun c =>
       col_dtype c = Object →
       Forall (fun x => match x with
                        | CStr s => strip s = s
                        | _ => True
                        end) (col_values c))
    (columns d).

(** Text as the ASCII codec and [lower] leave it. *)
Definition plain_text (s : pystr) : Prop :=
  forallb is_ascii s = true ∧ lower s = s.

(** A column on which a further imputation and normalisation can only act
    through [strip]: a text column holds plain text in every cell, a numeric
    column is a fixed point of the numeric fill. *)
Definition settled (numeric_strategy : option string) (c : column) : Prop :=
  match col_dtype c with
  | Object => Forall (fun x => ∃ s, x = CStr s ∧ plain_text s) (col_values c)
  | Bool => True
  | _ => fst (fill_numeric_column numeric_strategy c) = c
  end.

Definition is_duplicates_entry (e : log_entry) : bool :=
  match e with
  | LogDuplicates _ => true
  | _ => false
  end.

Definition is_normalize_entry (e : log_entry) : bool :=
  match e with
  | LogNormalize _ => true
  | _ => false
  end.

(** Frames for the round-trip examples. *)
Definition mixed_case_df : DataFrame :=
  mkDF 2 [text_column "code" ["A"; "a"]]%string.

Definition tidy_df : DataFrame :=
  mkDF 3 [text_column "code" ["A1"; "B2"; "A1"];
          mkCol "energy_100g" Float64 [CNum 500; CNaN; CNum 500];
          mkCol "brands" Object
            [CStr (u " Lindt "); CNone; CStr (u "Lindt")]]%string.

(** The effect of imputation on one column. *)
Definition impute_column (numeric_strategy : option string)
    (text_strategy : pystr) (c : column) : column :=
  fst (fill_text_column text_strategy
         (fst (fill_numeric_column numeric_strategy c))).

(** The integer columns of the frame are numpy's: none holds a missing
    cell.  (A nullable integer column can hold one, and its [fillna] raises
    on a fill value that is not integral; [handle_missing_values] is
    described on frames without such a column.) *)
Definition is_int_dtype (ty : dtype) : bool :=
  match ty with
  | Int64 => true
  | _ => false
  end.

Definition integer_columns_full (d : DataFrame) : bool :=
  forallb (fun c => negb (is_int_dtype (col_dtype c))
                    || (count_if isna (col_values c) =? 0)%nat)
          (columns d).

(** The effect of the default normalisation on one column. *)
Definition normalize_if_text `{Platform} (c : column) : column :=
  if is_object_dtype (col_dtype c) then normalize_column c else c.

(** What one pass returns on [mixed_case_df] and on [tidy_df]. *)
Definition mixed_case_out : DataFrame :=
  mkDF 2 [text_column "code" ["a"; "a"]]%string.

Definition tidy_out : DataFrame :=
  mkDF 2 [text_column "code" ["a1"; "b2"];
          float_column "energy_100g" [500; 500]%Q;
          text_column "brands" ["lindt"; "unknown"]]%string.

(** [self.df] designates a live frame. *)
Definition wf_world (w : world) : Prop :=
  self_df (self w) ∈ dom (frames w).

(** [l] designates a live frame that is not the one of [self.df]. *)
Definition outside (w : world) (l : loc) : Prop :=
  wf_world w ∧ l ∈ dom (frames w) ∧ l ≠ self_df (self w).

(** Two worlds with the same transformer object and the same frames, except
    possibly for the content of the live frame [l], which is not the one of
    [self.df]. *)
Definition agree_except (l : loc) (w1 w2 : world) : Prop :=
  self w1 = self w2
  ∧ dom (frames w1) = dom (frames w2)
  ∧ (∀ l', l' ≠ l → frames w1 !! l' = frames w2 !! l')
  ∧ l ∈ dom (frames w1)
  ∧ l ≠ self_df (self w1).

(** A store holding the [code] column of the tests at location 1, and a
    client that deduplicates, takes a result, assigns into it and goes on
    with the chain. *)
Definition demo_store : store := {[ 1%positive := codes_df ]}.

Definition demo_actions : list action :=
  [Call (RemoveDuplicates None);
   GetResult;
   Assign 4%positive mixed_case_df;
   Call (NormalizeTextColumns None);
   Call (FilterOutliers ["code"%string] "none" 1)].

(* ===================================================================== *)
(** ** Quality analyzer: thresholds and standard recommendations *)
(* ===================================================================== *)

(** [QUALITY_THRESHOLDS] of [pipeline/config.py]. *)
Definition completeness_min : Q := 7 # 10.

Definition geocoding_score_min : Q := 1 # 2.

Definition duplicates_max_pct : Q := 5.

(** One recommendation of [_generate_standard_recommendations]; each
    constructor stands for the text appended in the branch of that name,
    [RecColumn] for the f-string on a column and its percentage. *)
Inductive recommendation :=
  | RecCompleteness
  | RecDuplicates
  | RecGeocoding
  | RecColumn (col : string) (pct : Q)
  | RecMaintain.

(** The recommendations appended by the loop over [null_counts.items()]. *)
Definition column_recommendations (nulls : list (string * (nat * Q)))
    : list recommendation :=
  flat_map (fun e => if Qltb 30 (snd (snd e))
                     then [RecColumn (fst e) (snd (snd e))] else [])
           nulls.

(** [QualityAnalyzer._generate_standard_recommendations]: the recommendations
    that are numbered in the returned markdown, in order.  [metrics] is
    [self.metrics]; when it is unset the analysis is run first. *)
Definition standard_recommendations (d : DataFrame)
    (metrics : option QualityMetrics) : result (list recommendation) :=
  m ← match metrics with
      | Some m => Ok m
      | None => analyze d
      end;
  let recommendations :=
    (if Qltb (completeness_score m) completeness_min
     then [RecCompleteness] else [])
    ++ (if Qltb duplicates_max_pct (duplicates_pct m)
        then [RecDuplicates] else [])
    ++ (if has_column d "geocoding_score"
        then if Qltb (geocoding_success_rate m) 50
             then [RecGeocoding] else []
        else [])
    ++ column_recommendations (calculate_null_counts d) in
  let recommendations :=
    match recommendations with
    | [] => [RecMaintain]
    | _ => recommendations
    end in
  Ok (take 5 recommendations).

(** The grade letters in order, F lowest. *)
Definition grade_rank (g : string) : nat :=
  if String.eqb g "A" then 4
  else if String.eqb g "B" then 3
  else if String.eqb g "C" then 2
  else if String.eqb g "D" then 1
  else 0.

(** The frame [{'x': [1, None], 'geocoding_score': [0.9, 0.2]}]. *)
Definition scored_df : DataFrame :=
  mkDF 2 [mkCol "x" Float64 [CNum 1; CNaN];
          mkCol "geocoding_score" Float64 [CNum (9 # 10); CNum (2 # 10)]].

(** The test [notna & (score >= 0.5)] of [calculate_geocoding_stats] on one
    cell that is no text. *)
Definition valid_score (v : cell) : bool :=
  match cell_num v with
  | Some x => Qle_bool (1 # 2) x
  | None => false
  end.

(* ===================================================================== *)
(** ** Invariants of the transformer *)
(* ===================================================================== *)

(** What an operation keeps when it takes the transformer [t] to [t1]: the
    frame stays a Tabular Container with the same column names, no row is
    added, the log is only appended to and the [verbose] flag stays. *)
Definition shape_kept (t t1 : DataTransformer) : Prop :=
  wf_frame (df t1)
  ∧ column_names (df t1) = column_names (df t)
  ∧ (index_len (df t1) <= index_len (df t))%nat
  ∧ transformations_applied t `prefix_of` transformations_applied t1
  ∧ verbose t1 = verbose t.

(** A column without its first value, and a column under a row mask. *)
Definition tail_col (c : column) : column :=
  mkCol (col_name c) (col_dtype c) (tail (col_values c)).

Definition filter_col (m : list bool) (c : column) : column :=
  mkCol (col_name c) (col_dtype c) (mask_filter m (col_values c)).

(* ===================================================================== *)
(** ** The cleaning chain of the pipeline ([pipeline/main.py]) *)
(* ===================================================================== *)

(** The calls of [_stage_3_transformation] on the frame [d] built from the
    products, up to the call of [add_derived_columns]:
    [DataTransformer(df, verbose).remove_duplicates(['code'])
     .handle_missing_values(numeric_strategy='median', text_strategy='inconnu')
     .clean_address_column('stores', min_length=5)
     .normalize_text_columns(['product_name', 'brands', 'categories',
                              'stores'])]. *)
Definition stage_3_cleaning `{Platform} (d : DataFrame) (verbose : bool)
    : result DataTransformer :=
  t1 ← remove_duplicates (Some ["code"%string]) (init d verbose);
  let t2 := handle_missing_values (Some "median"%string) (u "inconnu") t1 in
  let t3 := clean_address_column "stores" 5 t2 in
  Ok (normalize_text_columns
        (Some ["product_name"; "brands"; "categories"; "stores"]%string) t3).

(** A frame of products with their shops. *)
Definition shops_df : DataFrame :=
  mkDF 4 [text_column "code" ["001"; "002"; "001"; "004"];
          mkCol "stores" Object
            [CStr (u "Carrefour Paris"); CStr (u "Lidl"); CStr (u "Auchan");
             CNone]]%string.

(* ===================================================================== *)
(** ** Enricher: geocoding cache and join ([pipeline/enricher.py]) *)
(* ===================================================================== *)

(** Modelled from the spec: the record [GeocodingResult] of
    [pipeline/models.py], which is not among the sources.  Its fields are
    the attributes of a Geocoding Result; a missing optional attribute is
    [None]. *)
Record GeocodingResult := mkGeo {
  original_address : pystr;
  label : option pystr;
  latitude : option Q;
  longitude : option Q;
  score : Q;
  postal_code : option pystr;
  city_code : option pystr;
  city : option pystr
}.

(** Modelled from the spec: the derived validity of a Geocoding Result,
    valid if and only if the score is at least 0.5 and both latitude and
    longitude are present. *)
Definition is_valid (geo : GeocodingResult) : bool :=
  Qle_bool (1 # 2) (score geo)
  && bool_decide (is_Some (latitude geo))
  && bool_decide (is_Some (longitude geo)).

(** [self.enrichment_stats] *)
Record EnrichmentStats := mkStats {
  total_processed : nat;
  successfully_enriched : nat;
  failed_enrichment : nat
}.

(** The counters set by [DataEnricher.__init__]. *)
Definition initial_stats : EnrichmentStats := mkStats 0 0 0.

(** An optional attribute as a dict value. *)
Definition py_of_text (o : option pystr) : pyval :=
  match o with
  | Some s => PyStr s
  | None => PyNone
  end.

Definition py_of_number (o : option Q) : pyval :=
  match o with
  | Some x => PyNum x
  | None => PyNone
  end.

(** The six assignments [enriched_product[...] = geo....]. *)
Definition set_geocoding (geo : GeocodingResult) (p : product) : product :=
  <["geocoding_score"%string := PyNum (score geo)]>
    (<["postal_code"%string := py_of_text (postal_code geo)]>
       (<["city"%string := py_of_text (city geo)]>
          (<["longitude"%string := py_of_number (longitude geo)]>
             (<["latitude"%string := py_of_number (latitude geo)]>
                (<["store_address"%string := py_of_text (label geo)]> p))))).

(** The keys written by [set_geocoding]. *)
Definition enrichment_fields : list string :=
  ["store_address"; "latitude"; "longitude"; "city"; "postal_code";
   "geocoding_score"]%string.

(** The join key of a record: [addr.split(",")[0].strip()] when the field
    holds a non-empty string, [None] when the record is passed over. *)
Definition join_key (address_field : string) (p : product) : option pystr :=
  match default (PyStr []) (p !! address_field) with
  | PyStr (c :: addr) => Some (strip (hd [] (split comma (c :: addr))))
  | _ => None
  end.

(** One iteration of [for product in products] in [enrich_products]: the
    record that is appended and the counters after it. *)
Definition enrich_step (geocoding_cache : gmap pystr GeocodingResult)
    (address_field : string) (stats : EnrichmentStats) (p : product)
    : product * EnrichmentStats :=
  let stats :=
    mkStats (S (total_processed stats)) (successfully_enriched stats)
            (failed_enrichment stats) in
  match join_key address_field p with
  | Some first_addr =>
      match geocoding_cache !! first_addr with
      | Some geo =>
          (set_geocoding geo p,
           if is_valid geo
           then mkStats (total_processed stats)
                        (S (successfully_enriched stats))
                        (failed_enrichment stats)
           else mkStats (total_processed stats)
                        (successfully_enriched stats)
                        (S (failed_enrichment stats)))
      | None =>
          (p, mkStats (total_processed stats) (successfully_enriched stats)
                      (S (failed_enrichment stats)))
      end
  | None => (p, stats)
  end.

(** [DataEnricher.enrich_products], with [self.enrichment_stats] passed in
    and out. *)
Fixpoint enrich_products (products : list product)
    (geocoding_cache : gmap pystr GeocodingResult) (address_field : string)
    (stats : EnrichmentStats) : list product * EnrichmentStats :=
  match products with
  | [] => ([], stats)
  | p :: rest =>
      let '(p', stats) := enrich_step geocoding_cache address_field stats p in
      let '(enriched, stats) :=
        enrich_products rest geocoding_cache address_field stats in
      (p' :: enriched, stats)
  end.

(** [DataEnricher.build_geocoding_cache] on the results that
    [self.geocoder.fetch_all(addresses)] yields; the success rate is only
    printed. *)
Definition build_geocoding_cache (results : list GeocodingResult)
    : gmap pystr GeocodingResult :=
  fold_left (fun cache result => <[original_address result := result]> cache)
            results ∅.

(** The entry [success_rate] of [DataEnricher.get_stats]. *)
Definition success_rate (stats : EnrichmentStats) : Q :=
  if (0 <? total_processed stats)%nat
  then (Q_of_nat (successfully_enriched stats)
        / Q_of_nat (total_processed stats) * 100)%Q
  else 0%Q.

(** The enrichment of [_stage_2_enrichment] ([pipeline/main.py]) with a
    fresh enricher; [fetch_all] is the geocoding collaborator.  Without any
    address the products are returned as they are. *)
Definition stage_2_enrichment
    (fetch_all : list pystr → list GeocodingResult)
    (products : list product) : list product * EnrichmentStats :=
  let addresses := extract_addresses products "stores" in
  match addresses with
  | [] => (products, initial_stats)
  | _ =>
      let max_addresses := Nat.min 50 (length addresses) in
      let addresses :=
        if (max_addresses <? length addresses)%nat
        then take max_addresses addresses else addresses in
      let geo_cache := build_geocoding_cache (fetch_all addresses) in
      enrich_products products geo_cache "stores" initial_stats
  end.

(** The cache of the enricher test ([tests/test_enricher.py]). *)
Definition sample_cache : gmap pystr GeocodingResult :=
  {[ u "Carrefour Paris" :=
       mkGeo (u "Carrefour Paris") (Some (u "Carrefour Paris Store"))
             (Some (488566 # 10000)) (Some (23522 # 10000)) (8 # 10)
             (Some (u "75015")) None (Some (u "Paris"));
     u "Leclerc Toulouse" :=
       mkGeo (u "Leclerc Toulouse") (Some (u "Leclerc Toulouse Store"))
             (Some (436045 # 10000)) (Some (14442 # 10000)) (4 # 10)
             (Some (u "31000")) None (Some (u "Toulouse")) ]}.

(** A geocoder that answers every address with a result of score 0.9. *)
Definition echo_geocoder (addresses : list pystr) : list GeocodingResult :=
  List.map (fun a => mkGeo a (Some a) (Some 1%Q) (Some 1%Q) (9 # 10)
                       None None None) addresses.

(** The record that [enrich_products] appends for the record [p]. *)
Definition enrich_record (geocoding_cache : gmap pystr GeocodingResult)
    (address_field : string) (p : product) : product :=
  match join_key address_field p with
  | Some first_addr =>
      match geocoding_cache !! first_addr with
      | Some geo => set_geocoding geo p
      | None => p
      end
  | None => p
  end.

(** The records of [products] that reach the cache lookup. *)
Definition with_address (address_field : string) (products : list product)
    : list product :=
  List.filter (fun p => bool_decide (is_Some (join_key address_field p)))
              products.

(** A record whose first shop name has three characters. *)
Definition short_key_products : list product :=
  [ {[ "code"%string := PyStr (u "001");
       "stores"%string := PyStr (u "Bio, Carrefour Paris") ]} ].

(* ===================================================================== *)
(** ** Binary64 arithmetic of the grade and of the outlier filter *)
(* ===================================================================== *)

(** The grade thresholds and the outlier bounds are compared with floats
    that the code has just computed, so their rounding decides the outcome
    near a threshold.  This module embeds [determine_quality_grade] and
    [filter_outliers] over IEEE 754 binary64 values, with the operations of
    the standard library's [SpecFloat] at precision 53 and exponent bound
    1024 (round to nearest, ties to even). *)
Module Binary64.

Definition prec : Z := 53.
Definition emax : Z := 1024.

Definition add : spec_float → spec_float → spec_float := SFadd prec emax.
Definition sub : spec_float → spec_float → spec_float := SFsub prec emax.
Definition mul : spec_float → spec_float → spec_float := SFmul prec emax.
Definition div : spec_float → spec_float → spec_float := SFdiv prec emax.
Definition abs : spec_float → spec_float := SFabs.

(** [x <= y] and [x < y]; both are false when an operand is NaN. *)
Definition leb : spec_float → spec_float → bool := SFleb.
Definition ltb : spec_float → spec_float → bool := SFltb.

(** [float(z)] of an integer. *)
Definition of_Z (z : Z) : spec_float := binary_normalize prec emax z 0 false.

(** The float written as the decimal literal of value [q]: the quotient of
    numerator by denominator, which is the float nearest to [q] when both
    are below [2^53]. *)
Definition of_Q (q : Q) : spec_float :=
  div (of_Z (Qnum q)) (of_Z (Zpos (Qden q))).

(** Python's [min(a, b)]: [b] when [b < a], else [a]. *)
Definition py_min (a b : spec_float) : spec_float :=
  if ltb b a then b else a.

(** [QualityAnalyzer.determine_quality_grade]; [d] is [self.df]. *)
Definition determine_quality_grade (d : DataFrame)
    (completeness duplicates_pct geo_rate : spec_float) : string :=
  let score := of_Z 0 in
  let score := add score (py_min (mul completeness (of_Z 40)) (of_Z 40)) in
  let score :=
    if leb duplicates_pct (of_Z 1) then add score (of_Z 30)
    else if leb duplicates_pct (of_Z 5) then add score (of_Z 20)
    else if leb duplicates_pct (of_Z 10) then add score (of_Z 10)
    else score in
  let score :=
    if has_column d "geocoding_score"
    then add score (py_min (mul (div geo_rate (of_Z 100)) (of_Z 30)) (of_Z 30))
    else add score (of_Z 30) in
  if leb (of_Z 90) score then "A"%string
  else if leb (of_Z 75) score then "B"%string
  else if leb (of_Z 60) score then "C"%string
  else if leb (of_Z 40) score then "D"%string
  else "F"%string.

(** The grade in the words of the specification: three terms added from
    left to right, then the letter of the sum. *)
Definition spec_duplicate_points (duplicates_pct : spec_float) : spec_float :=
  if leb duplicates_pct (of_Z 1) then of_Z 30
  else if leb duplicates_pct (of_Z 5) then of_Z 20
  else if leb duplicates_pct (of_Z 10) then of_Z 10
  else of_Z 0.

Definition spec_geocoding_points (has_geocoding : bool)
    (geo_rate : spec_float) : spec_float :=
  if has_geocoding
  then py_min (mul (div geo_rate (of_Z 100)) (of_Z 30)) (of_Z 30)
  else of_Z 30.

Definition spec_score (has_geocoding : bool)
    (completeness duplicates_pct geo_rate : spec_float) : spec_float :=
  add (add (py_min (mul completeness (of_Z 40)) (of_Z 40))
           (spec_duplicate_points duplicates_pct))
      (spec_geocoding_points has_geocoding geo_rate).

Definition spec_letter (score : spec_float) : string :=
  if leb (of_Z 90) score then "A"%string
  else if leb (of_Z 75) score then "B"%string
  else if leb (of_Z 60) score then "C"%string
  else if leb (of_Z 40) score then "D"%string
  else "F"%string.

(** Two floats that every sum and every comparison of the grade treat
    alike: the same float, or zeros of either sign. *)
Definition alike (a b : spec_float) : Prop :=
  a = b ∨ ((∃ s, a = S754_zero s) ∧ (∃ s, b = S754_zero s)).

(** The reductions of pandas that [filter_outliers] calls, on the present
    values of a column in row order: [Series.quantile(p)], [Series.mean()]
    and [Series.std()].  Their kernels belong to numpy, not to the
    repository, and are the fields of this class. *)
Class Statistics := {
  quantile : Q → list spec_float → spec_float;
  mean : list spec_float → spec_float;
  std : list spec_float → spec_float
}.

(** The float that the arithmetic of a column sees in a cell: none in a
    missing cell; text has none and raises. *)
Definition cell_value (c : cell) : result (option spec_float) :=
  match c with
  | CNone | CNaN => Ok None
  | CNum x => Ok (Some (of_Q x))
  | CBool b => Ok (Some (of_Z (Z.b2z b)))
  | CStr _ => Raise TypeError
  end.

Definition series_values (vs : list cell)
    : result (list (option spec_float)) :=
  mapM_result cell_value vs.

(** The present values (the reductions skip missing cells). *)
Definition present (xs : list (option spec_float)) : list spec_float :=
  omap id xs.

(** [(series >= lower) & (series <= upper)] on one cell; a comparison with a
    missing cell is false. *)
Definition cell_between (lower upper : spec_float)
    (x : option spec_float) : bool :=
  match x with
  | Some v => leb lower v && leb v upper
  | None => false
  end.

(** [np.abs((series - mean) / std) < threshold] on one cell. *)
Definition cell_zscore_below (mean std threshold : spec_float)
    (x : option spec_float) : bool :=
  match x with
  | Some v => ltb (abs (div (sub v mean) std)) threshold
  | None => false
  end.

(** The row mask of the IQR branch, [None] when the branch assigns nothing
    ([IQR > 0] fails). *)
Definition iqr_mask `{Statistics} (threshold : spec_float)
    (xs : list (option spec_float)) : option (list bool) :=
  let Q1 := quantile (1 # 4) (present xs) in
  let Q3 := quantile (3 # 4) (present xs) in
  let IQR := sub Q3 Q1 in
  if ltb (of_Z 0) IQR then
    let lower := sub Q1 (mul threshold IQR) in
    let upper := add Q3 (mul threshold IQR) in
    Some (List.map (cell_between lower upper) xs)
  else None.

(** The row mask of the z-score branch, [None] when [std > 0] fails. *)
Definition zscore_mask `{Statistics} (threshold : spec_float)
    (xs : list (option spec_float)) : option (list bool) :=
  let m := mean (present xs) in
  let s := std (present xs) in
  if ltb (of_Z 0) s
  then Some (List.map (cell_zscore_below m s threshold) xs)
  else None.

Definition is_bool_dtype (ty : dtype) : bool :=
  match ty with
  | Bool => true
  | _ => false
  end.

(** Body of [for col in columns] in [filter_outliers]: [Some d'] when the
    iteration rebinds [self.df] to the filtered frame [d'], [None] when it
    leaves [self.df] alone.  The code tests no dtype: text raises in the
    reductions, and numpy refuses to interpolate a quantile between the
    values of a boolean column. *)
Definition filter_outliers_step `{Statistics} (method : string)
    (threshold : spec_float) (d : DataFrame) (col : string)
    : result (option DataFrame) :=
  if negb (has_column d col) then Ok None
  else
    c ← get_column d col;
    let vs := col_values c in
    if String.eqb method "iqr" && (0 <? count_if notna vs)%nat then
      if is_bool_dtype (col_dtype c) then Raise TypeError
      else
        xs ← series_values vs;
        Ok (m ← iqr_mask threshold xs; Some (filter_rows m d))
    else if String.eqb method "zscore" && (0 <? count_if notna vs)%nat then
      xs ← series_values vs;
      Ok (m ← zscore_mask threshold xs; Some (filter_rows m d))
    else Ok None.

(** The loop of [filter_outliers] on the frame. *)
Fixpoint filter_outliers_loop `{Statistics} (method : string)
    (threshold : spec_float) (cols : list string) (d : DataFrame)
    : result DataFrame :=
  match cols with
  | [] => Ok d
  | col :: rest =>
      r ← filter_outliers_step method threshold d col;
      filter_outliers_loop method threshold rest (default d r)
  end.

(** [DataTransformer.filter_outliers] *)
Definition filter_outliers `{Statistics} (cols : list string)
    (method : string) (threshold : spec_float) (t : DataTransformer)
    : result DataTransformer :=
  let initial := index_len (df t) in
  d' ← filter_outliers_loop method threshold cols (df t);
  let removed := (initial - index_len d')%nat in
  Ok (mkT d'
        (if (0 <? removed)%nat
         then transformations_applied t ++ [LogOutliers method removed]
         else transformations_applied t)
        (verbose t)).





(** Reference kernels.  [reference_quantile] interpolates linearly between
    the two order statistics around position [(n - 1) * p], as
    [numpy.percentile] does; [reference_mean] and [reference_std] add from
    left to right, which is numpy's order on fewer than eight values. *)
Fixpoint insert_sorted (x : spec_float) (l : list spec_float)
    : list spec_float :=
  match l with
  | [] => [x]
  | y :: t => if leb x y then x :: l else y :: insert_sorted x t
  end.









End Binary64.

(* ===================================================================== *)
(** * Properties *)
(* ===================================================================== *)

(** Case analysis on every [if] of the goal, and on every test of an
    optional value as well. *)
Ltac case_ifs :=
  repeat (match goal with
          | |- context [if ?b then _ else _] => destruct b
          end; simpl; try done).

Ltac case_tests :=
  repeat (match goal with
          | |- context [if ?b then _ else _] => destruct b
          | |- context [match ?o with Some _ => _ | None => _ end] =>
              destruct o
          end; simpl; try done).

(** ** Enricher *)

(** *** Facts on [strip] and [split] *)

Lemma lstrip_nil_iff (s : pystr) :
  lstrip s = [] ↔ forallb isspace s = true.
Proof.
  induction s as [|c s IH]; simpl; [done|].
  destruct (isspace c); simpl; [done|]. split; discriminate.
Qed.

Lemma forallb_rev {A} (p : A → bool) (l : list A) :
  forallb p (rev l) = forallb p l.
Proof.
  induction l as [|x l IH]; simpl; [done|].
  rewrite forallb_app, IH. simpl. rewrite andb_true_r. apply andb_comm.
Qed.

Lemma lstrip_head (s : pystr) (c : N) (t : pystr) :
  lstrip s = c :: t → isspace c = false.
Proof.
  induction s as [|a s IH]; simpl; [done|].
  destruct (isspace a) eqn:Ha; [done|]. by intros [= <- _].
Qed.

Lemma strip_nil_iff (s : pystr) :
  strip s = [] ↔ forallb isspace s = true.
Proof.
  unfold strip, rstrip. split.
  - intros Hs. apply (f_equal (@rev N)) in Hs.
    rewrite rev_involutive in Hs. simpl in Hs.
    apply lstrip_nil_iff in Hs. rewrite forallb_rev in Hs.
    destruct (lstrip s) as [|c t] eqn:Hl; [by apply lstrip_nil_iff|].
    apply lstrip_head in Hl. simpl in Hs. rewrite Hl in Hs. done.
  - intros Hs. apply lstrip_nil_iff in Hs. by rewrite Hs.
Qed.

Lemma split_sub (sep : N) (s part : pystr) (x : N) :
  part ∈ split sep s → x ∈ part → x ∈ s.
Proof.
  revert part. induction s as [|c s IH]; intros part; simpl.
  - intros ->%list_elem_of_singleton Hx. done.
  - destruct (c =? sep).
    + intros [->|Hin]%elem_of_cons Hx; [by apply elem_of_nil in Hx|].
      right. eauto.
    + destruct (split sep s) as [|p ps] eqn:Hsp.
      * intros ->%list_elem_of_singleton ->%list_elem_of_singleton. left.
      * intros [->|Hin]%elem_of_cons Hx.
        -- apply elem_of_cons in Hx as [->|Hx]; [left|right].
           apply (IH p); [left|done].
        -- right. apply (IH part); [by right|done].
Qed.

Lemma forallb_isspace_part (sep : N) (s part : pystr) :
  part ∈ split sep s → forallb isspace s = true →
  forallb isspace part = true.
Proof.
  intros Hin Hs. apply forallb_forall. intros x Hx%list_elem_of_In.
  rewrite forallb_forall in Hs. apply Hs, list_elem_of_In.
  eapply split_sub; eauto.
Qed.

(** *** [extract_addresses] *)

Lemma add_parts_elem (acc : gset pystr) (addr x : pystr) :
  x ∈ add_parts acc addr ↔
  x ∈ acc ∨ ∃ part, part ∈ split comma addr ∧ x = strip part
                    ∧ (4 <= length x)%nat.
Proof.
  unfold add_parts. generalize (split comma addr) as parts.
  intros parts. revert acc.
  induction parts as [|p parts IH]; intros acc; simpl.
  - split; [by left|]. intros [?|(part & Hin & _)]; [done|].
    by apply elem_of_nil in Hin.
  - rewrite IH. destruct (3 <? length (strip p))%nat eqn:Hlen.
    + apply Nat.ltb_lt in Hlen. rewrite elem_of_union, elem_of_singleton.
      split.
      * intros [[?| ->]|(part & Hin & ? & ?)]; [by left| |].
        -- right. exists p. split; [left|]. done.
        -- right. exists part. split; [by right|done].
      * intros [?|(part & Hin & -> & ?)]; [by left; left|].
        apply elem_of_cons in Hin as [->|Hin]; [by left; right|].
        right. by exists part.
    + apply Nat.ltb_ge in Hlen. split.
      * intros [?|(part & Hin & ? & ?)]; [by left|].
        right. exists part. split; [by right|done].
      * intros [?|(part & Hin & -> & ?)]; [by left|].
        apply elem_of_cons in Hin as [->|Hin]; [lia|].
        right. by exists part.
Qed.

Lemma extract_step_elem (field : string) (acc : gset pystr) (p : product)
    (x : pystr) :
  x ∈ extract_step field acc p ↔
  x ∈ acc ∨ ∃ addr part, p !! field = Some (PyStr addr)
                         ∧ part ∈ split comma addr ∧ x = strip part
                         ∧ (4 <= length x)%nat.
Proof.
  unfold extract_step.
  destruct (p !! field) as [[|addr|q]|] eqn:Hp; simpl.
  1,3,4: split; [by left|]; intros [?|(addr' & part & Heq & Hin & Hx & Hlen)];
    [done|]; try discriminate.
  - assert (Hguard : (∃ part, part ∈ split comma addr
                        ∧ (4 <= length (strip part))%nat) →
                     addr ≠ [] ∧ strip addr ≠ []).
    { intros (part & Hin & Hlen). split.
      - intros ->. apply list_elem_of_singleton in Hin as ->.
        simpl in Hlen. lia.
      - intros Hs%strip_nil_iff.
        pose proof (forallb_isspace_part _ _ _ Hin Hs) as Hp'.
        apply strip_nil_iff in Hp'. rewrite Hp' in Hlen. simpl in Hlen. lia. }
    destruct addr as [|a addr'].
    + split; [by left|]. intros [?|(addr2 & part & [= <-] & Hin & -> & Hlen)];
        [done|]. destruct Hguard as [? _]; [by exists part|done].
    + destruct (strip (a :: addr')) as [|b s'] eqn:Hs.
      * split; [by left|].
        intros [?|(addr2 & part & [= <-] & Hin & -> & Hlen)]; [done|].
        destruct Hguard as [_ ?]; [by exists part|done].
      * rewrite add_parts_elem. split.
        -- intros [?|(part & ? & ? & ?)]; [by left|].
           right. by exists (a :: addr'), part.
        -- intros [?|(addr2 & part & [= <-] & ? & ? & ?)]; [by left|].
           right. by exists part.
Qed.

Lemma extract_fold_elem (field : string) (ps : list product)
    (acc : gset pystr) (x : pystr) :
  x ∈ fold_left (extract_step field) ps acc ↔
  x ∈ acc ∨ ∃ p addr part, p ∈ ps ∧ p !! field = Some (PyStr addr)
                           ∧ part ∈ split comma addr ∧ x = strip part
                           ∧ (4 <= length x)%nat.
Proof.
  revert acc. induction ps as [|p ps IH]; intros acc; simpl.
  - split; [by left|]. intros [?|(p & ? & ? & Hin & _)]; [done|].
    by apply elem_of_nil in Hin.
  - rewrite IH, extract_step_elem. split.
    + intros [[?|(addr & part & ?)]|(p' & addr & part & ? & ?)].
      * by left.
      * right. exists p, addr, part. split; [left|done].
      * right. exists p', addr, part. split; [by right|done].
    + intros [?|(p' & addr & part & Hin & ?)]; [by left; left|].
      apply elem_of_cons in Hin as [->|Hin].
      * left; right. by exists addr, part.
      * right. by exists p', addr, part.
Qed.

(** C10. [extract_addresses] returns, without repetition, exactly the
    trimmed comma-separated parts of at least 4 characters of the records'
    text-valued address field, compared as exact strings; on the four sample
    records these are "Carrefour Paris", "Auchan" and "Leclerc Toulouse". *)
Theorem extract_addresses_spec (products : list product) (field : string) :
  NoDup (extract_addresses products field)
  ∧ (∀ x : pystr,
       x ∈ extract_addresses products field ↔
       ∃ p addr part,
         p ∈ products ∧ p !! field = Some (PyStr addr)
         ∧ part ∈ split comma addr ∧ x = strip part ∧ (4 <= length x)%nat)
  ∧ extract_addresses sample_products "stores"
      ≡ₚ [u "Carrefour Paris"; u "Auchan"; u "Leclerc Toulouse"].
Proof.
  unfold extract_addresses. split; [apply NoDup_elements|]. split.
  - intros x. rewrite elem_of_elements, extract_fold_elem. split.
    + intros [Hx|?]; [|done]. by apply elem_of_empty in Hx.
    + by right.
  - vm_compute. reflexivity.
Qed.

(** ** Quality grade *)

Lemma Qle_bool_compat_r (a x y : Q) :
  (x == y)%Q → Qle_bool a x = Qle_bool a y.
Proof.
  intros Hxy. destruct (Qle_bool a y) eqn:Hy.
  - apply Qle_bool_iff. apply Qle_bool_iff in Hy. by rewrite Hxy.
  - destruct (Qle_bool a x) eqn:Hx; [|done].
    apply Qle_bool_iff in Hx. rewrite Hxy in Hx.
    apply Qle_bool_iff in Hx. congruence.
Qed.

Lemma spec_letter_compat (x y : Q) :
  (x == y)%Q → spec_letter x = spec_letter y.
Proof.
  intros Hxy. unfold spec_letter.
  by rewrite !(Qle_bool_compat_r _ x y Hxy).
Qed.

(** ** Quality grade in binary64 *)

Lemma alike_trans (a b c : spec_float) :
  Binary64.alike a b → Binary64.alike b c → Binary64.alike a c.
Proof.
  intros [->|[Ha Hb]] [->|[Hb' Hc]]; [by left|by right|by right|by right].
Qed.

(** Adding zero changes at most the sign of a zero. *)
Lemma add_zero_l (x : spec_float) :
  Binary64.alike (Binary64.add (Binary64.of_Z 0) x) x.
Proof.
  destruct x as [[]| | |]; try (by left); right; split; by eexists.
Qed.

Lemma add_zero_r (x : spec_float) :
  Binary64.alike (Binary64.add x (Binary64.of_Z 0)) x.
Proof.
  destruct x as [[]| | |]; try (by left); right; split; by eexists.
Qed.

Lemma add_alike (a b c : spec_float) :
  Binary64.alike a b → Binary64.alike (Binary64.add a c) (Binary64.add b c).
Proof.
  intros [->|[[s ->] [s' ->]]]; [by left|].
  destruct c as [[]| | |], s, s'; try (by left); right; split; by eexists.
Qed.

Lemma leb_alike (k a b : spec_float) :
  Binary64.alike a b → Binary64.leb k a = Binary64.leb k b.
Proof.
  intros [->|[[s ->] [s' ->]]]; [done|].
  by destruct k as [[]| | |].
Qed.

Lemma spec_letter_alike (a b : spec_float) :
  Binary64.alike a b → Binary64.spec_letter a = Binary64.spec_letter b.
Proof.
  intros H. unfold Binary64.spec_letter.
  by rewrite !(leb_alike _ a b H).
Qed.

(** The score that the code accumulates, against the sum of the three
    terms: they differ at most in the sign of a zero. *)
Lemma grade_score_alike (has_geocoding : bool)
    (completeness duplicates_pct geo_rate : spec_float) :
  Binary64.alike
    (let f := Binary64.of_Z in
     let score := f 0%Z in
     let score :=
       Binary64.add score
         (Binary64.py_min (Binary64.mul completeness (f 40%Z)) (f 40%Z)) in
     let score :=
       if Binary64.leb duplicates_pct (f 1%Z)
       then Binary64.add score (f 30%Z)
       else if Binary64.leb duplicates_pct (f 5%Z)
       then Binary64.add score (f 20%Z)
       else if Binary64.leb duplicates_pct (f 10%Z)
       then Binary64.add score (f 10%Z)
       else score in
     if has_geocoding
     then Binary64.add score
            (Binary64.py_min
               (Binary64.mul (Binary64.div geo_rate (f 100%Z)) (f 30%Z))
               (f 30%Z))
     else Binary64.add score (f 30%Z))
    (Binary64.spec_score has_geocoding completeness duplicates_pct geo_rate).
Proof.
  cbv zeta.
  unfold Binary64.spec_score, Binary64.spec_geocoding_points,
    Binary64.spec_duplicate_points.
  set (a := Binary64.py_min (Binary64.mul completeness _) _).
  assert (Hd : ∀ k, Binary64.alike
                      (Binary64.add (Binary64.add (Binary64.of_Z 0) a) k)
                      (Binary64.add a k))
    by (intros k; apply add_alike, add_zero_l).
  assert (H0 : Binary64.alike (Binary64.add (Binary64.of_Z 0) a)
                 (Binary64.add a (Binary64.of_Z 0))).
  { eapply alike_trans; [apply add_zero_l|].
    destruct (add_zero_r a) as [->|[? ?]]; [by left|by right]. }
  destruct has_geocoding; repeat case_match; by apply add_alike.
Qed.

(** C1. The grade is a function of completeness, duplicate percentage,
    geocoding rate and the presence of a [geocoding_score] column.  In the
    binary64 arithmetic of the code it is the letter (A from 90, B from 75,
    C from 60, D from 40, F below) of the sum, taken from left to right, of
    min(completeness*40, 40), the duplicate tier (30 up to 1 percent, 20 up
    to 5, 10 up to 10, else 0) and the geocoding points (30 without a
    geocoding column, else min(geo_rate/100*30, 30)).  With completeness
    0.5, 7 percent of duplicates and rate 0 the grade is C without a
    geocoding column (F with one); with completeness 1, no duplicates and
    rate 100 the grade is A. *)
Theorem determine_quality_grade_spec :
  (∀ (d : DataFrame) (completeness duplicates_pct geo_rate : spec_float),
     Binary64.determine_quality_grade d completeness duplicates_pct geo_rate
     = Binary64.spec_letter
         (Binary64.spec_score (has_column d "geocoding_score")
            completeness duplicates_pct geo_rate))
  ∧ (∀ d : DataFrame,
       Binary64.determine_quality_grade d
         (Binary64.of_Q (1 # 2)) (Binary64.of_Z 7) (Binary64.of_Z 0)
       = (if has_column d "geocoding_score" then "F" else "C")%string)
  ∧ (∀ d : DataFrame,
       Binary64.determine_quality_grade d
         (Binary64.of_Z 1) (Binary64.of_Z 0) (Binary64.of_Z 100)
       = "A"%string).
Proof.
  split; [|split].
  - intros d c p g.
    exact (spec_letter_alike _ _
             (grade_score_alike (has_column d "geocoding_score") c p g)).
  - intros d. unfold Binary64.determine_quality_grade.
    destruct (has_column d "geocoding_score"); vm_compute; reflexivity.
  - intros d. unfold Binary64.determine_quality_grade.
    destruct (has_column d "geocoding_score"); vm_compute; reflexivity.
Qed.

(** Next to a threshold the rounding of the sums decides the letter: with a
    geocoding column, completeness 0.69, no duplicates and rate 8 add up to
    59.99999999999999 in binary64 (60 in exact arithmetic), grade D. *)
Example grade_below_threshold :
  Binary64.determine_quality_grade scored_df
    (Binary64.of_Q (69 # 100)) (Binary64.of_Z 0) (Binary64.of_Z 8)
  = "D"%string
  ∧ determine_quality_grade scored_df (69 # 100) 0 8 = "C"%string.
Proof. vm_compute. split; reflexivity. Qed.

(** ** Analysis of an empty container *)

(** C6. On a container with no row or no column, [analyze] returns (it
    raises nothing) metrics with completeness 0, no duplicate and 0 percent,
    geocoding rate and average 0, an empty null-count mapping, and the grade
    of the score that remains: C without a geocoding column, F with one. *)
Theorem analyze_empty (d : DataFrame) :
  df_empty d = true →
  ∃ m : QualityMetrics,
    analyze d = Ok m
    ∧ total_records m = index_len d
    ∧ (completeness_score m == 0)%Q
    ∧ duplicates_count m = O
    ∧ (duplicates_pct m == 0)%Q
    ∧ (geocoding_success_rate m == 0)%Q
    ∧ (avg_geocoding_score m == 0)%Q
    ∧ null_counts m = []
    ∧ quality_grade m = determine_quality_grade d 0 0 0
    ∧ quality_grade m
      = (if has_column d "geocoding_score" then "F" else "C")%string.
Proof.
  intros Hempty.
  unfold analyze, calculate_completeness, count_duplicates,
    calculate_geocoding_stats, calculate_null_counts.
  rewrite Hempty. simpl. eexists. split; [reflexivity|]. simpl.
  repeat split; try reflexivity.
  unfold determine_quality_grade.
  destruct (has_column d "geocoding_score"); vm_compute; reflexivity.
Qed.

Lemma analyze_empty_witness :
  ∃ m : QualityMetrics,
    analyze (mkDF 0 []) = Ok m
    ∧ total_records m = O
    ∧ (completeness_score m == 0)%Q
    ∧ duplicates_count m = O
    ∧ (duplicates_pct m == 0)%Q
    ∧ (geocoding_success_rate m == 0)%Q
    ∧ (avg_geocoding_score m == 0)%Q
    ∧ null_counts m = []
    ∧ quality_grade m = determine_quality_grade (mkDF 0 []) 0 0 0
    ∧ quality_grade m = "C"%string.
Proof. apply (analyze_empty (mkDF 0 [])). reflexivity. Defined.

(** ** Columns and row masks *)

Lemma find_column_spec (cs : list column) (name : string) :
  match List.find (fun c => String.eqb (col_name c) name) cs with
  | Some c => c ∈ cs ∧ col_name c = name
  | None => name ∉ List.map col_name cs
  end.
Proof.
  induction cs as [|c cs IH]; simpl; [apply not_elem_of_nil|].
  destruct (String.eqb (col_name c) name) eqn:Hc.
  - apply String.eqb_eq in Hc. split; [left|done].
  - apply String.eqb_neq in Hc.
    destruct (List.find _ cs) as [c'|].
    + destruct IH. split; [by right|done].
    + intros [?|?]%elem_of_cons; [congruence|done].
Qed.

Lemma get_column_Ok (d : DataFrame) (name : string) (c : column) :
  get_column d name = Ok c → c ∈ columns d ∧ col_name c = name.
Proof.
  unfold get_column. pose proof (find_column_spec (columns d) name) as Hf.
  destruct (List.find _ (columns d)); [|done]. by intros [= <-].
Qed.

Lemma has_column_true (d : DataFrame) (name : string) :
  has_column d name = true → ∃ c, get_column d name = Ok c.
Proof.
  unfold has_column, get_column, column_names. intros Hin%bool_decide_eq_true.
  pose proof (find_column_spec (columns d) name) as Hf.
  destruct (List.find _ (columns d)) as [c|]; [by exists c|done].
Qed.

Lemma mapM_get_columns (d : DataFrame) (names : list string) :
  Forall (fun n => has_column d n = true) names →
  ∃ cs, mapM_result (get_column d) names = Ok cs
        ∧ List.map col_name cs = names.
Proof.
  induction 1 as [|n names Hn _ (cs & Hcs & Hnames)]; simpl.
  - by exists [].
  - destruct (has_column_true _ _ Hn) as (c & Hc). rewrite Hc. simpl.
    rewrite Hcs. simpl. exists (c :: cs). split; [done|]. simpl.
    f_equal; [|done]. by apply get_column_Ok in Hc as [_ ?].
Qed.

Lemma length_duplicated_from (seen ks : list (list cell)) :
  length (duplicated_from seen ks) = length ks.
Proof.
  revert seen. induction ks as [|k ks IH]; intros seen; simpl; [done|].
  by rewrite IH.
Qed.

Lemma duplicated_from_lookup (seen ks : list (list cell)) (i : nat) :
  duplicated_from seen ks !! i = Some true ↔
  ∃ ki, ks !! i = Some ki
        ∧ ((∃ k, k ∈ seen ∧ key_eqb ki k = true)
           ∨ (∃ j kj, (j < i)%nat ∧ ks !! j = Some kj
                      ∧ key_eqb ki kj = true)).
Proof.
  revert seen i. induction ks as [|k ks IH]; intros seen i; simpl.
  - split; [done|]. by intros (? & ? & _).
  - destruct i as [|i]; simpl.
    + split.
      * intros [= Hex]. exists k. split; [done|]. left.
        apply existsb_exists in Hex as (k' & Hin & Hk').
        exists k'. by rewrite <- list_elem_of_In in Hin.
      * intros (ki & [= <-] & [(k' & Hin & Hk')|(j & ? & ? & _)]); [|lia].
        f_equal. apply existsb_exists. exists k'.
        by rewrite <- list_elem_of_In.
    + rewrite IH. split.
      * intros (ki & Hki & [(k' & Hin & Hk')|(j & kj & Hj & Hkj & Heq)]);
          exists ki; (split; [done|]).
        -- apply elem_of_cons in Hin as [->|Hin].
           ++ right. exists O, k. repeat split; [lia|done..].
           ++ left. by exists k'.
        -- right. exists (S j), kj. repeat split; [lia|done..].
      * intros (ki & Hki & [(k' & Hin & Hk')|(j & kj & Hj & Hkj & Heq)]);
          exists ki; (split; [done|]).
        -- left. exists k'. split; [by right|done].
        -- destruct j as [|j]; simpl in Hkj.
           ++ injection Hkj as <-. left. exists k. split; [left|done].
           ++ right. exists j, kj. repeat split; [lia|done..].
Qed.

Lemma duplicated_lookup (ks : list (list cell)) (i : nat) :
  duplicated_from [] ks !! i = Some true ↔ repeats_earlier ks i.
Proof.
  rewrite duplicated_from_lookup. unfold repeats_earlier. split.
  - intros (ki & Hki & [(k & Hin & _)|(j & kj & ? & ? & ?)]).
    + by apply elem_of_nil in Hin.
    + by exists j, ki, kj.
  - intros (j & ki & kj & ? & ? & ? & ?). exists ki. split; [done|].
    right. by exists j, kj.
Qed.

Lemma count_if_negb (m : list bool) :
  count_if id (List.map negb m) = (length m - count_if id m)%nat.
Proof.
  unfold count_if. induction m as [|b m IH]; simpl; [done|].
  assert (length (List.filter id m) <= length m)%nat
    by apply filter_length_le.
  destruct b; simpl; rewrite IH; lia.
Qed.

Lemma length_row_keys (cs : list column) (n : nat) :
  length (row_keys cs n) = n.
Proof. unfold row_keys. by rewrite length_map, length_seq. Qed.

(** ** Key columns of duplicate counting and of deduplication *)

Lemma first_column_has (d : DataFrame) (c : string) :
  first_column_name d = Ok c → has_column d c = true.
Proof.
  unfold first_column_name, has_column, column_names.
  destruct (columns d) as [|c0 cs]; [done|]. intros [= <-].
  apply bool_decide_eq_true. simpl. left.
Qed.

Lemma not_empty_first_column (d : DataFrame) :
  df_empty d = false →
  (0 < index_len d)%nat ∧ ∃ c, first_column_name d = Ok c.
Proof.
  unfold df_empty, first_column_name. intros [Hn Hc]%orb_false_elim.
  apply Nat.eqb_neq in Hn. split; [lia|].
  destruct (columns d) as [|c cs]; [done|]. by eexists.
Qed.

Lemma only_code_preferred (d : DataFrame) :
  (∀ c, c ∈ possible_ids → c ≠ "code"%string → has_column d c = false) →
  List.filter (has_column d) possible_ids
  = if has_column d "code" then ["code"%string] else [].
Proof.
  intros Hno.
  assert (Hother : ∀ c, c ∈ ["id"; "product_id"; "siret"; "uuid"]%string →
                        has_column d c = false).
  { intros c Hc. apply Hno.
    - unfold possible_ids. by right.
    - intros ->. repeat (apply elem_of_cons in Hc as [[=]|Hc]).
      by apply elem_of_nil in Hc. }
  unfold possible_ids. simpl.
  rewrite (Hother "id"%string), (Hother "product_id"%string),
    (Hother "siret"%string), (Hother "uuid"%string);
    [by destruct (has_column d "code")|..]; repeat first [by left | right].
Qed.

(** C2, amended.  On a container with rows and columns and no explicit key,
    duplicate counting keys on every column among code, id, product_id,
    siret, uuid that the container has, or on the first column when it has
    none of them; Deduplicate keys on code if present, else on the first
    column.  The two keys are the same when no preferred column other than
    code is present.  Duplicate counting returns the number of rows that
    repeat an earlier row under its key and that number as a percentage of
    the rows; when the keys are the same, Deduplicate removes that many
    rows. *)
Theorem duplicate_keys_policy (d : DataFrame) (v : bool) :
  df_empty d = false →
  ∃ (first : string) (ids : list string) (k : string) (cs : list column)
    (mask : list bool) (n : nat) (pct : Q),
    first_column_name d = Ok first
    ∧ count_duplicates_keys d None = Ok ids
    ∧ (List.filter (has_column d) possible_ids = [] → ids = [first])
    ∧ (List.filter (has_column d) possible_ids ≠ [] →
       ∀ c, c ∈ ids ↔ c ∈ possible_ids ∧ has_column d c = true)
    ∧ remove_duplicates_keys d None = Ok [k]
    ∧ k = (if has_column d "code" then "code"%string else first)
    ∧ mapM_result (get_column d) ids = Ok cs
    ∧ length mask = index_len d
    ∧ (∀ i, mask !! i = Some true
            ↔ repeats_earlier (row_keys cs (index_len d)) i)
    ∧ count_duplicates d None = Ok (n, pct)
    ∧ n = count_if id mask
    ∧ (pct == Q_of_nat n / Q_of_nat (index_len d) * 100)%Q
    ∧ ((∀ c, c ∈ possible_ids → c ≠ "code"%string → has_column d c = false) →
       ids = [k]
       ∧ ∃ t, remove_duplicates None (init d v) = Ok t
              ∧ index_len (df t) = (index_len d - n)%nat).
Proof.
  intros Hempty.
  destruct (not_empty_first_column d Hempty) as (Hlen & first & Hfirst).
  pose proof (first_column_has _ _ Hfirst) as Hhas_first.
  set (avail := List.filter (has_column d) possible_ids).
  set (ids := match avail with [] => [first] | _ => avail end).
  assert (Hkeys : count_duplicates_keys d None = Ok ids).
  { unfold count_duplicates_keys, ids. fold avail.
    destruct avail; [by rewrite Hfirst|done]. }
  assert (Hids_has : Forall (fun n => has_column d n = true) ids).
  { unfold ids. destruct avail as [|a l] eqn:Ha.
    - by constructor.
    - rewrite <- Ha. unfold avail. apply Forall_forall.
      intros x Hx. apply list_elem_of_In, filter_In in Hx. tauto. }
  assert (Hids_ne : ids ≠ []).
  { unfold ids. by destruct avail. }
  destruct (mapM_get_columns d ids Hids_has) as (cs & Hcs & Hnames).
  assert (Hcs_ne : cs ≠ []).
  { intros ->. simpl in Hnames. congruence. }
  set (mask := duplicated_from [] (row_keys cs (index_len d))).
  assert (Hdup : duplicated d ids = Ok mask).
  { unfold duplicated. rewrite Hempty, Hcs. simpl. by destruct cs. }
  set (k := if has_column d "code" then "code"%string else first).
  assert (Hrk : remove_duplicates_keys d None = Ok [k]).
  { unfold remove_duplicates_keys, k.
    destruct (has_column d "code"); [done|]. by rewrite Hfirst. }
  exists first, ids, k, cs, mask, (count_if id mask),
    (Q_of_nat (count_if id mask) / Q_of_nat (index_len d) * 100)%Q.
  split; [done|]. split; [done|]. split.
  { unfold ids. fold avail. by intros ->. }
  split.
  { fold avail. unfold ids. destruct avail as [|a l] eqn:Ha; [done|].
    intros _ c. rewrite <- Ha. unfold avail.
    rewrite list_elem_of_In, filter_In, <- list_elem_of_In. tauto. }
  split; [done|]. split; [done|]. split; [done|]. split.
  { unfold mask. by rewrite length_duplicated_from, length_row_keys. }
  split; [intros i; apply duplicated_lookup|]. split.
  { unfold count_duplicates. rewrite Hempty, Hkeys. simpl.
    destruct ids as [|i0 ids']; [done|]. rewrite Hdup. simpl.
    apply Nat.ltb_lt in Hlen. by rewrite Hlen. }
  split; [done|]. split; [reflexivity|].
  intros Honly. pose proof (only_code_preferred d Honly) as Havail.
  fold avail in Havail.
  assert (Hsame : ids = [k]).
  { unfold ids, k. rewrite Havail. by destruct (has_column d "code"). }
  split; [done|].
  unfold remove_duplicates, init. cbn [df transformations_applied verbose].
  rewrite Hrk. cbn [mbind result_bind].
  unfold drop_duplicates. rewrite Hempty, <- Hsame, Hdup. simpl.
  eexists. split; [reflexivity|]. simpl.
  rewrite count_if_negb. unfold mask.
  by rewrite length_duplicated_from, length_row_keys.
Qed.

Lemma duplicate_keys_policy_witness :
  ∃ (first : string) (ids : list string) (k : string) (cs : list column)
    (mask : list bool) (n : nat) (pct : Q),
    first_column_name codes_df = Ok first
    ∧ count_duplicates_keys codes_df None = Ok ids
    ∧ (List.filter (has_column codes_df) possible_ids = [] → ids = [first])
    ∧ (List.filter (has_column codes_df) possible_ids ≠ [] →
       ∀ c, c ∈ ids ↔ c ∈ possible_ids ∧ has_column codes_df c = true)
    ∧ remove_duplicates_keys codes_df None = Ok [k]
    ∧ k = (if has_column codes_df "code" then "code"%string else first)
    ∧ mapM_result (get_column codes_df) ids = Ok cs
    ∧ length mask = index_len codes_df
    ∧ (∀ i, mask !! i = Some true
            ↔ repeats_earlier (row_keys cs (index_len codes_df)) i)
    ∧ count_duplicates codes_df None = Ok (n, pct)
    ∧ n = count_if id mask
    ∧ (pct == Q_of_nat n / Q_of_nat (index_len codes_df) * 100)%Q
    ∧ ((∀ c, c ∈ possible_ids → c ≠ "code"%string
             → has_column codes_df c = false) →
       ids = [k]
       ∧ ∃ t, remove_duplicates None (init codes_df true) = Ok t
              ∧ index_len (df t) = (index_len codes_df - n)%nat).
Proof. apply (duplicate_keys_policy codes_df true). reflexivity. Defined.

(** C2, as stated, fails.  On the columns [name, id] duplicate counting keys
    on [id] and finds no duplicate while Deduplicate keys on [name] and
    removes a row; on the columns [code, id] duplicate counting keys on both
    columns, not on the first available one. *)
Lemma duplicate_keys_differ :
  count_duplicates_keys name_id_df None = Ok ["id"%string]
  ∧ remove_duplicates_keys name_id_df None = Ok ["name"%string]
  ∧ fst <$> count_duplicates name_id_df None = Ok O
  ∧ (index_len ∘ df) <$> remove_duplicates None (init name_id_df true) = Ok 1%nat
  ∧ count_duplicates_keys code_id_df None = Ok ["code"; "id"]%string
  ∧ spec_key_columns code_id_df None = Ok ["code"%string]
  ∧ fst <$> count_duplicates code_id_df None = Ok O
  ∧ (index_len ∘ df) <$> remove_duplicates None (init code_id_df true) = Ok 1%nat.
Proof. vm_compute. repeat split. Qed.

(** ** Outlier filtering *)

Lemma lookup_map {A B} (f : A → B) (l : list A) (i : nat) :
  List.map f l !! i = f <$> (l !! i).
Proof. exact (list_lookup_fmap f l i). Qed.

Lemma mask_filter_map {A} (p : A → bool) (l : list A) :
  mask_filter (List.map p l) l = List.filter p l.
Proof.
  induction l as [|x l IH]; simpl; [done|]. rewrite IH. by destruct (p x).
Qed.


Lemma find_column_map (f : column → column) (cs : list column)
    (name : string) :
  (∀ c, col_name (f c) = col_name c) →
  List.find (fun c => String.eqb (col_name c) name) (List.map f cs)
  = f <$> List.find (fun c => String.eqb (col_name c) name) cs.
Proof.
  intros Hf. induction cs as [|c cs IH]; simpl; [done|].
  rewrite Hf. by destruct (String.eqb (col_name c) name).
Qed.

Lemma get_column_filter_rows (m : list bool) (d : DataFrame) (name : string)
    (c : column) :
  get_column d name = Ok c →
  get_column (filter_rows m d) name
  = Ok (mkCol (col_name c) (col_dtype c) (mask_filter m (col_values c))).
Proof.
  unfold get_column, filter_rows. simpl.
  rewrite find_column_map by done.
  destruct (List.find _ (columns d)); [|done]. by intros [= ->].
Qed.

Lemma get_column_has (d : DataFrame) (name : string) (c : column) :
  get_column d name = Ok c → has_column d name = true.
Proof.
  intros [Hin <-]%get_column_Ok. apply bool_decide_eq_true.
  unfold column_names. by apply (list_elem_of_fmap_2 col_name).
Qed.




(** ** Outlier filtering in binary64 *)












Lemma filter_outliers_step_shape (method : string) (threshold : Q)
    (d d' : DataFrame) (col : string) :
  filter_outliers_step method threshold d col = Ok (Some d') →
  ∃ mask, d' = filter_rows mask d.
Proof.
  unfold filter_outliers_step.
  destruct (has_column d col); simpl; [|done].
  destruct (get_column d col) as [c|]; simpl; [|done].
  case_ifs.
  - destruct (iqr_mask threshold (col_values c)) as [m|]; simpl; [|done].
    intros [= <-]. by exists m.
  - destruct (zscore_mask threshold (col_values c)) as [m|]; simpl; [|done].
    intros [= <-]. by exists m.
Qed.






(** ** Address cleaning *)

Lemma ends_clean_snoc (l : pystr) (c : N) :
  ends_clean (l ++ [c]) ↔ isspace c = false.
Proof.
  induction l as [|a l IH]; simpl; [done|].
  destruct (l ++ [c]) eqn:Hl; [by destruct l|done].
Qed.

Lemma ends_clean_tail (c : N) (t : pystr) :
  ends_clean (c :: t) → ends_clean t.
Proof. destruct t; simpl; done. Qed.

Lemma lstrip_snoc (l : pystr) (c : N) :
  isspace c = false → lstrip (l ++ [c]) = lstrip l ++ [c].
Proof.
  intros Hc. induction l as [|a l IH]; simpl; [by rewrite Hc|].
  by destruct (isspace a).
Qed.

Lemma rstrip_cons (c : N) (s : pystr) :
  isspace c = false → rstrip (c :: s) = c :: rstrip s.
Proof.
  intros Hc. unfold rstrip. simpl.
  by rewrite lstrip_snoc, rev_app_distr.
Qed.

Lemma ends_clean_rstrip (s : pystr) : ends_clean (rstrip s).
Proof.
  unfold rstrip. destruct (lstrip (rev s)) as [|c t] eqn:Hl; [done|].
  simpl. apply ends_clean_snoc. by apply lstrip_head in Hl.
Qed.

Lemma strip_shape (s : pystr) :
  ends_clean (strip s)
  ∧ match strip s with
    | c :: _ => isspace c = false
    | [] => True
    end.
Proof.
  unfold strip. split; [apply ends_clean_rstrip|].
  destruct (lstrip s) as [|c t] eqn:Hl; [done|].
  pose proof (lstrip_head _ _ _ Hl) as Hc. by rewrite rstrip_cons.
Qed.

Lemma words_nonempty (s : pystr) :
  s ≠ [] → ends_clean s → words s ≠ [].
Proof.
  induction s as [|c t IH]; [done|]. intros _ Hclean. simpl.
  destruct (isspace c) eqn:Hc.
  - destruct t as [|c' t']; [simpl in Hclean; congruence|].
    apply IH; [done|]. by apply ends_clean_tail in Hclean.
  - destruct t as [|c' t']; [done|]. destruct (isspace c'); [done|].
    by destruct (words (c' :: t')).
Qed.

Lemma join_spaces_cons (w : pystr) (rest : list pystr) :
  rest ≠ [] → join_spaces (w :: rest) = w ++ 32 :: join_spaces rest.
Proof. by destruct rest. Qed.

Lemma join_spaces_cons_head (c : N) (w : pystr) (ws : list pystr) :
  join_spaces ((c :: w) :: ws) = c :: join_spaces (w :: ws).
Proof. by destruct ws. Qed.

(** On a string that ends clean, [re.sub(r'\s+', ' ', s)] joins the words
    of [s] with single spaces, after one space if [s] begins with
    whitespace and none was consumed before. *)
Lemma sub_spaces_words (s : pystr) :
  ends_clean s →
  sub_spaces true s = join_spaces (words s)
  ∧ sub_spaces false s
    = match s with
      | c :: _ => if isspace c then 32 :: join_spaces (words s)
                  else join_spaces (words s)
      | [] => []
      end.
Proof.
  induction s as [|c t IH]; [done|]. intros Hclean.
  pose proof (ends_clean_tail _ _ Hclean) as Ht.
  destruct (IH Ht) as [IHt IHf]. simpl.
  destruct (isspace c) eqn:Hc; [by rewrite IHt|].
  destruct t as [|c' t']; [done|]. rewrite IHf.
  destruct (isspace c') eqn:Hc'.
  - rewrite join_spaces_cons; [done|]. by apply words_nonempty.
  - pose proof (words_nonempty (c' :: t') ltac:(done) Ht) as Hne.
    destruct (words (c' :: t')) as [|w ws] eqn:Hw; [done|].
    by rewrite join_spaces_cons_head.
Qed.

Lemma sub_spaces_strip (s : pystr) :
  sub_spaces false (strip s) = collapse_spaces (strip s).
Proof.
  destruct (strip_shape s) as [Hclean Hhead].
  destruct (sub_spaces_words _ Hclean) as [_ ->]. unfold collapse_spaces.
  destruct (strip s) as [|c t]; [done|]. by rewrite Hhead.
Qed.

Lemma kept_address_char_word `{Platform} (c : N) :
  address_char c = kept_address_char c.
Proof.
  unfold address_char, kept_address_char, spec_address_char, is_word,
    is_letter_or_digit.
  destruct (is_ascii c) eqn:Hc.
  - destruct (is_ascii_alnum c), (c =? 95), (isspace c), (c =? 44),
      (c =? 46), (c =? 45); done.
  - assert ((c =? 95) = false) as ->.
    { apply N.eqb_neq. intros ->. done. }
    by rewrite orb_false_r.
Qed.

Lemma get_column_assign (name : string) (f : column → column)
    (d : DataFrame) (c : column) :
  (∀ c, col_name (f c) = col_name c) →
  get_column d name = Ok c →
  get_column (assign_column name f d) name = Ok (f c).
Proof.
  intros Hf. unfold get_column, assign_column. simpl.
  induction (columns d) as [|c0 cs IH]; simpl; [done|].
  destruct (String.eqb (col_name c0) name) eqn:Hc0.
  - rewrite Hf, Hc0. by intros [= ->].
  - by rewrite Hc0.
Qed.

(** C4, amended.  For a text cell of the named address column, the cleaned
    cell is the text stripped, its internal whitespace runs collapsed to
    single spaces, and every character removed that is not a letter, a
    digit, an underscore, whitespace, a comma, a period or a hyphen; a
    result shorter than [min_length] becomes missing. *)
Theorem clean_address_column_spec `{Platform} (address_col : string)
    (min_length : Z) (t : DataTransformer) (c : column) (i : nat)
    (s : pystr) :
  get_column (df t) address_col = Ok c →
  col_values c !! i = Some (CStr s) →
  ∃ c' : column,
    get_column (df (clean_address_column address_col min_length t))
      address_col = Ok c'
    ∧ col_values c' !! i
      = Some (spec_clean_address kept_address_char min_length s).
Proof.
  intros Hc Hi. unfold clean_address_column. rewrite Hc.
  eexists. split.
  - cbn [df]. apply get_column_assign; [done|].
    apply get_column_assign; [done|exact Hc].
  - cbn [col_values]. rewrite !lookup_map, Hi. cbn [fmap option_fmap option_map].
    f_equal.
    unfold invalidate_short, clean_address_cell, spec_clean_address,
      sub_special.
    cbn [str_of_cell]. rewrite sub_spaces_strip.
    rewrite (filter_ext address_char kept_address_char)
      by (intros; apply kept_address_char_word).
    reflexivity.
Qed.

Lemma clean_address_column_spec_witness :
  ∃ c' : column,
    get_column
      (df (@clean_address_column ascii_platform "stores" 5
             (init address_df true))) "stores" = Ok c'
    ∧ col_values c' !! 1%nat
      = Some (spec_clean_address (@kept_address_char ascii_platform) 5
                (u "  Leclerc   Toulouse  ")).
Proof.
  apply (@clean_address_column_spec ascii_platform "stores" 5
           (init address_df true)
           (text_column "stores"
              ["12 rue_de_Paris"; "  Leclerc   Toulouse  "]%string));
    reflexivity.
Defined.

(** C4, as stated, fails: the underscore is a word character of [\w], so
    "12 rue_de_Paris" is kept as it is, while removing everything but
    letters, digits, whitespace, comma, period and hyphen would give
    "12 ruedeParis". *)
Lemma clean_address_keeps_underscore :
  (∀ P : Platform,
     df (@clean_address_column P "stores" 5 (init address_df true))
     = mkDF 2 [text_column "stores"
                 ["12 rue_de_Paris"; "Leclerc Toulouse"]%string])
  ∧ (∀ P : Platform,
       spec_clean_address (@spec_address_char P) 5 (u "12 rue_de_Paris")
       = CStr (u "12 ruedeParis"))
  ∧ u "12 rue_de_Paris" ≠ u "12 ruedeParis".
Proof.
  split; [|split].
  - intros P. vm_compute. reflexivity.
  - intros P. vm_compute. reflexivity.
  - vm_compute. discriminate.
Qed.

(** ** Text normalisation and missing cells *)

Lemma find_column_assign_other (name col : string) (f : column → column)
    (cs : list column) :
  (∀ c, col_name (f c) = col_name c) → col ≠ name →
  List.find (fun c => String.eqb (col_name c) name)
    (List.map (fun c => if String.eqb (col_name c) col then f c else c) cs)
  = List.find (fun c => String.eqb (col_name c) name) cs.
Proof.
  intros Hf Hne. induction cs as [|c cs IH]; simpl; [done|].
  destruct (String.eqb (col_name c) col) eqn:Hc.
  - apply String.eqb_eq in Hc. rewrite Hf.
    assert (String.eqb (col_name c) name = false) as ->; [|done].
    apply String.eqb_neq. congruence.
  - by rewrite IH.
Qed.

Lemma get_column_normalize_step_other `{Platform} (d : DataFrame)
    (col name : string) :
  col ≠ name →
  get_column (normalize_step d col) name = get_column d name.
Proof.
  intros Hne. unfold normalize_step. destruct (has_column d col); [|done].
  unfold get_column, assign_column. simpl.
  by rewrite find_column_assign_other.
Qed.

Lemma get_column_normalize_step_same `{Platform} (d : DataFrame)
    (name : string) (c : column) :
  get_column d name = Ok c →
  get_column (normalize_step d name) name = Ok (normalize_column c).
Proof.
  intros Hc. unfold normalize_step. rewrite (get_column_has _ _ _ Hc).
  by apply get_column_assign.
Qed.

Lemma count_isna_normalized `{Platform} (vs : list cell) :
  count_if isna (List.map normalize_cell vs) = O.
Proof. unfold count_if. induction vs as [|x vs IH]; simpl; done. Qed.

Lemma unmissed_first `{Platform} (c0 : column) :
  unmissed c0 (normalize_column c0).
Proof.
  unfold unmissed, normalize_column. cbn [col_values].
  split; [by rewrite length_map|]. split; [|split].
  - intros i Hi. by rewrite lookup_map, Hi.
  - intros i Hi. by rewrite lookup_map, Hi.
  - apply count_isna_normalized.
Qed.

Lemma unmissed_again `{Platform} (c0 c : column) :
  unmissed c0 c → unmissed c0 (normalize_column c).
Proof.
  intros (Hlen & Hnan & Hnone & _). unfold unmissed, normalize_column.
  cbn [col_values]. split; [by rewrite length_map|]. split; [|split].
  - intros i Hi. by rewrite lookup_map, (Hnan i Hi).
  - intros i Hi. by rewrite lookup_map, (Hnone i Hi).
  - apply count_isna_normalized.
Qed.

Lemma normalize_fold_unmissed `{Platform} (name : string) (c0 : column)
    (cols : list string) :
  ∀ (d : DataFrame) (c : column),
    get_column d name = Ok c →
    unmissed c0 c ∨ (c = c0 ∧ name ∈ cols) →
    ∃ c', get_column (fold_left normalize_step cols d) name = Ok c'
          ∧ unmissed c0 c'.
Proof.
  induction cols as [|col cols IH]; intros d c Hc Hinv; simpl.
  - destruct Hinv as [?|[_ Hin]]; [by exists c|].
    by apply elem_of_nil in Hin.
  - destruct (decide (col = name)) as [->|Hne].
    + apply (IH _ _ (get_column_normalize_step_same d name c Hc)).
      left. destruct Hinv as [?|[-> _]];
        [by apply unmissed_again|apply unmissed_first].
    + apply (IH _ c).
      * by rewrite get_column_normalize_step_other.
      * destruct Hinv as [?|[-> Hin]]; [by left|]. right. split; [done|].
        apply elem_of_cons in Hin as [?|?]; [congruence|done].
Qed.

(** C5, amended.  In every column that Normalize text columns processes, a
    missing cell becomes a text cell: "nan" where the cell held NaN, "none"
    where it held None (the cell is cast to text, then lowered); the column
    has no missing cell afterwards. *)
Theorem normalize_missing_cells `{Platform} (cols : option (list string))
    (t : DataTransformer) (name : string) (c : column) :
  get_column (df t) name = Ok c →
  name ∈ default (object_column_names (df t)) cols →
  ∃ c' : column,
    get_column (df (normalize_text_columns cols t)) name = Ok c'
    ∧ length (col_values c') = length (col_values c)
    ∧ (∀ i, col_values c !! i = Some CNaN →
            col_values c' !! i = Some (CStr (u "nan")))
    ∧ (∀ i, col_values c !! i = Some CNone →
            col_values c' !! i = Some (CStr (u "none")))
    ∧ count_if isna (col_values c') = O.
Proof.
  intros Hc Hin. unfold normalize_text_columns. cbn [df].
  apply (normalize_fold_unmissed name c _ (df t) c Hc). by right.
Qed.

Lemma normalize_missing_cells_witness :
  ∃ c' : column,
    get_column
      (df (@normalize_text_columns ascii_platform None (init names_df true)))
      "product_name" = Ok c'
    ∧ length (col_values c') = 3%nat
    ∧ (∀ i, [CStr (u "  Chocolat Noir  "); CNone; CNaN] !! i = Some CNaN →
            col_values c' !! i = Some (CStr (u "nan")))
    ∧ (∀ i, [CStr (u "  Chocolat Noir  "); CNone; CNaN] !! i = Some CNone →
            col_values c' !! i = Some (CStr (u "none")))
    ∧ count_if isna (col_values c') = O.
Proof.
  apply (@normalize_missing_cells ascii_platform None (init names_df true)
           "product_name"
           (mkCol "product_name" Object
              [CStr (u "  Chocolat Noir  "); CNone; CNaN])).
  - reflexivity.
  - vm_compute. left.
Defined.

(** C5, as stated, fails for a cell that holds None: its text is "None",
    which normalises to "none", not to "nan". *)
Lemma normalize_none_cell :
  (∀ P : Platform,
     df (@normalize_text_columns P (Some ["product_name"%string])
           (init names_df true))
     = mkDF 3 [text_column "product_name" ["chocolat noir"; "none"; "nan"]%string])
  ∧ CStr (u "none") ≠ CStr (u "nan").
Proof.
  split.
  - intros P. vm_compute. reflexivity.
  - vm_compute. discriminate.
Qed.

(** ** The round trip Deduplicate, Impute, Normalize *)

(** *** Row filtering and the frame invariant *)

Lemma length_mask_filter {A} (m : list bool) (l : list A) :
  length l = length m → length (mask_filter m l) = count_if id m.
Proof.
  unfold count_if. revert l. induction m as [|b m IH]; intros [|x l]; simpl;
    try done.
  intros [= Hlen]. destruct b; simpl; by rewrite IH.
Qed.

Lemma mask_filter_keep_all {A} (m : list bool) (l : list A) :
  length l = length m → count_if id m = O →
  mask_filter (List.map negb m) l = l.
Proof.
  unfold count_if. revert l. induction m as [|b m IH]; intros [|x l]; simpl;
    try done.
  intros [= Hlen]. destruct b; simpl; [done|]. intros ?. by rewrite IH.
Qed.

Lemma wf_filter_rows (m : list bool) (d : DataFrame) :
  wf_frame d → length m = index_len d → wf_frame (filter_rows m d).
Proof.
  intros [Hnd Hlen] Hm. split.
  - unfold column_names, filter_rows. simpl. by rewrite map_map.
  - unfold filter_rows. simpl. apply Forall_forall. intros c Hc.
    apply list_elem_of_In, in_map_iff in Hc as (c0 & <- & Hc0). simpl.
    rewrite Forall_forall in Hlen. apply length_mask_filter.
    rewrite Hm. apply Hlen. by apply list_elem_of_In.
Qed.

Lemma filter_rows_keep_all (m : list bool) (d : DataFrame) :
  wf_frame d → length m = index_len d → count_if id m = O →
  filter_rows (List.map negb m) d = d.
Proof.
  intros [_ Hlen] Hm Hnone. unfold filter_rows. destruct d as [n cs].
  simpl in *. f_equal.
  - rewrite count_if_negb. lia.
  - induction Hlen as [|c cs Hc _ IH]; simpl; [done|].
    rewrite IH. f_equal. destruct c as [name ty vs]. simpl in *.
    by rewrite mask_filter_keep_all by lia.
Qed.

Lemma length_duplicated (d : DataFrame) (keys : list string)
    (mask : list bool) :
  df_empty d = false → duplicated d keys = Ok mask →
  length mask = index_len d.
Proof.
  unfold duplicated. intros ->.
  destruct (mapM_result (get_column d) keys) as [[|c cs]|]; simpl; try done.
  intros [= <-]. by rewrite length_duplicated_from, length_row_keys.
Qed.

Lemma drop_duplicates_shape (d d' : DataFrame) (keys : list string) :
  wf_frame d → drop_duplicates d keys = Ok d' →
  wf_frame d' ∧ column_names d' = column_names d.
Proof.
  intros Hwf. unfold drop_duplicates.
  destruct (df_empty d) eqn:Hempty; [by intros [= <-]|].
  destruct (duplicated d keys) as [mask|] eqn:Hdup; simpl; [|done].
  intros [= <-]. pose proof (length_duplicated _ _ _ Hempty Hdup) as Hlen.
  split.
  - apply wf_filter_rows; [done|]. by rewrite length_map.
  - unfold column_names, filter_rows. simpl. by rewrite map_map.
Qed.

(** *** Imputation *)

Lemma for_columns_fst (body : column → column * list log_entry)
    (cs : list column) :
  fst (for_columns body cs) = List.map (fun c => fst (body c)) cs.
Proof.
  induction cs as [|c cs IH]; simpl; [done|].
  destruct (body c) as [c' l1]. destruct (for_columns body cs) as [cs' l2].
  simpl in *. by rewrite IH.
Qed.

Lemma for_columns_snd (P : log_entry → Prop)
    (body : column → column * list log_entry) (cs : list column) :
  (∀ c, Forall P (snd (body c))) → Forall P (snd (for_columns body cs)).
Proof.
  intros Hbody. induction cs as [|c cs IH]; simpl; [done|].
  specialize (Hbody c).
  destruct (body c) as [c' l1]. destruct (for_columns body cs) as [cs' l2].
  simpl in *. by apply Forall_app.
Qed.

Lemma handle_missing_values_df (numeric_strategy : option string)
    (text_strategy : pystr) (t : DataTransformer) :
  df (handle_missing_values numeric_strategy text_strategy t)
  = mkDF (index_len (df t))
         (List.map (impute_column numeric_strategy text_strategy)
                   (columns (df t))).
Proof.
  unfold handle_missing_values.
  pose proof (for_columns_fst (fill_numeric_column numeric_strategy)
                (columns (df t))) as H1.
  destruct (for_columns (fill_numeric_column numeric_strategy)
              (columns (df t))) as [cs1 log1].
  pose proof (for_columns_fst (fill_text_column text_strategy) cs1) as H2.
  destruct (for_columns (fill_text_column text_strategy) cs1) as [cs2 log2].
  simpl in *. subst. by rewrite map_map.
Qed.

Lemma handle_missing_values_log (numeric_strategy : option string)
    (text_strategy : pystr) (t : DataTransformer) :
  ∃ entries,
    transformations_applied
      (handle_missing_values numeric_strategy text_strategy t)
    = transformations_applied t ++ entries
    ∧ Forall (fun e => is_duplicates_entry e = false
                       ∧ is_normalize_entry e = false) entries.
Proof.
  unfold handle_missing_values.
  pose proof (for_columns_snd
                (fun e => is_duplicates_entry e = false
                          ∧ is_normalize_entry e = false)
                (fill_numeric_column numeric_strategy)
                (columns (df t))) as H1.
  destruct (for_columns (fill_numeric_column numeric_strategy)
              (columns (df t))) as [cs1 log1].
  pose proof (for_columns_snd
                (fun e => is_duplicates_entry e = false
                          ∧ is_normalize_entry e = false)
                (fill_text_column text_strategy) cs1) as H2.
  destruct (for_columns (fill_text_column text_strategy) cs1) as [cs2 log2].
  simpl in *. exists (log1 ++ log2). split; [done|]. apply Forall_app. split.
  - apply H1. intros c. unfold fill_numeric_column.
    case_tests.
    by repeat constructor.
  - apply H2. intros c. unfold fill_text_column.
    case_ifs.
    by repeat constructor.
Qed.

Lemma fillna_count (v : cell) (vs : list cell) :
  isna v = false → count_if isna (fillna v vs) = O.
Proof.
  intros Hv. unfold count_if, fillna. induction vs as [|x vs IH]; simpl;
    [done|].
  destruct (isna x) eqn:Hx; simpl; [by rewrite Hv|by rewrite Hx].
Qed.

Lemma fillna_idem (v : cell) (vs : list cell) :
  fillna v (fillna v vs) = fillna v vs.
Proof.
  unfold fillna. rewrite map_map. apply map_ext. intros x.
  destruct (isna x) eqn:Hx; [by destruct (isna v)|by rewrite Hx].
Qed.

Lemma present_fillna_NaN (vs : list cell) :
  present (fillna CNaN vs) = present vs.
Proof.
  unfold present, fillna. induction vs as [|x vs IH]; simpl; [done|].
  destruct x; simpl; first [exact IH|f_equal; exact IH].
Qed.

Lemma count_isna_fillna_NaN (vs : list cell) :
  count_if isna (fillna CNaN vs) = count_if isna vs.
Proof.
  unfold count_if, fillna. induction vs as [|x vs IH]; simpl; [done|].
  destruct x; simpl; by rewrite ?IH.
Qed.

Lemma numeric_fill_value_missing (numeric_strategy : option string)
    (vs : list cell) (v : cell) :
  numeric_fill_value numeric_strategy vs = Some v → isna v = true → v = CNaN.
Proof.
  unfold numeric_fill_value. destruct numeric_strategy as [s|]; [|done].
  repeat (match goal with
          | |- context [if ?b then _ else _] => destruct b
          end; try done);
    unfold cell_of_stat;
    repeat (match goal with
            | |- context [match ?o with Some _ => _ | None => _ end] =>
                destruct o
            end; try done);
    by intros [= <-].
Qed.

Lemma fill_numeric_column_idem (numeric_strategy : option string)
    (c : column) :
  fst (fill_numeric_column numeric_strategy
         (fst (fill_numeric_column numeric_strategy c)))
  = fst (fill_numeric_column numeric_strategy c).
Proof.
  unfold fill_numeric_column at 2.
  destruct (is_number_dtype (col_dtype c)) eqn:Hty; simpl;
    [|unfold fill_numeric_column; by rewrite Hty].
  destruct (0 <? count_if isna (col_values c))%nat eqn:Hcount; simpl;
    [|unfold fill_numeric_column; by rewrite Hty, Hcount].
  destruct (numeric_fill_value numeric_strategy (col_values c)) as [v|] eqn:Hv;
    simpl; [|unfold fill_numeric_column; by rewrite Hty, Hcount, Hv].
  unfold fill_numeric_column. cbn [col_dtype col_values col_name].
  rewrite Hty, Hcount, Hv. cbn [fst].
  destruct (isna v) eqn:Hna.
  - pose proof (numeric_fill_value_missing _ _ _ Hv Hna) as ->.
    rewrite count_isna_fillna_NaN, Hcount.
    assert (numeric_fill_value numeric_strategy (fillna CNaN (col_values c))
            = Some CNaN) as ->.
    { revert Hv. unfold numeric_fill_value.
      by rewrite present_fillna_NaN. }
    cbn [fst]. by rewrite fillna_idem.
  - by rewrite fillna_count.
Qed.

Lemma fill_numeric_column_shape (numeric_strategy : option string)
    (c : column) :
  col_name (fst (fill_numeric_column numeric_strategy c)) = col_name c
  ∧ col_dtype (fst (fill_numeric_column numeric_strategy c)) = col_dtype c
  ∧ length (col_values (fst (fill_numeric_column numeric_strategy c)))
    = length (col_values c).
Proof.
  unfold fill_numeric_column, fillna.
  case_tests.
  by rewrite length_map.
Qed.

Lemma fill_text_column_shape (text_strategy : pystr) (c : column) :
  col_name (fst (fill_text_column text_strategy c)) = col_name c
  ∧ col_dtype (fst (fill_text_column text_strategy c)) = col_dtype c
  ∧ length (col_values (fst (fill_text_column text_strategy c)))
    = length (col_values c).
Proof.
  unfold fill_text_column, fillna.
  case_ifs.
  by rewrite length_map.
Qed.

Lemma impute_column_shape (numeric_strategy : option string)
    (text_strategy : pystr) (c : column) :
  col_name (impute_column numeric_strategy text_strategy c) = col_name c
  ∧ col_dtype (impute_column numeric_strategy text_strategy c) = col_dtype c
  ∧ length (col_values (impute_column numeric_strategy text_strategy c))
    = length (col_values c).
Proof.
  unfold impute_column.
  destruct (fill_text_column_shape text_strategy
              (fst (fill_numeric_column numeric_strategy c)))
    as (-> & -> & ->).
  apply fill_numeric_column_shape.
Qed.

Lemma fill_numeric_other (numeric_strategy : option string) (c : column) :
  is_number_dtype (col_dtype c) = false →
  fill_numeric_column numeric_strategy c = (c, []).
Proof. unfold fill_numeric_column. by intros ->. Qed.

Lemma fill_text_other (text_strategy : pystr) (c : column) :
  is_object_dtype (col_dtype c) = false →
  fill_text_column text_strategy c = (c, []).
Proof. unfold fill_text_column. by intros ->. Qed.

(** *** Normalisation *)

Lemma nfkd_ascii_id `{Platform} (s : pystr) :
  forallb is_ascii s = true → nfkd_ascii s = s.
Proof.
  unfold nfkd_ascii. induction s as [|c s IH]; simpl; [done|].
  intros [Hc Hs]%andb_true_iff. rewrite Hc. simpl. rewrite Hc.
  by rewrite IH.
Qed.

Lemma lower_char_ascii (c : N) :
  is_ascii c = true → is_ascii (lower_char c) = true.
Proof.
  unfold lower_char, is_ascii.
  destruct ((65 <=? c) && (c <=? 90)) eqn:Hup; [|done].
  apply andb_true_iff in Hup as [_ Hle%N.leb_le]. intros _.
  apply N.ltb_lt. lia.
Qed.

Lemma lower_char_idem (c : N) : lower_char (lower_char c) = lower_char c.
Proof.
  unfold lower_char.
  destruct ((65 <=? c) && (c <=? 90)) eqn:Hup; [|by rewrite Hup].
  apply andb_true_iff in Hup as [Hge%N.leb_le _].
  assert ((c + 32 <=? 90) = false) as ->; [apply N.leb_gt; lia|].
  by rewrite andb_false_r.
Qed.

Lemma plain_text_normalized `{Platform} (s : pystr) :
  plain_text (lower (nfkd_ascii s)).
Proof.
  unfold plain_text, lower, nfkd_ascii. split.
  - apply forallb_forall. intros x Hx.
    apply in_map_iff in Hx as (y & <- & Hy). apply lower_char_ascii.
    by apply filter_In in Hy as [_ ?].
  - rewrite map_map. apply map_ext. intros. apply lower_char_idem.
Qed.

Lemma normalize_cell_fixed `{Platform} (s : pystr) :
  plain_text s → strip s = s → normalize_cell (CStr s) = CStr s.
Proof.
  intros [Hascii Hlower] Hstrip. unfold normalize_cell. simpl.
  by rewrite Hstrip, nfkd_ascii_id, Hlower.
Qed.

Lemma map_assign_other (name : string) (f : column → column)
    (l : list column) :
  name ∉ List.map col_name l →
  List.map (fun x => if String.eqb (col_name x) name then f x else x) l = l.
Proof.
  induction l as [|x l IH]; simpl; [done|].
  intros Hnot. rewrite not_elem_of_cons in Hnot. destruct Hnot as [Hx Hl].
  assert (String.eqb (col_name x) name = false) as ->.
  { apply String.eqb_neq. congruence. }
  by rewrite IH.
Qed.

Lemma NoDup_names_middle (pre post : list column) (c : column) :
  NoDup (List.map col_name (pre ++ c :: post)) →
  (col_name c ∉ List.map col_name pre)
  ∧ (col_name c ∉ List.map col_name post).
Proof.
  rewrite map_app. simpl. intros Hnd.
  apply NoDup_app in Hnd as (_ & Hpre & Hpost).
  apply NoDup_cons in Hpost as [Hpost _]. split; [|done].
  intros Hin. apply (Hpre _ Hin). left.
Qed.

Lemma assign_column_middle (f : column → column) (n : nat)
    (pre post : list column) (c : column) :
  NoDup (List.map col_name (pre ++ c :: post)) →
  assign_column (col_name c) f (mkDF n (pre ++ c :: post))
  = mkDF n (pre ++ f c :: post).
Proof.
  intros [Hpre Hpost]%NoDup_names_middle. unfold assign_column. simpl.
  rewrite map_app. simpl. rewrite String.eqb_refl.
  by rewrite !map_assign_other.
Qed.

Lemma has_column_middle (n : nat) (pre post : list column) (c : column) :
  has_column (mkDF n (pre ++ c :: post)) (col_name c) = true.
Proof.
  apply bool_decide_eq_true. unfold column_names. simpl.
  rewrite map_app. apply elem_of_app. right. left.
Qed.

Lemma normalize_fold_columns `{Platform} (n : nat) (post : list column) :
  ∀ pre : list column,
    NoDup (List.map col_name (pre ++ post)) →
    fold_left normalize_step
      (List.map col_name
         (List.filter (fun c => is_object_dtype (col_dtype c)) post))
      (mkDF n (pre ++ post))
    = mkDF n (pre ++ List.map normalize_if_text post).
Proof.
  induction post as [|c post IH]; intros pre Hnd; simpl; [done|].
  unfold normalize_if_text at 1.
  destruct (is_object_dtype (col_dtype c)) eqn:Hty; simpl.
  - unfold normalize_step at 2. rewrite has_column_middle.
    rewrite assign_column_middle by done.
    rewrite (cons_middle (normalize_column c)), app_assoc.
    rewrite IH; [by rewrite <- app_assoc|].
    rewrite <- app_assoc. simpl.
    revert Hnd. by rewrite !map_app.
  - rewrite (cons_middle c), app_assoc. rewrite IH; [by rewrite <- app_assoc|].
    by rewrite <- app_assoc.
Qed.

Lemma normalize_text_columns_default `{Platform} (t : DataTransformer) :
  NoDup (column_names (df t)) →
  normalize_text_columns None t
  = mkT (mkDF (index_len (df t))
              (List.map normalize_if_text (columns (df t))))
        (transformations_applied t
         ++ [LogNormalize (length (object_column_names (df t)))])
        (verbose t).
Proof.
  intros Hnd. unfold normalize_text_columns. simpl. f_equal.
  unfold object_column_names. destruct (df t) as [n cs]. simpl.
  apply (normalize_fold_columns n cs []). exact Hnd.
Qed.

Lemma normalize_if_text_shape `{Platform} (c : column) :
  col_name (normalize_if_text c) = col_name c
  ∧ is_object_dtype (col_dtype (normalize_if_text c))
    = is_object_dtype (col_dtype c)
  ∧ length (col_values (normalize_if_text c)) = length (col_values c).
Proof.
  unfold normalize_if_text, normalize_column.
  destruct (is_object_dtype (col_dtype c)) eqn:Hty; simpl; [|done].
  by rewrite length_map.
Qed.

(** *** One pass, column by column *)

Lemma settled_after_pass `{Platform} (numeric_strategy : option string)
    (text_strategy : pystr) (c : column) :
  settled numeric_strategy
    (normalize_if_text (impute_column numeric_strategy text_strategy c)).
Proof.
  destruct (impute_column_shape numeric_strategy text_strategy c)
    as (_ & Hty & _).
  unfold normalize_if_text, settled. rewrite Hty.
  destruct (col_dtype c) eqn:Hc; simpl; rewrite ?Hty; try done.
  - unfold impute_column. rewrite fill_text_other.
    + apply fill_numeric_column_idem.
    + destruct (fill_numeric_column_shape numeric_strategy c) as (_ & -> & _).
      by rewrite Hc.
  - unfold impute_column. rewrite fill_text_other.
    + apply fill_numeric_column_idem.
    + destruct (fill_numeric_column_shape numeric_strategy c) as (_ & -> & _).
      by rewrite Hc.
  - apply Forall_forall. intros x Hx.
    apply list_elem_of_In, in_map_iff in Hx as (y & <- & _).
    eexists. split; [reflexivity|]. apply plain_text_normalized.
Qed.

Lemma count_isna_text (vs : list cell) :
  Forall (fun x => ∃ s, x = CStr s ∧ plain_text s) vs →
  count_if isna vs = O.
Proof.
  unfold count_if. induction 1 as [|x vs (s & -> & _) _ IH]; simpl; done.
Qed.

Lemma settled_fixed `{Platform} (numeric_strategy : option string)
    (text_strategy : pystr) (c : column) :
  settled numeric_strategy c →
  (col_dtype c = Object →
   Forall (fun x => match x with
                    | CStr s => strip s = s
                    | _ => True
                    end) (col_values c)) →
  normalize_if_text (impute_column numeric_strategy text_strategy c) = c.
Proof.
  unfold settled, normalize_if_text, impute_column.
  destruct c as [name ty vs]. simpl. intros Hset Hstrip.
  destruct ty; cbn [is_object_dtype col_dtype] in *.
  - rewrite Hset. by rewrite fill_text_other.
  - rewrite Hset. by rewrite fill_text_other.
  - by rewrite fill_numeric_other, fill_text_other.
  - rewrite fill_numeric_other by done. unfold fill_text_column.
    cbn [fst col_dtype col_values is_object_dtype].
    rewrite (count_isna_text _ Hset). cbn [Nat.ltb Nat.leb fst col_dtype
      is_object_dtype].
    unfold normalize_column. simpl. f_equal.
    specialize (Hstrip eq_refl).
    induction Hset as [|x vs (s & -> & Hplain) _ IH]; simpl; [done|].
    apply Forall_cons in Hstrip as [Hs Hvs].
    rewrite IH by done. by rewrite normalize_cell_fixed.
Qed.

Lemma remove_duplicates_inv (subset : option (list string))
    (t t1 : DataTransformer) :
  remove_duplicates subset t = Ok t1 →
  ∃ keys,
    remove_duplicates_keys (df t) subset = Ok keys
    ∧ drop_duplicates (df t) keys = Ok (df t1)
    ∧ verbose t1 = verbose t
    ∧ transformations_applied t1
      = (if (0 <? index_len (df t) - index_len (df t1))%nat
         then transformations_applied t
              ++ [LogDuplicates (index_len (df t) - index_len (df t1))]
         else transformations_applied t).
Proof.
  unfold remove_duplicates.
  destruct (remove_duplicates_keys (df t) subset) as [keys|]; simpl; [|done].
  destruct (drop_duplicates (df t) keys) as [d'|] eqn:Hdrop; simpl; [|done].
  intros [= <-]. exists keys. simpl. by repeat split.
Qed.

Lemma remove_duplicates_keys_names (d d' : DataFrame) :
  column_names d' = column_names d →
  remove_duplicates_keys d' None = remove_duplicates_keys d None.
Proof.
  intros Hnames. unfold remove_duplicates_keys, has_column, first_column_name.
  rewrite Hnames. destruct (bool_decide _); [done|].
  unfold column_names in Hnames.
  destruct (columns d) as [|c cs], (columns d') as [|c' cs']; try done.
  simpl in Hnames. by injection Hnames as -> _.
Qed.

Lemma remove_duplicates_keys_column (d : DataFrame) (keys : list string) :
  remove_duplicates_keys d None = Ok keys →
  ∃ k, keys = [k] ∧ has_column d k = true.
Proof.
  unfold remove_duplicates_keys.
  destruct (has_column d "code") eqn:Hcode.
  - intros [= <-]. by eexists.
  - destruct (first_column_name d) as [c|] eqn:Hfirst; simpl; [|done].
    intros [= <-]. exists c. split; [done|]. by apply first_column_has.
Qed.

Lemma drop_duplicates_total (d : DataFrame) (k : string) :
  has_column d k = true → ∃ d', drop_duplicates d [k] = Ok d'.
Proof.
  intros Hk. unfold drop_duplicates, duplicated.
  destruct (df_empty d); [by eexists|]. simpl.
  destruct (has_column_true _ _ Hk) as [c ->]. simpl. by eexists.
Qed.

Lemma drop_duplicates_none (d : DataFrame) (keys : list string)
    (d' : DataFrame) :
  wf_frame d →
  (∀ mask, duplicated d keys = Ok mask → count_if id mask = O) →
  drop_duplicates d keys = Ok d' → d' = d.
Proof.
  intros Hwf Hnone. unfold drop_duplicates.
  destruct (df_empty d) eqn:Hempty; [by intros [= <-]|].
  destruct (duplicated d keys) as [mask|] eqn:Hdup; simpl; [|done].
  intros [= <-]. apply filter_rows_keep_all; [done| |by apply Hnone].
  by apply length_duplicated with keys.
Qed.

Lemma pass_frame `{Platform} (numeric_strategy : option string)
    (text_strategy : pystr) (t : DataTransformer) :
  NoDup (column_names (df t)) →
  df (normalize_text_columns None
        (handle_missing_values numeric_strategy text_strategy t))
  = mkDF (index_len (df t))
         (List.map
            (fun c => normalize_if_text
                        (impute_column numeric_strategy text_strategy c))
            (columns (df t))).
Proof.
  intros Hnd. rewrite normalize_text_columns_default.
  - simpl. rewrite handle_missing_values_df. simpl. by rewrite map_map.
  - rewrite handle_missing_values_df. unfold column_names. simpl.
    rewrite map_map.
    erewrite map_ext; [exact Hnd|]. intros c. simpl.
    by destruct (impute_column_shape numeric_strategy text_strategy c)
      as (-> & _).
Qed.

Lemma pass_log `{Platform} (numeric_strategy : option string)
    (text_strategy : pystr) (t : DataTransformer) :
  ∃ entries n,
    transformations_applied
      (normalize_text_columns None
         (handle_missing_values numeric_strategy text_strategy t))
    = transformations_applied t ++ entries ++ [LogNormalize n]
    ∧ Forall (fun e => is_duplicates_entry e = false
                       ∧ is_normalize_entry e = false) entries.
Proof.
  destruct (handle_missing_values_log numeric_strategy text_strategy t)
    as (entries & Hlog & Hentries).
  exists entries. eexists. split; [|done].
  unfold normalize_text_columns. cbn [transformations_applied].
  rewrite Hlog. by rewrite <- app_assoc.
Qed.

Lemma pass_frame_shape `{Platform} (numeric_strategy : option string)
    (text_strategy : pystr) (d : DataFrame) :
  wf_frame d →
  let d1 :=
    mkDF (index_len d)
         (List.map
            (fun c => normalize_if_text
                        (impute_column numeric_strategy text_strategy c))
            (columns d)) in
  wf_frame d1
  ∧ column_names d1 = column_names d
  ∧ Forall (settled numeric_strategy) (columns d1).
Proof.
  intros [Hnd Hlen] d1.
  assert (Hnames : column_names d1 = column_names d).
  { unfold column_names, d1. simpl. rewrite map_map. apply map_ext.
    intros c. destruct (normalize_if_text_shape
                          (impute_column numeric_strategy text_strategy c))
      as (-> & _).
    by destruct (impute_column_shape numeric_strategy text_strategy c)
      as (-> & _). }
  split; [split|split; [done|]].
  - by rewrite Hnames.
  - unfold d1. simpl. apply Forall_forall. intros c Hc.
    apply list_elem_of_In, in_map_iff in Hc as (c0 & <- & Hc0).
    destruct (normalize_if_text_shape
                (impute_column numeric_strategy text_strategy c0))
      as (_ & _ & ->).
    destruct (impute_column_shape numeric_strategy text_strategy c0)
      as (_ & _ & ->).
    rewrite Forall_forall in Hlen. apply Hlen. by apply list_elem_of_In.
  - unfold d1. simpl. apply Forall_forall. intros c Hc.
    apply list_elem_of_In, in_map_iff in Hc as (c0 & <- & Hc0).
    apply settled_after_pass.
Qed.

Lemma map_fixed {A} (f : A → A) (l : list A) :
  Forall (fun x => f x = x) l → List.map f l = l.
Proof. induction 1 as [|x l Hx _ IH]; simpl; [done|]. by rewrite Hx, IH. Qed.

(** C3, amended.  After one pass Deduplicate, Impute, Normalize over a
    well-formed container, a second pass over the returned container does
    not fail, and Normalize appends its log entry once more.  If the
    returned container has no two rows with the same key and none of its
    text cells begins or ends with whitespace, the second pass returns the
    same data and Deduplicate appends no entry. *)
Theorem clean_pipeline_second_pass `{Platform}
    (numeric_strategy : option string) (text_strategy : pystr)
    (d d1 : DataFrame) (log1 : list log_entry) :
  wf_frame d →
  clean_pipeline numeric_strategy text_strategy d = Ok (d1, log1) →
  ∃ (d2 : DataFrame) (log2 : list log_entry),
    clean_pipeline numeric_strategy text_strategy d1 = Ok (d2, log2)
    ∧ (∃ n, LogNormalize n ∈ log2)
    ∧ (no_duplicate_rows d1 → stripped_text d1 →
       d2 = d1 ∧ ∀ n, LogDuplicates n ∉ log2).
Proof.
  intros Hwf Hpass. unfold clean_pipeline in Hpass.
  destruct (remove_duplicates None (init d true)) as [t1|] eqn:Hrd;
    cbn [mbind result_bind] in Hpass; [|done].
  assert (Hd1 : get_result
                  (normalize_text_columns None
                     (handle_missing_values numeric_strategy text_strategy
                        t1)) = d1) by congruence.
  clear Hpass.
  destruct (remove_duplicates_inv _ _ _ Hrd) as (keys & Hkeys & Hdrop & _).
  unfold init in Hkeys, Hdrop. cbn [df] in Hkeys, Hdrop.
  destruct (drop_duplicates_shape _ _ _ Hwf Hdrop) as [Hwf1 Hnames1].
  unfold get_result in Hd1.
  rewrite (pass_frame _ _ _ (proj1 Hwf1)) in Hd1.
  destruct (pass_frame_shape numeric_strategy text_strategy (df t1) Hwf1)
    as (Hwfd1 & Hnamesd1 & Hsettled).
  rewrite Hd1 in Hwfd1, Hnamesd1, Hsettled. clear Hd1.
  assert (Hnames : column_names d1 = column_names d) by congruence.
  assert (Hkeys1 : remove_duplicates_keys d1 None = Ok keys).
  { by rewrite (remove_duplicates_keys_names d d1 Hnames). }
  destruct (remove_duplicates_keys_column _ _ Hkeys1) as (k & -> & Hk).
  destruct (drop_duplicates_total d1 k Hk) as [dA Hdrop1].
  destruct (drop_duplicates_shape _ _ _ Hwfd1 Hdrop1) as [HwfA HnamesA].
  set (tA := mkT dA
               (if (0 <? index_len d1 - index_len dA)%nat
                then [LogDuplicates (index_len d1 - index_len dA)]
                else []) true).
  assert (Hrd1 : remove_duplicates None (init d1 true) = Ok tA).
  { unfold remove_duplicates, init. cbn [df transformations_applied verbose].
    rewrite Hkeys1. cbn [mbind result_bind]. rewrite Hdrop1. simpl.
    unfold tA. by destruct (0 <? index_len d1 - index_len dA)%nat. }
  destruct (pass_log numeric_strategy text_strategy tA)
    as (entries & n & Hlog & Hentries).
  eexists. eexists. split; [|split].
  - unfold clean_pipeline. rewrite Hrd1. reflexivity.
  - exists n. rewrite Hlog. rewrite !elem_of_app. right. right. left.
  - intros Hnodup Hstripped.
    assert (HdA : dA = d1).
    { apply (drop_duplicates_none d1 [k]); [done| |done].
      intros mask Hmask. by apply (Hnodup [k]). }
    split.
    + unfold get_result.
      rewrite (pass_frame numeric_strategy text_strategy tA (proj1 HwfA)).
      unfold tA. cbn [df]. rewrite HdA. destruct d1 as [n1 cs1].
      simpl in *. f_equal. apply map_fixed.
      unfold stripped_text in Hstripped. simpl in Hstripped.
      rewrite Forall_forall in Hsettled, Hstripped |- *.
      intros c Hc. apply settled_fixed; auto.
    + intros m. rewrite Hlog. unfold tA. cbn [transformations_applied].
      rewrite HdA, Nat.sub_diag. simpl.
      rewrite elem_of_app. intros [Hin|Hin].
      * rewrite Forall_forall in Hentries.
        destruct (Hentries _ Hin) as [Hfalse _]. done.
      * apply list_elem_of_singleton in Hin. done.
Qed.

Lemma clean_pipeline_second_pass_witness :
  ∃ (d2 : DataFrame) (log2 : list log_entry),
    @clean_pipeline ascii_platform (Some "median"%string) (u "unknown")
      tidy_out = Ok (d2, log2)
    ∧ (∃ n, LogNormalize n ∈ log2)
    ∧ (no_duplicate_rows tidy_out → stripped_text tidy_out →
       d2 = tidy_out ∧ ∀ n, LogDuplicates n ∉ log2).
Proof.
  apply (@clean_pipeline_second_pass ascii_platform (Some "median"%string)
           (u "unknown") tidy_df tidy_out
           [LogDuplicates 1; LogFillNumeric "energy_100g" 1 (CNum 500);
            LogFillText "brands" 1 (u "unknown"); LogNormalize 2]).
  - split.
    + apply (bool_decide_unpack (NoDup (column_names tidy_df))).
      vm_compute. exact I.
    + repeat constructor.
  - vm_compute. reflexivity.
Defined.

(** The container returned for [tidy_df] meets both conditions, and a second
    pass returns it unchanged, logging the normalisation alone. *)
Example tidy_out_fixed_point :
  no_duplicate_rows tidy_out
  ∧ stripped_text tidy_out
  ∧ ∀ P : Platform,
      @clean_pipeline P (Some "median"%string) (u "unknown") tidy_out
      = Ok (tidy_out, [LogNormalize 2]).
Proof.
  split; [|split].
  - intros keys mask Hkeys Hmask. vm_compute in Hkeys.
    injection Hkeys as <-. vm_compute in Hmask. by injection Hmask as <-.
  - repeat constructor.
  - intros P. vm_compute. reflexivity.
Qed.

(** C3, as stated, fails.  On the codes "A" and "a" the first pass returns
    two rows that both hold "a"; the second pass removes one of them, so the
    data changes, and it logs both the deduplication and the normalisation. *)
Lemma second_pass_changes :
  (∀ P : Platform,
     @clean_pipeline P (Some "median"%string) (u "unknown") mixed_case_df
     = Ok (mixed_case_out, [LogNormalize 1]))
  ∧ (∀ P : Platform,
       @clean_pipeline P (Some "median"%string) (u "unknown") mixed_case_out
       = Ok (mkDF 1 [text_column "code" ["a"%string]],
             [LogDuplicates 1; LogNormalize 1]))
  ∧ mkDF 1 [text_column "code" ["a"%string]] ≠ mixed_case_out.
Proof.
  split; [|split].
  - intros P. vm_compute. reflexivity.
  - intros P. vm_compute. reflexivity.
  - vm_compute. discriminate.
Qed.

(** ** The transformer never shares a frame *)

Section Isolation.
Context `{Platform}.
Variable derived_columns : DataFrame → DataFrame * list log_entry.

Lemma construct_outside (h : store) (input : loc) (d0 : DataFrame)
    (v : bool) :
  h !! input = Some d0 →
  outside (construct h input v) input
  ∧ frames (construct h input v) !! input = Some d0
  ∧ current (construct h input v) = d0.
Proof.
  intros Hin. unfold construct, copy_frame, outside, wf_world, current.
  simpl. pose proof (is_fresh (dom h)) as Hfresh.
  assert (Hne : fresh (dom h) ≠ input).
  { intros Heq. apply Hfresh. rewrite Heq. by apply elem_of_dom_2 in Hin. }
  rewrite dom_insert_L, lookup_insert_ne, lookup_total_insert_eq by done.
  repeat split; try done.
  - set_solver.
  - apply elem_of_dom_2 in Hin. set_solver.
  - by apply lookup_total_correct.
Qed.

Lemma in_place_outside (t' : DataTransformer) (w : world) (l : loc) :
  outside w l →
  outside (in_place t' w) l ∧ frames (in_place t' w) !! l = frames w !! l.
Proof.
  intros (Hwf & Hl & Hne). unfold outside, wf_world, in_place in *. simpl.
  rewrite dom_insert_L, lookup_insert_ne by done.
  repeat split; try done; set_solver.
Qed.

Lemma rebind_outside (d' : DataFrame) (w : world) (l : loc) :
  outside w l →
  outside (rebind d' w) l ∧ frames (rebind d' w) !! l = frames w !! l.
Proof.
  intros (Hwf & Hl & Hne). unfold outside, wf_world, rebind, copy_frame in *.
  simpl. pose proof (is_fresh (dom (frames w))) as Hfresh.
  assert (Hnew : fresh (dom (frames w)) ≠ l) by (intros Heq; congruence).
  rewrite dom_insert_L, lookup_insert_ne by done.
  repeat split; try done; set_solver.
Qed.

Lemma set_log_outside (log : list log_entry) (w : world) (l : loc) :
  outside w l →
  outside (set_log log w) l ∧ frames (set_log log w) !! l = frames w !! l.
Proof. by intros (Hwf & Hl & Hne). Qed.

Lemma filter_outliers_iter_outside (method : string) (threshold : Q)
    (cols : list string) (l : loc) :
  ∀ w w',
    outside w l →
    filter_outliers_iter method threshold cols w = Ok w' →
    outside w' l ∧ frames w' !! l = frames w !! l.
Proof.
  induction cols as [|col cols IH]; intros w w' Hout; simpl.
  - by intros [= <-].
  - destruct (filter_outliers_step method threshold (current w) col)
      as [[d'|]|]; simpl; [| |done].
    + destruct (rebind_outside d' w l Hout) as [Hout' Heq].
      intros Hrest. destruct (IH _ _ Hout' Hrest) as [? ?].
      split; [done|congruence].
    + by apply IH.
Qed.

Lemma call_outside (m : method_call) (w w' : world) (l : loc) :
  outside w l → call derived_columns m w = Ok w' →
  outside w' l ∧ frames w' !! l = frames w !! l.
Proof.
  intros Hout. destruct m; simpl.
  - destruct (remove_duplicates subset (snapshot w)) as [t'|]; simpl; [|done].
    intros [= <-].
    destruct (rebind_outside (df t') w l Hout) as [Hout' Heq].
    destruct (set_log_outside (transformations_applied t') _ l Hout').
    split; [done|congruence].
  - intros [= <-]. by apply in_place_outside.
  - intros [= <-]. by apply in_place_outside.
  - intros [= <-]. by apply in_place_outside.
  - destruct (filter_outliers_iter method threshold cols w) as [w1|] eqn:Hiter;
      simpl; [|done].
    destruct (filter_outliers_iter_outside _ _ _ l _ _ Hout Hiter)
      as [Hout1 Heq].
    destruct (0 <? index_len (current w) - index_len (current w1))%nat;
      intros [= <-]; [|done].
    destruct (set_log_outside
                (self_log (self w1)
                 ++ [LogOutliers method
                       (index_len (current w) - index_len (current w1))])
                w1 l Hout1).
    split; [done|congruence].
  - destruct (derived_columns (current w)) as [d' entries].
    intros [= <-]. by apply in_place_outside.
  - intros [= <-].
    destruct (rebind_outside (func (current w)) w l Hout) as [Hout' Heq].
    destruct (set_log_outside (self_log (self w) ++ [LogCustom name]) _ l
                Hout').
    split; [done|congruence].
Qed.

Lemma get_result_outside (w : world) (l : loc) :
  outside w l →
  outside (get_result_ref w).2 l
  ∧ frames (get_result_ref w).2 !! l = frames w !! l.
Proof.
  intros (Hwf & Hl & Hne). unfold outside, wf_world, get_result_ref,
    copy_frame in *. simpl.
  pose proof (is_fresh (dom (frames w))) as Hfresh.
  assert (Hnew : fresh (dom (frames w)) ≠ l) by (intros Heq; congruence).
  rewrite dom_insert_L, lookup_insert_ne by done.
  repeat split; try done; set_solver.
Qed.

Lemma act_outside (a : action) (w w' : world) (l : loc) :
  outside w l → act derived_columns a w = Ok w' → (∀ d, a ≠ Assign l d) →
  outside w' l ∧ frames w' !! l = frames w !! l.
Proof.
  intros Hout. destruct a as [m| |l0 d]; simpl.
  - intros Hcall _. by apply (call_outside m).
  - intros [= <-] _. by apply get_result_outside.
  - intros [= <-] Hother. assert (l0 ≠ l) by (intros ->; by apply (Hother d)).
    destruct Hout as (Hwf & Hl & Hne). unfold outside, wf_world in *. simpl.
    rewrite dom_insert_L, lookup_insert_ne by done.
    repeat split; try done; set_solver.
Qed.

Lemma run_outside (acts : list action) (l : loc) :
  ∀ w w',
    outside w l → run derived_columns acts w = Ok w' → (∀ d, Assign l d ∉ acts) →
    outside w' l ∧ frames w' !! l = frames w !! l.
Proof.
  induction acts as [|a acts IH]; intros w w' Hout; simpl.
  - by intros [= <-].
  - destruct (act derived_columns a w) as [w1|] eqn:Hact; simpl; [|done].
    intros Hrun Hno.
    destruct (act_outside a w w1 l Hout Hact) as [Hout1 Heq1].
    { intros d ->. apply (Hno d). left. }
    destruct (IH _ _ Hout1 Hrun) as [? ?].
    { intros d Hin. apply (Hno d). by right. }
    split; [done|congruence].
Qed.

Lemma rebind_wf (d' : DataFrame) (w : world) : wf_world (rebind d' w).
Proof.
  unfold wf_world, rebind, copy_frame. simpl. rewrite dom_insert_L.
  set_solver.
Qed.

Lemma in_place_wf (t' : DataTransformer) (w : world) :
  wf_world (in_place t' w).
Proof.
  unfold wf_world, in_place. simpl. rewrite dom_insert_L. set_solver.
Qed.

Lemma filter_outliers_iter_wf (method : string) (threshold : Q)
    (cols : list string) :
  ∀ w w',
    wf_world w → filter_outliers_iter method threshold cols w = Ok w' →
    wf_world w'.
Proof.
  induction cols as [|col cols IH]; intros w w' Hwf; simpl.
  - by intros [= <-].
  - destruct (filter_outliers_step method threshold (current w) col)
      as [[d'|]|]; simpl; [| |done].
    + apply IH, rebind_wf.
    + by apply IH.
Qed.

Lemma act_wf (a : action) (w w' : world) :
  wf_world w → act derived_columns a w = Ok w' → wf_world w'.
Proof.
  intros Hwf. destruct a as [m| |l0 d]; simpl.
  - destruct m; simpl.
    + destruct (remove_duplicates subset (snapshot w)) as [t'|]; simpl;
        [|done].
      intros [= <-]. apply (rebind_wf (df t') w).
    + intros [= <-]. apply in_place_wf.
    + intros [= <-]. apply in_place_wf.
    + intros [= <-]. apply in_place_wf.
    + destruct (filter_outliers_iter method threshold cols w) as [w1|]
        eqn:Hiter; simpl; [|done].
      pose proof (filter_outliers_iter_wf _ _ _ _ _ Hwf Hiter).
      by destruct (0 <? index_len (current w) - index_len (current w1))%nat;
        intros [= <-].
    + destruct (derived_columns (current w)) as [d' entries].
      intros [= <-]. apply in_place_wf.
    + intros [= <-]. apply (rebind_wf (func (current w)) w).
  - intros [= <-]. unfold wf_world, get_result_ref, copy_frame in *. simpl.
    rewrite dom_insert_L. set_solver.
  - intros [= <-]. unfold wf_world in *. simpl. rewrite dom_insert_L.
    set_solver.
Qed.

Lemma run_wf (acts : list action) :
  ∀ w w', wf_world w → run derived_columns acts w = Ok w' → wf_world w'.
Proof.
  induction acts as [|a acts IH]; intros w w' Hwf; simpl.
  - by intros [= <-].
  - destruct (act derived_columns a w) as [w1|] eqn:Hact; simpl; [|done].
    apply IH. by apply (act_wf a w).
Qed.

Lemma agree_current (l : loc) (w1 w2 : world) :
  agree_except l w1 w2 → current w1 = current w2.
Proof.
  intros (Hself & _ & Hframes & _ & Hne). unfold current.
  rewrite !lookup_total_alt, <- Hself. by rewrite Hframes.
Qed.

Lemma agree_snapshot (l : loc) (w1 w2 : world) :
  agree_except l w1 w2 → snapshot w1 = snapshot w2.
Proof.
  intros Hagree. unfold snapshot. rewrite (agree_current l w1 w2 Hagree).
  by destruct Hagree as (-> & _).
Qed.

Lemma in_place_agree (l : loc) (t' : DataTransformer) (w1 w2 : world) :
  agree_except l w1 w2 →
  agree_except l (in_place t' w1) (in_place t' w2).
Proof.
  intros (Hself & Hdom & Hframes & Hl & Hne).
  unfold agree_except, in_place. simpl. rewrite !dom_insert_L, Hself, Hdom.
  rewrite Hdom in Hl.
  repeat split; try done; [|by apply elem_of_union_r|congruence].
  intros l' Hl'. destruct (decide (self_df (self w2) = l')) as [->|?].
  - by rewrite !lookup_insert_eq.
  - rewrite !lookup_insert_ne by done. by apply Hframes.
Qed.

Lemma rebind_agree (l : loc) (d' : DataFrame) (w1 w2 : world) :
  agree_except l w1 w2 → agree_except l (rebind d' w1) (rebind d' w2).
Proof.
  intros (Hself & Hdom & Hframes & Hl & Hne).
  unfold agree_except, rebind, copy_frame. simpl.
  rewrite !dom_insert_L, Hself, Hdom. rewrite Hdom in Hl.
  pose proof (is_fresh (dom (frames w2))) as Hfresh.
  repeat split; try done; [|by apply elem_of_union_r|].
  - intros l' Hl'. destruct (decide (fresh (dom (frames w2)) = l')) as [->|?].
    + by rewrite !lookup_insert_eq.
    + rewrite !lookup_insert_ne by done. by apply Hframes.
  - by intros ->.
Qed.

Lemma set_log_agree (l : loc) (log : list log_entry) (w1 w2 : world) :
  agree_except l w1 w2 → agree_except l (set_log log w1) (set_log log w2).
Proof.
  intros (Hself & Hdom & Hframes & Hl & Hne).
  unfold agree_except, set_log. simpl. rewrite Hself in Hne |- *.
  by repeat split.
Qed.

Lemma filter_outliers_iter_agree (l : loc) (method : string) (threshold : Q)
    (cols : list string) :
  ∀ w1 w2 w1',
    agree_except l w1 w2 →
    filter_outliers_iter method threshold cols w1 = Ok w1' →
    ∃ w2', filter_outliers_iter method threshold cols w2 = Ok w2'
           ∧ agree_except l w1' w2'.
Proof.
  induction cols as [|col cols IH]; intros w1 w2 w1' Hagree; simpl.
  - intros [= <-]. by exists w2.
  - rewrite <- (agree_current l w1 w2 Hagree).
    destruct (filter_outliers_step method threshold (current w1) col)
      as [[d'|]|]; simpl; [| |done].
    + apply IH. by apply rebind_agree.
    + by apply IH.
Qed.

Lemma act_agree (l : loc) (a : action) (w1 w2 w1' : world) :
  agree_except l w1 w2 → act derived_columns a w1 = Ok w1' →
  ∃ w2', act derived_columns a w2 = Ok w2' ∧ agree_except l w1' w2'.
Proof.
  intros Hagree. pose proof (agree_snapshot l w1 w2 Hagree) as Hsnap.
  pose proof (agree_current l w1 w2 Hagree) as Hcur.
  destruct a as [m| |l0 d]; simpl.
  - destruct m; simpl; rewrite <- ?Hsnap, <- ?Hcur.
    + destruct (remove_duplicates subset (snapshot w1)) as [t'|]; simpl;
        [|done].
      intros [= <-]. eexists. split; [done|].
      by apply set_log_agree, rebind_agree.
    + intros [= <-]. eexists. split; [done|]. by apply in_place_agree.
    + intros [= <-]. eexists. split; [done|]. by apply in_place_agree.
    + intros [= <-]. eexists. split; [done|]. by apply in_place_agree.
    + destruct (filter_outliers_iter method threshold cols w1) as [v1|]
        eqn:Hiter; simpl; [|done].
      destruct (filter_outliers_iter_agree l _ _ _ _ _ _ Hagree Hiter)
        as (v2 & -> & Hv). simpl.
      rewrite <- (agree_current l v1 v2 Hv).
      assert (Hlog : self_log (self v1) = self_log (self v2)).
      { by destruct Hv as (-> & _). }
      rewrite <- Hlog.
      destruct (0 <? index_len (current w1) - index_len (current v1))%nat;
        intros [= <-]; eexists; (split; [done|]); [|done].
      by apply set_log_agree.
    + destruct (derived_columns (current w1)) as [d' entries].
      assert (Hs : self w1 = self w2) by (by destruct Hagree).
      rewrite <- Hs. intros [= <-]. eexists. split; [done|].
      by apply in_place_agree.
    + assert (Hs : self w1 = self w2) by (by destruct Hagree).
      rewrite <- Hs. intros [= <-]. eexists. split; [done|].
      apply (set_log_agree l _ (rebind _ w1) (rebind _ w2)).
      by apply rebind_agree.
  - intros [= <-]. eexists. split; [done|].
    unfold get_result_ref. rewrite <- Hcur.
    destruct Hagree as (Hself & Hdom & Hframes & Hl & Hne).
    unfold agree_except, copy_frame. simpl.
    rewrite !dom_insert_L, Hdom. rewrite Hdom in Hl.
    repeat split; try done; [|by apply elem_of_union_r].
    intros l' Hl'. destruct (decide (fresh (dom (frames w2)) = l')) as [->|?].
    + by rewrite !lookup_insert_eq.
    + rewrite !lookup_insert_ne by done. by apply Hframes.
  - intros [= <-]. eexists. split; [done|].
    destruct Hagree as (Hself & Hdom & Hframes & Hl & Hne).
    unfold agree_except. simpl. rewrite !dom_insert_L, Hdom.
    rewrite Hdom in Hl.
    repeat split; try done; [|by apply elem_of_union_r].
    intros l' Hl'. destruct (decide (l0 = l')) as [->|?].
    + by rewrite !lookup_insert_eq.
    + rewrite !lookup_insert_ne by done. by apply Hframes.
Qed.

Lemma run_agree (l : loc) (acts : list action) :
  ∀ w1 w2 w1',
    agree_except l w1 w2 → run derived_columns acts w1 = Ok w1' →
    ∃ w2', run derived_columns acts w2 = Ok w2' ∧ agree_except l w1' w2'.
Proof.
  induction acts as [|a acts IH]; intros w1 w2 w1' Hagree; simpl.
  - intros [= <-]. by exists w2.
  - destruct (act derived_columns a w1) as [v1|] eqn:Hact; simpl; [|done].
    destruct (act_agree l a w1 w2 v1 Hagree Hact) as (v2 & -> & Hv). simpl.
    by apply IH.
Qed.

(** C9. The constructor copies its argument, and no chained method and no
    [get_result] writes a frame other than the chain's own: the container
    given to the constructor keeps its content through any sequence of
    calls.  A frame returned by [get_result] is a fresh copy of the current
    state; it keeps that content whatever the chain does afterwards, and a
    client that assigns into it changes neither the chain's frame nor its
    log, now or after any further calls. *)
Theorem transformer_isolation (h : store) (input : loc) (d0 : DataFrame)
    (v : bool) (acts : list action) (w : world) :
  h !! input = Some d0 →
  run derived_columns acts (construct h input v) = Ok w →
  ((∀ d, Assign input d ∉ acts) → frames w !! input = Some d0)
  ∧ ∀ (r : loc) (w1 : world),
      get_result_ref w = (r, w1) →
      (r ∉ dom (frames w))
      ∧ r ≠ self_df (self w1)
      ∧ self w1 = self w
      ∧ frames w1 !! r = Some (current w)
      ∧ current w1 = current w
      ∧ (∀ acts' w2,
           (∀ d, Assign r d ∉ acts') →
           run derived_columns acts' w1 = Ok w2 →
           frames w2 !! r = Some (current w))
      ∧ (∀ d acts' w2,
           run derived_columns acts' w1 = Ok w2 →
           ∃ w2',
             run derived_columns acts'
               (mkWorld (<[r := d]> (frames w1)) (self w1)) = Ok w2'
             ∧ self w2' = self w2
             ∧ current w2' = current w2).
Proof.
  intros Hin Hrun.
  destruct (construct_outside h input d0 v Hin) as (Hout0 & Hframe0 & _).
  pose proof (run_wf acts _ _ (proj1 Hout0) Hrun) as Hwf.
  split.
  - intros Hno.
    destruct (run_outside acts input _ _ Hout0 Hrun Hno) as [_ ->]. done.
  - intros r w1. unfold get_result_ref, copy_frame. intros [= <- <-].
    pose proof (is_fresh (dom (frames w))) as Hfresh.
    set (r := fresh (dom (frames w))) in *.
    assert (Hne : r ≠ self_df (self w)).
    { intros Heq. apply Hfresh. rewrite Heq. exact Hwf. }
    assert (Hout1 : outside (mkWorld (<[r := current w]> (frames w)) (self w))
                      r).
    { unfold outside, wf_world. simpl. rewrite dom_insert_L.
      split; [by apply elem_of_union_r|].
      split; [|done]. apply elem_of_union_l. by apply elem_of_singleton. }
    simpl. split; [done|]. split; [done|]. split; [done|].
    split; [by rewrite lookup_insert_eq|].
    split; [unfold current; simpl; by rewrite lookup_total_insert_ne|].
    split.
    + intros acts' w2 Hno Hrun'.
      destruct (run_outside acts' r _ _ Hout1 Hrun' Hno) as [_ ->].
      simpl. by rewrite lookup_insert_eq.
    + intros d acts' w2 Hrun'.
      assert (Hagree : agree_except r
                (mkWorld (<[r := current w]> (frames w)) (self w))
                (mkWorld (<[r := d]> (<[r := current w]> (frames w)))
                   (self w))).
      { unfold agree_except. simpl.
        split; [done|]. split.
        { symmetry. apply dom_insert_lookup_L. by rewrite lookup_insert_eq. }
        split.
        { intros l' Hl'. symmetry. apply lookup_insert_ne. congruence. }
        split; [|done]. rewrite dom_insert_L.
        apply elem_of_union_l. by apply elem_of_singleton. }
      destruct (run_agree r acts' _ _ _ Hagree Hrun') as (w2' & Hrun2 & Hw2).
      exists w2'. split; [done|]. split.
      * by destruct Hw2 as (-> & _).
      * symmetry. by apply (agree_current r).
Qed.

End Isolation.

Lemma transformer_isolation_witness :
  ∃ w : world,
    run (H := ascii_platform) (fun d => (d, [])) demo_actions
      (construct demo_store 1%positive true) = Ok w
    ∧ frames w !! 1%positive = Some codes_df
    ∧ frames w !! 4%positive = Some mixed_case_df
    ∧ self_df (self w) = 3%positive.
Proof.
  eexists. split; [vm_compute; reflexivity|].
  split; [|split; reflexivity].
  apply (proj1 (@transformer_isolation ascii_platform (fun d => (d, []))
                  demo_store 1%positive codes_df true demo_actions _
                  eq_refl eq_refl)).
  intros d Hin. unfold demo_actions in Hin.
  repeat (apply elem_of_cons in Hin as [Hin|Hin]; [discriminate Hin|]).
  by apply elem_of_nil in Hin.
Defined.

(* ===================================================================== *)
(** * Further properties *)
(* ===================================================================== *)

(** * Further properties of the quality analyzer *)

(** ** Counting *)

Lemma count_if_le {A} (p : A → bool) (l : list A) :
  (count_if p l <= length l)%nat.
Proof. unfold count_if. apply filter_length_le. Qed.

Lemma count_if_cons {A} (p : A → bool) (x : A) (l : list A) :
  count_if p (x :: l) = ((if p x then 1 else 0) + count_if p l)%nat.
Proof. unfold count_if. simpl. by destruct (p x). Qed.

Lemma count_if_all {A} (p : A → bool) (l : list A) :
  count_if p l = length l ↔ Forall (fun x => p x = true) l.
Proof.
  induction l as [|x l IH]; [by split; [constructor|]|].
  rewrite count_if_cons. pose proof (count_if_le p l) as Hle. simpl.
  destruct (p x) eqn:Hx; split.
  - intros Hc. constructor; [done|]. apply IH. lia.
  - intros Hall. inversion Hall; subst. apply IH in H2. lia.
  - intros Hc. lia.
  - intros Hall. inversion Hall; subst. congruence.
Qed.

Lemma count_isna_notna (l : list cell) :
  (count_if isna l + count_if notna l = length l)%nat.
Proof.
  induction l as [|x l IH]; [done|].
  rewrite !count_if_cons. unfold notna at 1. simpl.
  destruct (isna x); simpl; lia.
Qed.

Lemma Q_of_nat_le (a b : nat) : (a <= b)%nat → (Q_of_nat a <= Q_of_nat b)%Q.
Proof. intros H. unfold Q_of_nat. rewrite <- Zle_Qle. lia. Qed.

Lemma Q_of_nat_pos (a : nat) : (0 < a)%nat → (0 < Q_of_nat a)%Q.
Proof.
  intros H. unfold Q_of_nat. change 0%Q with (inject_Z 0).
  rewrite <- Zlt_Qlt. lia.
Qed.

Lemma Q_of_nat_nonneg (a : nat) : (0 <= Q_of_nat a)%Q.
Proof.
  unfold Q_of_nat. change 0%Q with (inject_Z 0). rewrite <- Zle_Qle. lia.
Qed.

(** A ratio of two counts, the first at most the second. *)
Lemma ratio_bounds (a b : nat) :
  (a <= b)%nat → (0 < b)%nat →
  (0 <= Q_of_nat a / Q_of_nat b)%Q ∧ (Q_of_nat a / Q_of_nat b <= 1)%Q.
Proof.
  intros Hab Hb. pose proof (Q_of_nat_pos b Hb) as Hpos. split.
  - apply Qle_shift_div_l; [done|]. rewrite Qmult_0_l. apply Q_of_nat_nonneg.
  - apply Qle_shift_div_r; [done|]. rewrite Qmult_1_l. by apply Q_of_nat_le.
Qed.

Lemma ratio_one (a b : nat) :
  (0 < b)%nat → (Q_of_nat a / Q_of_nat b == 1)%Q ↔ a = b.
Proof.
  intros Hb. pose proof (Q_of_nat_pos b Hb) as Hpos. split.
  - intros Heq.
    assert (Hab : (Q_of_nat a == Q_of_nat b)%Q).
    { rewrite <- (Qmult_1_l (Q_of_nat b)), <- Heq. field. lra. }
    unfold Q_of_nat in Hab. rewrite inject_Z_injective in Hab. lia.
  - intros ->. field. lra.
Qed.

Lemma non_null_cells_le (n : nat) (cs : list column) :
  Forall (fun c => length (col_values c) = n) cs →
  (list_sum (List.map (fun c => count_if notna (col_values c)) cs)
   <= n * length cs)%nat.
Proof.
  induction 1 as [|c cs Hc _ IH]; simpl; [lia|].
  pose proof (count_if_le notna (col_values c)). lia.
Qed.

Lemma non_null_cells_all (n : nat) (cs : list column) :
  Forall (fun c => length (col_values c) = n) cs →
  list_sum (List.map (fun c => count_if notna (col_values c)) cs)
  = (n * length cs)%nat
  ↔ Forall (fun c => Forall (fun x => isna x = false) (col_values c)) cs.
Proof.
  induction 1 as [|c cs Hc Hcs IH]; simpl.
  { split; [constructor|lia]. }
  pose proof (count_if_le notna (col_values c)) as H1.
  pose proof (non_null_cells_le n cs Hcs) as H2.
  assert (Hall : count_if notna (col_values c) = n
                 ↔ Forall (fun x => isna x = false) (col_values c)).
  { rewrite <- Hc at 1. rewrite count_if_all. apply Forall_proper; [|done].
    intros x. unfold notna. by destruct (isna x). }
  split.
  - intros Hsum. constructor; [apply Hall|apply IH]; lia.
  - intros Hf. inversion Hf; subst. apply Hall in H3. apply IH in H4. lia.
Qed.

(** X1. On a Tabular Container (unique names, aligned columns) the
    completeness returned by [calculate_completeness] lies between 0 and 1,
    and on a frame that is not empty it is 1 exactly when no cell is
    missing. *)
Theorem completeness_bounds (d : DataFrame) :
  wf_frame d →
  (0 <= calculate_completeness d)%Q ∧ (calculate_completeness d <= 1)%Q
  ∧ (df_empty d = false →
     (calculate_completeness d == 1)%Q
     ↔ Forall (fun c => Forall (fun x => isna x = false) (col_values c))
         (columns d)).
Proof.
  intros [_ Hlen]. unfold calculate_completeness.
  destruct (df_empty d) eqn:He.
  { split; [lra|]. split; [lra|]. done. }
  unfold df_empty in He. apply orb_false_elim in He as [Hn Hc].
  apply Nat.eqb_neq in Hn, Hc.
  assert (Hsize : (0 < df_size d)%nat) by (unfold df_size; nia).
  pose proof (non_null_cells_le _ _ Hlen) as Hle.
  destruct (ratio_bounds (non_null_cells d) (df_size d) Hle Hsize) as [H0 H1].
  split; [done|]. split; [done|]. intros _.
  rewrite ratio_one by done. apply non_null_cells_all, Hlen.
Qed.

Lemma completeness_bounds_witness :
  wf_frame scored_df
  ∧ (0 <= calculate_completeness scored_df)%Q
  ∧ (calculate_completeness scored_df <= 1)%Q
  ∧ (calculate_completeness scored_df == 3 # 4)%Q.
Proof.
  assert (Hwf : wf_frame scored_df).
  { split; [|repeat constructor].
    apply (bool_decide_unpack (NoDup (column_names scored_df))).
    vm_compute. exact I. }
  destruct (completeness_bounds scored_df Hwf) as (H0 & H1 & _).
  split; [done|]. split; [done|]. split; [done|]. reflexivity.
Defined.

(** ** Rounding *)

(** Rounding to an integer stays between two integers that enclose the
    value. *)
Lemma round_half_even_bounds (a b : Z) (x : Q) :
  (inject_Z a <= x)%Q → (x <= inject_Z b)%Q →
  (a <= round_half_even x <= b)%Z.
Proof.
  intros Ha Hb. unfold round_half_even.
  assert (Hfa : (a <= Qfloor x)%Z).
  { rewrite <- (Qfloor_Z a). by apply Qfloor_resp_le. }
  assert (Hfb : (Qfloor x <= b)%Z).
  { rewrite <- (Qfloor_Z b). by apply Qfloor_resp_le. }
  destruct (Z.eq_dec (Qfloor x) b) as [Heq|Hne].
  - assert (Hr : (x - inject_Z (Qfloor x) ?= 1 # 2)%Q = Lt).
    { rewrite <- Qlt_alt, Heq. revert Hb. generalize (inject_Z b).
      intros q Hq. lra. }
    rewrite Hr. lia.
  - destruct (x - inject_Z (Qfloor x) ?= 1 # 2)%Q; [destruct (Z.even _)| |];
      lia.
Qed.

Lemma py_round_percent (x : Q) :
  (0 <= x)%Q → (x <= 100)%Q →
  (0 <= py_round x 2)%Q ∧ (py_round x 2 <= 100)%Q.
Proof.
  intros H0 H1. unfold py_round.
  change (inject_Z (10 ^ Z.of_nat 2)) with 100%Q.
  destruct (round_half_even_bounds 0 10000 (x * 100)) as [Ha Hb].
  { change (inject_Z 0) with 0%Q. lra. }
  { change (inject_Z 10000) with 10000%Q. lra. }
  rewrite Zle_Qle in Ha, Hb.
  change (inject_Z 0) with 0%Q in Ha.
  change (inject_Z 10000) with 10000%Q in Hb.
  split.
  - apply Qle_shift_div_l; lra.
  - apply Qle_shift_div_r; lra.
Qed.

Lemma percent_bounds (a b : nat) :
  (a <= b)%nat → (0 < b)%nat →
  (0 <= Q_of_nat a / Q_of_nat b * 100)%Q
  ∧ (Q_of_nat a / Q_of_nat b * 100 <= 100)%Q.
Proof.
  intros Hab Hb. destruct (ratio_bounds a b Hab Hb). split; lra.
Qed.

(** X2. On a Tabular Container that is not empty, [calculate_null_counts]
    has one entry per column, in column order; the missing cells it counts
    and the non-missing cells counted by [calculate_completeness] add up to
    [df.size]; every count is at most the number of rows and every rounded
    percentage lies between 0 and 100. *)
Theorem null_counts_account (d : DataFrame) :
  wf_frame d → df_empty d = false →
  List.map fst (calculate_null_counts d) = column_names d
  ∧ (list_sum (List.map (fun e => fst (snd e)) (calculate_null_counts d))
     + non_null_cells d = df_size d)%nat
  ∧ Forall (fun e => (fst (snd e) <= index_len d)%nat
                     ∧ (0 <= snd (snd e))%Q ∧ (snd (snd e) <= 100)%Q)
      (calculate_null_counts d).
Proof.
  intros [_ Hlen] He. unfold calculate_null_counts, non_null_cells, df_size,
    column_names. rewrite He.
  unfold df_empty in He. apply orb_false_elim in He as [Hn _].
  apply Nat.eqb_neq in Hn.
  assert (Hpos : (0 <? index_len d)%nat = true) by (apply Nat.ltb_lt; lia).
  rewrite Hpos. clear Hpos.
  induction Hlen as [|c cs Hc _ IH]; simpl.
  { split; [done|]. split; [lia|]. constructor. }
  destruct IH as (IH1 & IH2 & IH3).
  pose proof (count_isna_notna (col_values c)) as Hsum.
  pose proof (count_if_le isna (col_values c)) as Hle.
  rewrite Hc in Hsum, Hle.
  split; [by rewrite IH1|]. split; [lia|].
  constructor; [|done]. simpl. split; [done|].
  apply py_round_percent; apply percent_bounds; lia.
Qed.

Lemma null_counts_account_witness :
  List.map fst (calculate_null_counts scored_df)
  = ["x"; "geocoding_score"]%string
  ∧ (list_sum (List.map (fun e => fst (snd e))
                 (calculate_null_counts scored_df))
     + non_null_cells scored_df = 4)%nat.
Proof.
  assert (Hwf : wf_frame scored_df).
  { split; [|repeat constructor].
    apply (bool_decide_unpack (NoDup (column_names scored_df))).
    vm_compute. exact I. }
  destruct (null_counts_account scored_df Hwf eq_refl) as (H1 & H2 & _).
  split; [exact H1|exact H2].
Defined.

(** ** Duplicate counting *)

(** The first row is never marked. *)
Lemma count_duplicated_from_nil (ks : list (list cell)) :
  (count_if id (duplicated_from [] ks) <= length ks - 1)%nat.
Proof.
  destruct ks as [|k ks]; simpl; [done|].
  rewrite count_if_cons. simpl.
  pose proof (count_if_le id (duplicated_from [k] ks)) as Hle.
  rewrite length_duplicated_from in Hle. lia.
Qed.

(** [df[name]] on a name that is no column raises [KeyError], whatever the
    other names are. *)
Lemma mapM_get_column_raise (d : DataFrame) (names : list string)
    (name : string) :
  name ∈ names → has_column d name = false →
  mapM_result (get_column d) names = Raise KeyError.
Proof.
  intros Hin Hno. induction names as [|n names IH]; [by apply elem_of_nil in Hin|].
  simpl. destruct (get_column d n) as [c|e] eqn:Hget.
  - apply elem_of_cons in Hin as [->|Hin].
    + apply get_column_has in Hget. congruence.
    + simpl. by rewrite (IH Hin).
  - unfold get_column in Hget. by destruct (List.find _ _); inversion Hget.
Qed.

(** X3. Whatever the key columns, a successful [count_duplicates] never
    counts the first row: the count is at most [len(df) - 1] and the
    percentage is at least 0 and below 100. *)
Theorem count_duplicates_bounds (d : DataFrame)
    (id_columns : option (list string)) (duplicates : nat) (pct : Q) :
  count_duplicates d id_columns = Ok (duplicates, pct) →
  (duplicates <= index_len d - 1)%nat ∧ (0 <= pct)%Q ∧ (pct < 100)%Q.
Proof.
  unfold count_duplicates.
  destruct (df_empty d) eqn:He.
  { intros [= <- <-]. split; [lia|]. split; lra. }
  destruct (not_empty_first_column d He) as [Hn _].
  destruct (count_duplicates_keys d id_columns) as [[|k ks]|]; simpl;
    [intros [= <- <-]; split; [lia|]; split; lra| |done].
  unfold duplicated. rewrite He.
  destruct (mapM_result (get_column d) (k :: ks)) as [[|c cs]|]; simpl;
    [done| |done].
  assert (Hpos : (0 <? index_len d)%nat = true) by by apply Nat.ltb_lt.
  rewrite Hpos. intros [= <- <-].
  pose proof (count_duplicated_from_nil (row_keys (c :: cs) (index_len d)))
    as Hle.
  rewrite length_row_keys in Hle. split; [done|].
  set (n := count_if id _) in *.
  pose proof (Q_of_nat_pos (index_len d) Hn) as Hq.
  pose proof (Q_of_nat_nonneg n) as Hq0.
  assert (Hlt : (Q_of_nat n < Q_of_nat (index_len d))%Q).
  { unfold Q_of_nat. rewrite <- Zlt_Qlt. lia. }
  split.
  - apply Qmult_le_0_compat; [|lra]. apply Qle_shift_div_l; lra.
  - assert (Q_of_nat n / Q_of_nat (index_len d) < 1)%Q; [|lra].
    apply Qlt_shift_div_r; lra.
Qed.

Lemma count_duplicates_bounds_witness :
  count_duplicates codes_df None = Ok (1%nat, (1 # 5) * 100)%Q
  ∧ (1 <= index_len codes_df - 1)%nat.
Proof.
  split; [reflexivity|].
  exact (proj1 (count_duplicates_bounds codes_df None 1 ((1 # 5) * 100)
                  eq_refl)).
Defined.

(** X4. On a frame that is not empty, [count_duplicates] with explicit key
    columns raises [KeyError] as soon as one of the names is no column of
    the frame. *)
Theorem count_duplicates_missing_key (d : DataFrame)
    (id_columns : list string) (name : string) :
  df_empty d = false → name ∈ id_columns → has_column d name = false →
  count_duplicates d (Some id_columns) = Raise KeyError.
Proof.
  intros He Hin Hno. unfold count_duplicates. rewrite He. simpl.
  destruct id_columns as [|k ks]; [by apply elem_of_nil in Hin|].
  unfold duplicated. rewrite He.
  by rewrite (mapM_get_column_raise d (k :: ks) name Hin Hno).
Qed.

Lemma count_duplicates_missing_key_witness :
  count_duplicates codes_df (Some ["code"; "id"]%string) = Raise KeyError.
Proof.
  apply (count_duplicates_missing_key codes_df _ "id"); [reflexivity| |reflexivity].
  apply elem_of_cons. right. apply elem_of_cons. by left.
Defined.

(** ** Geocoding statistics *)

Lemma mapM_result_pure {A B} (f : A → result B) (g : A → B) (l : list A) :
  Forall (fun x => f x = Ok (g x)) l → mapM_result f l = Ok (List.map g l).
Proof.
  induction 1 as [|x l Hx _ IH]; simpl; [done|]. by rewrite Hx, IH.
Qed.

Lemma mapM_result_raise {A B} (f : A → result B) (l : list A) (e : exn) :
  (∀ x e', f x = Raise e' → e' = e) →
  (∃ x, x ∈ l ∧ f x = Raise e) →
  mapM_result f l = Raise e.
Proof.
  intros Honly (x & Hin & Hx).
  induction l as [|y l IH]; [by apply elem_of_nil in Hin|]. simpl.
  destruct (f y) as [b|e'] eqn:Hy; simpl.
  - apply elem_of_cons in Hin as [->|Hin]; [congruence|]. by rewrite (IH Hin).
  - by rewrite (Honly _ _ Hy).
Qed.

Lemma sum_Q_lower (b : Q) (xs : list Q) :
  Forall (fun x => (b <= x)%Q) xs → (b * Q_of_nat (length xs) <= sum_Q xs)%Q.
Proof.
  induction 1 as [|x xs Hx _ IH]; simpl.
  { change (Q_of_nat 0) with 0%Q. lra. }
  assert (Hs : (Q_of_nat (S (length xs)) == Q_of_nat (length xs) + 1)%Q).
  { unfold Q_of_nat. rewrite Nat2Z.inj_succ, <- Z.add_1_r, inject_Z_plus.
    reflexivity. }
  rewrite Hs. lra.
Qed.

Lemma mean_lower (b : Q) (xs : list Q) (m : Q) :
  Forall (fun x => (b <= x)%Q) xs → mean xs = Some m → (b <= m)%Q.
Proof.
  intros Hall. pose proof (sum_Q_lower b xs Hall) as Hsum.
  destruct xs as [|x xs]; [done|]. unfold mean. intros [= <-].
  apply Qle_shift_div_l; [|done]. apply Q_of_nat_pos. simpl. lia.
Qed.

Lemma present_filter_valid (vs : list cell) :
  Forall (fun x => (1 # 2 <= x)%Q) (present (List.filter valid_score vs)).
Proof.
  induction vs as [|v vs IH]; simpl; [constructor|].
  unfold valid_score at 1. destruct (cell_num v) as [x|] eqn:Hv; [|done].
  destruct (Qle_bool (1 # 2) x) eqn:Hx; [|done].
  unfold present. simpl. rewrite Hv. constructor; [|exact IH].
  by apply Qle_bool_iff.
Qed.

Lemma valid_geo_cell (v : cell) :
  (∀ s, v ≠ CStr s) →
  (b ← cell_ge v (1 # 2); Ok (notna v && b)) = Ok (valid_score v).
Proof. destruct v as [| |s| |[]]; try done. intros H. by destruct (H s). Qed.

Lemma present_filter_valid_nonempty (vs : list cell) :
  existsb id (List.map valid_score vs) = true →
  present (List.filter valid_score vs) ≠ [].
Proof.
  induction vs as [|v vs IH]; simpl; [done|].
  destruct (valid_score v) eqn:Hv; simpl; [|exact IH].
  intros _. unfold valid_score in Hv. unfold present. simpl.
  by destruct (cell_num v).
Qed.

Lemma count_valid_pos (vs : list cell) :
  existsb id (List.map valid_score vs) = true →
  (0 < count_if id (List.map valid_score vs))%nat.
Proof.
  induction vs as [|v vs IH]; simpl; [done|]. rewrite count_if_cons.
  unfold id at 1 3. destruct (valid_score v); simpl; [lia|exact IH].
Qed.

Lemma count_valid_zero (vs : list cell) :
  existsb id (List.map valid_score vs) = false →
  count_if id (List.map valid_score vs) = O.
Proof.
  induction vs as [|v vs IH]; simpl; [done|]. rewrite count_if_cons.
  unfold id at 1 3. destruct (valid_score v); simpl; [done|exact IH].
Qed.

(** X5. On a frame that is not empty and whose [geocoding_score] column
    holds no text, [calculate_geocoding_stats] succeeds with a success rate
    between 0 and 100; either no row is valid, and then rate and average are
    both 0, or the rate is positive and the average is at least 0.5. *)
Theorem geocoding_stats_bounds (d : DataFrame) (c : column) :
  df_empty d = false →
  get_column d "geocoding_score" = Ok c →
  length (col_values c) = index_len d →
  Forall (fun v => ∀ s, v ≠ CStr s) (col_values c) →
  ∃ rate avg,
    calculate_geocoding_stats d = Ok (rate, avg)
    ∧ (0 <= rate)%Q ∧ (rate <= 100)%Q
    ∧ ((rate == 0 ∧ avg = 0)%Q ∨ (0 < rate ∧ 1 # 2 <= avg)%Q).
Proof.
  intros He Hget Hlen Hnum. unfold calculate_geocoding_stats.
  rewrite He, (get_column_has _ _ _ Hget), Hget. simpl.
  rewrite (mapM_result_pure _ valid_score).
  2:{ eapply Forall_impl; [exact Hnum|]. intros v Hv. by apply valid_geo_cell. }
  simpl. destruct (not_empty_first_column d He) as [Hn _].
  destruct (index_len d =? 0)%nat eqn:H0; [apply Nat.eqb_eq in H0; lia|].
  eexists _, _. split; [reflexivity|].
  set (valid := List.map valid_score (col_values c)).
  assert (Hle : (count_if id valid <= index_len d)%nat).
  { rewrite <- Hlen. etransitivity; [apply count_if_le|].
    unfold valid. by rewrite length_map. }
  destruct (percent_bounds _ _ Hle Hn) as [Hr0 Hr1].
  split; [done|]. split; [done|].
  pose proof (Q_of_nat_pos _ Hn) as Hq.
  destruct (existsb id valid) eqn:Hany.
  - right. split.
    + assert (Hc : (0 < Q_of_nat (count_if id valid))%Q)
        by apply Q_of_nat_pos, count_valid_pos, Hany.
      assert (0 < Q_of_nat (count_if id valid) / Q_of_nat (index_len d))%Q;
        [|lra].
      apply Qlt_shift_div_l; lra.
    + unfold valid. rewrite mask_filter_map.
      pose proof (present_filter_valid (col_values c)) as Hall.
      pose proof (present_filter_valid_nonempty _ Hany) as Hne.
      destruct (mean (present (List.filter valid_score (col_values c))))
        as [m|] eqn:Hm.
      * simpl. by apply (mean_lower _ _ _ Hall).
      * unfold mean in Hm. by destruct (present _).
  - left. split; [|done].
    assert (Hz : count_if id valid = O) by apply count_valid_zero, Hany.
    rewrite Hz. change (Q_of_nat 0) with 0%Q. field. lra.
Qed.

Lemma geocoding_stats_bounds_witness :
  ∃ rate avg,
    calculate_geocoding_stats scored_df = Ok (rate, avg)
    ∧ (rate == 50)%Q ∧ (avg == 9 # 10)%Q.
Proof.
  destruct (geocoding_stats_bounds scored_df
              (mkCol "geocoding_score" Float64 [CNum (9 # 10); CNum (2 # 10)])
              eq_refl eq_refl eq_refl) as (rate & avg & Hs & _).
  { repeat constructor; discriminate. }
  exists rate, avg. split; [exact Hs|].
  vm_compute in Hs. injection Hs as <- <-. split; reflexivity.
Defined.

(** No metric can be computed from a score column that holds text. *)
Lemma geocoding_stats_text (d : DataFrame) (c : column) (s : pystr) :
  df_empty d = false →
  get_column d "geocoding_score" = Ok c →
  CStr s ∈ col_values c →
  calculate_geocoding_stats d = Raise TypeError.
Proof.
  intros He Hget Hin. unfold calculate_geocoding_stats.
  rewrite He, (get_column_has _ _ _ Hget), Hget. simpl.
  rewrite (mapM_result_raise _ _ TypeError); [done| |].
  - intros [| | | |] e'; simpl; try done. by intros [= <-].
  - exists (CStr s). by split.
Qed.

(** Duplicate counting with the default key cannot fail. *)
Lemma count_duplicates_default_total (d : DataFrame) :
  ∃ r, count_duplicates d None = Ok r.
Proof.
  unfold count_duplicates. destruct (df_empty d) eqn:He; [by eexists|].
  destruct (not_empty_first_column d He) as [_ [c0 Hc0]].
  assert (Hkeys : ∃ k ks, count_duplicates_keys d None = Ok (k :: ks)
                          ∧ Forall (fun n => has_column d n = true) (k :: ks)).
  { unfold count_duplicates_keys.
    destruct (List.filter (has_column d) possible_ids) as [|k ks] eqn:Hf.
    - rewrite Hc0. simpl. exists c0, []. split; [done|].
      constructor; [|done]. by apply first_column_has.
    - exists k, ks. split; [done|]. rewrite <- Hf. apply Forall_forall.
      intros n Hn. apply list_elem_of_In, filter_In in Hn. tauto. }
  destruct Hkeys as (k & ks & -> & Hall). simpl.
  destruct (mapM_get_columns d _ Hall) as (cs & Hcs & Hnames).
  unfold duplicated. rewrite He, Hcs. simpl.
  destruct cs as [|c cs]; [done|]. simpl. by eexists.
Qed.

(** X6. [analyze] raises [TypeError] on a frame that is not empty and
    whose [geocoding_score] column holds a text cell: the comparison
    [>= 0.5] cannot order text against a number. *)
Theorem analyze_text_score (d : DataFrame) (c : column) (s : pystr) :
  df_empty d = false →
  get_column d "geocoding_score" = Ok c →
  CStr s ∈ col_values c →
  analyze d = Raise TypeError.
Proof.
  intros He Hget Hin. unfold analyze.
  destruct (count_duplicates_default_total d) as [[n pct] ->]. simpl.
  by rewrite (geocoding_stats_text d c s He Hget Hin).
Qed.

Lemma analyze_text_score_witness :
  analyze (mkDF 1 [mkCol "geocoding_score" Object [CStr (u "0.9")]])
  = Raise TypeError.
Proof.
  apply (analyze_text_score _
           (mkCol "geocoding_score" Object [CStr (u "0.9")]) (u "0.9"));
    [reflexivity|reflexivity|]. by apply elem_of_cons; left.
Defined.

(** ** The metrics of [analyze] *)

(** Rounding to [ndigits] decimals stays between two integers that enclose
    the value. *)
Lemma py_round_bounds (a b : Z) (x : Q) (ndigits : nat) :
  (inject_Z a <= x)%Q → (x <= inject_Z b)%Q →
  (inject_Z a <= py_round x ndigits)%Q ∧ (py_round x ndigits <= inject_Z b)%Q.
Proof.
  intros Ha Hb. unfold py_round.
  set (s := (10 ^ Z.of_nat ndigits)%Z).
  assert (Hs : (0 < s)%Z) by (apply Z.pow_pos_nonneg; lia).
  assert (Hsq : (0 < inject_Z s)%Q).
  { change 0%Q with (inject_Z 0). by rewrite <- Zlt_Qlt. }
  destruct (round_half_even_bounds (a * s) (b * s) (x * inject_Z s))
    as [Hl Hu].
  { rewrite inject_Z_mult. apply Qmult_le_compat_r; [done|]. lra. }
  { rewrite inject_Z_mult. apply Qmult_le_compat_r; [done|]. lra. }
  rewrite Zle_Qle, inject_Z_mult in Hl, Hu. split.
  - by apply Qle_shift_div_l.
  - by apply Qle_shift_div_r.
Qed.

Lemma length_mapM_result {A B} (f : A → result B) (l : list A) (l' : list B) :
  mapM_result f l = Ok l' → length l' = length l.
Proof.
  revert l'. induction l as [|x l IH]; intros l'; simpl; [by intros [= <-]|].
  destruct (f x); simpl; [|done].
  destruct (mapM_result f l); simpl; [|done].
  intros [= <-]. simpl. by rewrite (IH _ eq_refl).
Qed.

Lemma geocoding_rate_bounds (d : DataFrame) (rate avg : Q) :
  wf_frame d → calculate_geocoding_stats d = Ok (rate, avg) →
  (0 <= rate)%Q ∧ (rate <= 100)%Q.
Proof.
  intros [_ Hlen]. unfold calculate_geocoding_stats.
  destruct (df_empty d || negb (has_column d "geocoding_score")) eqn:Hc.
  { intros [= <- <-]. split; lra. }
  destruct (get_column d "geocoding_score") as [c|] eqn:Hget; simpl; [|done].
  destruct (mapM_result _ (col_values c)) as [valid|] eqn:Hv; simpl; [|done].
  destruct (index_len d =? 0)%nat eqn:H0.
  { intros [= <- <-]. split; lra. }
  intros [= <- _]. apply Nat.eqb_neq in H0.
  apply percent_bounds; [|lia].
  etransitivity; [apply count_if_le|].
  rewrite (length_mapM_result _ _ _ Hv).
  apply get_column_Ok in Hget as [Hin _].
  rewrite Forall_forall in Hlen. by rewrite (Hlen c Hin).
Qed.

(** X7. The metrics that [analyze] returns on a Tabular Container are
    consistent: the total is the number of rows, valid records and
    duplicates add up to the total, a frame that is not empty has at least
    one valid record, the completeness lies between 0 and 1 and both
    percentages lie between 0 and 100. *)
Theorem analyze_metrics (d : DataFrame) (m : QualityMetrics) :
  wf_frame d → analyze d = Ok m →
  total_records m = index_len d
  ∧ (valid_records m + Z.of_nat (duplicates_count m)
     = Z.of_nat (total_records m))%Z
  ∧ (df_empty d = false → (1 <= valid_records m)%Z)
  ∧ (0 <= completeness_score m)%Q ∧ (completeness_score m <= 1)%Q
  ∧ (0 <= duplicates_pct m)%Q ∧ (duplicates_pct m <= 100)%Q
  ∧ (0 <= geocoding_success_rate m)%Q ∧ (geocoding_success_rate m <= 100)%Q.
Proof.
  intros Hwf. unfold analyze.
  destruct (count_duplicates d None) as [[n pct]|] eqn:Hdup; simpl; [|done].
  destruct (calculate_geocoding_stats d) as [[rate avg]|] eqn:Hgeo; simpl;
    [|done].
  intros [= <-]. simpl.
  destruct (count_duplicates_bounds d None n pct Hdup) as (Hn & Hp0 & Hp1).
  destruct (completeness_bounds d Hwf) as (Hc0 & Hc1 & _).
  destruct (geocoding_rate_bounds d rate avg Hwf Hgeo) as [Hr0 Hr1].
  split; [done|]. split; [lia|]. split.
  { intros He. destruct (not_empty_first_column d He) as [Hlen _]. lia. }
  destruct (py_round_bounds 0 1 (calculate_completeness d) 3) as [? ?];
    [done|done|].
  destruct (py_round_bounds 0 100 pct 2) as [? ?];
    [done|change (inject_Z 100) with 100%Q; lra|].
  destruct (py_round_bounds 0 100 rate 2) as [? ?]; [done|done|].
  done.
Qed.

Lemma analyze_metrics_witness :
  ∃ m, analyze scored_df = Ok m
       ∧ total_records m = 2%nat ∧ valid_records m = 2%Z
       ∧ (completeness_score m == 3 # 4)%Q
       ∧ (geocoding_success_rate m == 50)%Q.
Proof.
  assert (Hwf : wf_frame scored_df).
  { split; [|repeat constructor].
    apply (bool_decide_unpack (NoDup (column_names scored_df))).
    vm_compute. exact I. }
  eexists. split; [vm_compute; reflexivity|].
  split; [|split; [|split]; reflexivity].
  exact (proj1 (analyze_metrics scored_df _ Hwf eq_refl)).
Defined.

(** ** The grade *)

Lemma Qle_bool_true (x y : Q) : Qle_bool x y = true ↔ (x <= y)%Q.
Proof. apply Qle_bool_iff. Qed.

Lemma Qle_bool_false (x y : Q) : Qle_bool x y = false ↔ (y < x)%Q.
Proof.
  split; intros H.
  - apply Qnot_le_lt. intros Hle. apply Qle_bool_iff in Hle. congruence.
  - apply not_true_iff_false. intros Ht. apply Qle_bool_iff in Ht.
    by apply (Qlt_not_le _ _ H).
Qed.

(** All tests of the goal and of the context as order facts. *)
Ltac order_tests :=
  repeat match goal with
         | |- context [Qle_bool ?x ?y] =>
             let H := fresh "Ht" in destruct (Qle_bool x y) eqn:H
         end;
  repeat match goal with
         | H : Qle_bool _ _ = true |- _ => apply Qle_bool_true in H
         | H : Qle_bool _ _ = false |- _ => apply Qle_bool_false in H
         end.

(** The score that [determine_quality_grade] accumulates. *)
Lemma grade_of_score (d : DataFrame) (completeness duplicates_pct geo_rate : Q) :
  determine_quality_grade d completeness duplicates_pct geo_rate
  = spec_letter
      (spec_score (has_column d "geocoding_score")
         completeness duplicates_pct geo_rate).
Proof.
  unfold determine_quality_grade, spec_score, spec_duplicate_points,
    spec_geocoding_points.
  destruct (has_column d "geocoding_score");
    destruct (Qle_bool duplicates_pct 1), (Qle_bool duplicates_pct 5),
      (Qle_bool duplicates_pct 10);
    apply spec_letter_compat; ring.
Qed.

Lemma grade_rank_letter_mono (s1 s2 : Q) :
  (s1 <= s2)%Q → (grade_rank (spec_letter s1) <= grade_rank (spec_letter s2))%nat.
Proof.
  intros Hle. unfold spec_letter.
  order_tests; first [exfalso; lra | vm_compute; lia].
Qed.

Lemma duplicate_points_anti (p1 p2 : Q) :
  (p2 <= p1)%Q → (spec_duplicate_points p1 <= spec_duplicate_points p2)%Q.
Proof.
  intros Hle. unfold spec_duplicate_points. order_tests; lra.
Qed.

Lemma Qmin_mono (x y b : Q) : (x <= y)%Q → (Qmin x b <= Qmin y b)%Q.
Proof. intros H. apply Q.min_le_compat_r, H. Qed.

(** X8. [determine_quality_grade] is monotone: a higher completeness, a
    lower duplicate percentage and a higher geocoding rate never give a
    lower grade. *)
Theorem grade_monotone (d : DataFrame) (c1 c2 p1 p2 g1 g2 : Q) :
  (c1 <= c2)%Q → (p2 <= p1)%Q → (g1 <= g2)%Q →
  (grade_rank (determine_quality_grade d c1 p1 g1)
   <= grade_rank (determine_quality_grade d c2 p2 g2))%nat.
Proof.
  intros Hc Hp Hg. rewrite !grade_of_score. apply grade_rank_letter_mono.
  unfold spec_score, spec_geocoding_points.
  pose proof (duplicate_points_anti p1 p2 Hp) as Hd.
  assert (Hc' : (Qmin (c1 * 40) 40 <= Qmin (c2 * 40) 40)%Q)
    by (apply Qmin_mono; lra).
  destruct (has_column d "geocoding_score"); [|lra].
  assert (Hg' : (Qmin (g1 / 100 * 30) 30 <= Qmin (g2 / 100 * 30) 30)%Q).
  { apply Qmin_mono. apply Qmult_le_compat_r; [|done].
    apply Qmult_le_compat_r; [exact Hg|done]. }
  lra.
Qed.

Lemma grade_monotone_witness :
  (grade_rank (determine_quality_grade sugars_df (1 # 2) 7 0)
   <= grade_rank (determine_quality_grade sugars_df 1 0 100))%nat.
Proof. apply (grade_monotone sugars_df); by vm_compute. Defined.

(** X9. In exact arithmetic the grade A requires a completeness of at least
    0.7499, at most 5 percent of duplicates and, when the frame has a
    [geocoding_score] column, a geocoding rate of at least 66.66 percent.
    The bounds stay clear of 0.75 and 200/3, which the binary64 sums of the
    code do not require: without a geocoding column and without duplicates,
    the code grades the completeness 0.7499999999999999 A, and 0.749 B. *)
Theorem grade_A_requires (d : DataFrame)
    (completeness duplicates_pct geo_rate : Q) :
  (determine_quality_grade d completeness duplicates_pct geo_rate
   = "A"%string →
   (7499 # 10000 <= completeness)%Q ∧ (duplicates_pct <= 5)%Q
   ∧ (has_column d "geocoding_score" = true → (6666 # 100 <= geo_rate)%Q))
  ∧ (has_column d "geocoding_score" = false →
     Binary64.determine_quality_grade d
       (Binary64.of_Q (7499999999999999 # 10000000000000000))
       (Binary64.of_Z 0) (Binary64.of_Z 0) = "A"%string
     ∧ Binary64.determine_quality_grade d
         (Binary64.of_Q (749 # 1000))
         (Binary64.of_Z 0) (Binary64.of_Z 0) = "B"%string).
Proof.
  split.
  - rewrite grade_of_score. unfold spec_letter.
    destruct (Qle_bool 90 _) eqn:H90; [|by case_ifs].
    intros _. apply Qle_bool_true in H90. revert H90.
    unfold spec_score, spec_duplicate_points, spec_geocoding_points.
    pose proof (Q.le_min_l (completeness * 40) 40) as Hc1.
    pose proof (Q.le_min_r (completeness * 40) 40) as Hc2.
    pose proof (Q.le_min_l (geo_rate / 100 * 30) 30) as Hg1.
    pose proof (Q.le_min_r (geo_rate / 100 * 30) 30) as Hg2.
    assert (Hdiv : (geo_rate / 100 * 30 == geo_rate * (3 # 10))%Q) by field.
    rewrite Hdiv in Hg1 at 2. clear Hdiv.
    revert Hc1 Hc2 Hg1 Hg2.
    generalize (Qmin (completeness * 40) 40), (Qmin (geo_rate / 100 * 30) 30).
    intros qc qg Hc1 Hc2 Hg1 Hg2.
    destruct (has_column d "geocoding_score"); order_tests; intros H90;
      (split; [lra|]); (split; [lra|]); intros; try done; lra.
  - intros Hno. unfold Binary64.determine_quality_grade. rewrite Hno.
    vm_compute. by split.
Qed.

Lemma grade_A_requires_witness :
  determine_quality_grade scored_df 1 0 100 = "A"%string
  ∧ (7499 # 10000 <= 1)%Q ∧ (0 <= 5)%Q
  ∧ Binary64.determine_quality_grade sugars_df
      (Binary64.of_Q (7499999999999999 # 10000000000000000))
      (Binary64.of_Z 0) (Binary64.of_Z 0) = "A"%string.
Proof.
  split; [reflexivity|].
  destruct (grade_A_requires scored_df 1 0 100) as [Hreq _].
  destruct (Hreq eq_refl) as (H1 & H2 & _).
  destruct (grade_A_requires sugars_df 1 0 100) as [_ Hfloat].
  destruct (Hfloat eq_refl) as [HA _].
  by repeat split.
Defined.

(** X10. Without a [geocoding_score] column and with at most 1 percent of
    duplicates the grade is at least C, whatever the completeness is (even
    when every cell is missing). *)
Theorem grade_without_geocoding (d : DataFrame) (completeness duplicates_pct geo_rate : Q) :
  has_column d "geocoding_score" = false →
  (0 <= completeness)%Q → (duplicates_pct <= 1)%Q →
  (2 <= grade_rank
          (determine_quality_grade d completeness duplicates_pct geo_rate))%nat.
Proof.
  intros Hno Hc Hp. rewrite grade_of_score, Hno.
  apply (grade_rank_letter_mono 60). 
  unfold spec_score, spec_duplicate_points, spec_geocoding_points.
  apply Qle_bool_true in Hp. rewrite Hp.
  assert (0 <= Qmin (completeness * 40) 40)%Q; [|lra].
  apply Q.min_glb; lra.
Qed.

Lemma grade_without_geocoding_witness :
  determine_quality_grade sugars_df 0 0 0 = "C"%string
  ∧ (2 <= grade_rank (determine_quality_grade sugars_df 0 0 0))%nat.
Proof.
  split; [reflexivity|].
  apply (grade_without_geocoding sugars_df 0 0 0); [reflexivity| |];
    by vm_compute.
Defined.

(** ** Standard recommendations *)





(** With an unset [self.metrics] the analysis is run first, and its failure
    is the failure of the call. *)
Lemma standard_recommendations_unset (d : DataFrame) :
  standard_recommendations d None = (m ← analyze d; standard_recommendations d (Some m)).
Proof. unfold standard_recommendations. by destruct (analyze d). Qed.

(** * Further properties of the transformer *)

(** ** Shape *)

Lemma shape_kept_refl (t : DataTransformer) :
  wf_frame (df t) → shape_kept t t.
Proof.
  intros Hwf. split; [done|]. split; [done|]. split; [lia|]. by split.
Qed.

Lemma shape_kept_trans (t1 t2 t3 : DataTransformer) :
  shape_kept t1 t2 → shape_kept t2 t3 → shape_kept t1 t3.
Proof.
  intros (_ & Hn1 & Hl1 & Hp1 & Hv1) (Hwf & Hn2 & Hl2 & Hp2 & Hv2).
  split; [done|]. split; [congruence|]. split; [lia|].
  split; [by etransitivity|congruence].
Qed.

Lemma log_prefix_if (b : bool) (log : list log_entry) (e : log_entry) :
  log `prefix_of` (if b then log ++ [e] else log).
Proof. destruct b; [by apply prefix_app_r|done]. Qed.

Lemma assign_column_shape (name : string) (f : column → column)
    (d : DataFrame) :
  (∀ c, col_name (f c) = col_name c) →
  (∀ c, length (col_values (f c)) = length (col_values c)) →
  wf_frame d →
  wf_frame (assign_column name f d)
  ∧ column_names (assign_column name f d) = column_names d
  ∧ index_len (assign_column name f d) = index_len d.
Proof.
  intros Hname Hlen [Hnd Hall].
  assert (Hnames : column_names (assign_column name f d) = column_names d).
  { unfold column_names, assign_column. simpl. rewrite map_map.
    apply map_ext. intros c. by destruct (String.eqb _ _). }
  split; [|done]. split; [by rewrite Hnames|].
  unfold assign_column. simpl. apply Forall_forall. intros c Hc.
  apply list_elem_of_In, in_map_iff in Hc as (c0 & <- & Hc0).
  rewrite Forall_forall in Hall. apply list_elem_of_In in Hc0.
  destruct (String.eqb _ _); [rewrite Hlen|]; by apply Hall.
Qed.

Lemma normalize_step_shape `{Platform} (d : DataFrame) (col : string) :
  wf_frame d →
  wf_frame (normalize_step d col)
  ∧ column_names (normalize_step d col) = column_names d
  ∧ index_len (normalize_step d col) = index_len d.
Proof.
  intros Hwf. unfold normalize_step. destruct (has_column d col); [|done].
  apply assign_column_shape; [done| |done].
  intros c. simpl. by rewrite length_map.
Qed.

Lemma normalize_fold_shape `{Platform} (cols : list string) (d : DataFrame) :
  wf_frame d →
  wf_frame (fold_left normalize_step cols d)
  ∧ column_names (fold_left normalize_step cols d) = column_names d
  ∧ index_len (fold_left normalize_step cols d) = index_len d.
Proof.
  revert d. induction cols as [|col cols IH]; intros d Hwf; simpl; [done|].
  destruct (normalize_step_shape d col Hwf) as (Hwf1 & Hn1 & Hl1).
  destruct (IH _ Hwf1) as (Hwf2 & Hn2 & Hl2).
  split; [done|]. split; congruence.
Qed.

Lemma drop_duplicates_rows (d d' : DataFrame) (keys : list string) :
  drop_duplicates d keys = Ok d' → (index_len d' <= index_len d)%nat.
Proof.
  unfold drop_duplicates. destruct (df_empty d) eqn:He; [by intros [= <-]|].
  destruct (duplicated d keys) as [mask|] eqn:Hdup; simpl; [|done].
  intros [= <-]. simpl. rewrite count_if_negb.
  rewrite (length_duplicated _ _ _ He Hdup). lia.
Qed.

Lemma iqr_mask_length (threshold : Q) (vs : list cell) (m : list bool) :
  iqr_mask threshold vs = Some m → length m = length vs.
Proof.
  unfold iqr_mask.
  destruct (quantile (1 # 4) (present vs)), (quantile (3 # 4) (present vs));
    try done.
  destruct (Qltb _ _); [|done]. intros [= <-]. by rewrite length_map.
Qed.

Lemma zscore_mask_length (threshold : Q) (vs : list cell) (m : list bool) :
  zscore_mask threshold vs = Some m → length m = length vs.
Proof.
  unfold zscore_mask.
  destruct (mean (present vs)), (variance (present vs)); try done.
  destruct (Qltb _ _); [|done]. intros [= <-]. by rewrite length_map.
Qed.

(** An iteration of the outlier loop that rebinds the frame filters it by a
    mask with one entry per row. *)
Lemma filter_outliers_step_mask (method : string) (threshold : Q)
    (d d' : DataFrame) (col : string) :
  wf_frame d →
  filter_outliers_step method threshold d col = Ok (Some d') →
  ∃ mask, d' = filter_rows mask d ∧ length mask = index_len d.
Proof.
  intros [_ Hall]. unfold filter_outliers_step.
  destruct (negb (has_column d col)); [done|].
  destruct (get_column d col) as [c|] eqn:Hget; simpl; [|done].
  apply get_column_Ok in Hget as [Hin _].
  rewrite Forall_forall in Hall. specialize (Hall c Hin).
  destruct (String.eqb method "iqr" && _).
  { destruct (is_number_dtype _); [|done].
    destruct (iqr_mask threshold (col_values c)) as [m|] eqn:Hm; simpl;
      [|done].
    intros [= <-]. exists m. split; [done|].
    by rewrite (iqr_mask_length _ _ _ Hm). }
  destruct (String.eqb method "zscore" && _); [|done].
  destruct (is_number_dtype _); [|done].
  destruct (zscore_mask threshold (col_values c)) as [m|] eqn:Hm; simpl;
    [|done].
  intros [= <-]. exists m. split; [done|].
  by rewrite (zscore_mask_length _ _ _ Hm).
Qed.

Lemma filter_rows_shape (m : list bool) (d : DataFrame) :
  wf_frame d → length m = index_len d →
  wf_frame (filter_rows m d)
  ∧ column_names (filter_rows m d) = column_names d
  ∧ (index_len (filter_rows m d) <= index_len d)%nat.
Proof.
  intros Hwf Hm. split; [by apply wf_filter_rows|]. split.
  - unfold column_names, filter_rows. simpl. by rewrite map_map.
  - simpl. rewrite <- Hm. apply count_if_le.
Qed.

Lemma filter_outliers_loop_shape (method : string) (threshold : Q)
    (cols : list string) :
  ∀ d d', wf_frame d →
    filter_outliers_loop method threshold cols d = Ok d' →
    wf_frame d'
    ∧ column_names d' = column_names d
    ∧ (index_len d' <= index_len d)%nat.
Proof.
  induction cols as [|col cols IH]; intros d d' Hwf; simpl.
  { by intros [= <-]. }
  destruct (filter_outliers_step method threshold d col) as [[d1|]|] eqn:Hs;
    simpl; [| |done].
  - destruct (filter_outliers_step_mask _ _ _ _ _ Hwf Hs) as (m & -> & Hm).
    destruct (filter_rows_shape m d Hwf Hm) as (Hwf1 & Hn1 & Hl1).
    intros Hloop. destruct (IH _ _ Hwf1 Hloop) as (Hwf2 & Hn2 & Hl2).
    split; [done|]. split; [congruence|lia].
  - by apply IH.
Qed.

(** X12. Every operation of the transformer ([remove_duplicates],
    [handle_missing_values], [normalize_text_columns],
    [clean_address_column], [filter_outliers]) takes a Tabular Container to
    a Tabular Container with the same column names, adds no row, only
    appends to the log and keeps the [verbose] flag. *)
Theorem operations_keep_shape `{Platform} (t : DataTransformer) :
  wf_frame (df t) →
  (∀ subset t1, remove_duplicates subset t = Ok t1 → shape_kept t t1)
  ∧ (∀ numeric_strategy text_strategy,
       shape_kept t (handle_missing_values numeric_strategy text_strategy t))
  ∧ (∀ cols, shape_kept t (normalize_text_columns cols t))
  ∧ (∀ address_col min_length,
       shape_kept t (clean_address_column address_col min_length t))
  ∧ (∀ cols method threshold t1,
       filter_outliers cols method threshold t = Ok t1 → shape_kept t t1).
Proof.
  intros Hwf. split; [|split; [|split; [|split]]].
  - intros subset t1 Hrun.
    destruct (remove_duplicates_inv _ _ _ Hrun) as (keys & _ & Hdrop & Hv & Hlog).
    destruct (drop_duplicates_shape _ _ _ Hwf Hdrop) as [Hwf1 Hn1].
    split; [done|]. split; [done|].
    split; [by apply (drop_duplicates_rows _ _ keys)|].
    split; [|done]. rewrite Hlog. apply log_prefix_if.
  - intros ns ts.
    destruct (handle_missing_values_log ns ts t) as (entries & Hlog & _).
    unfold shape_kept. rewrite Hlog, handle_missing_values_df.
    assert (Hnames : column_names
                       (mkDF (index_len (df t))
                          (List.map (impute_column ns ts) (columns (df t))))
                     = column_names (df t)).
    { unfold column_names. simpl. rewrite map_map. apply map_ext.
      intros c. apply impute_column_shape. }
    destruct Hwf as [Hnd Hall].
    split; [split|].
    + by rewrite Hnames.
    + simpl. apply Forall_forall. intros c Hc.
      apply list_elem_of_In, in_map_iff in Hc as (c0 & <- & Hc0).
      rewrite Forall_forall in Hall. apply list_elem_of_In in Hc0.
      destruct (impute_column_shape ns ts c0) as (_ & _ & ->). by apply Hall.
    + split; [done|]. split; [done|]. split; [by apply prefix_app_r|].
      unfold handle_missing_values.
      destruct (for_columns _ _) as [cs1 log1].
      by destruct (for_columns _ cs1).
  - intros cols. unfold normalize_text_columns, shape_kept. simpl.
    destruct (normalize_fold_shape
                (default (object_column_names (df t)) cols) _ Hwf)
      as (Hwf1 & Hn1 & Hl1).
    split; [done|]. split; [done|]. split; [lia|].
    split; [by apply prefix_app_r|done].
  - intros address_col min_length. unfold clean_address_column.
    destruct (get_column (df t) address_col) as [c0|];
      [|by apply shape_kept_refl].
    unfold shape_kept. simpl.
    set (d1 := assign_column address_col
                 (fun c => mkCol (col_name c) Object
                             (List.map clean_address_cell (col_values c)))
                 (df t)).
    destruct (assign_column_shape address_col
                (fun c => mkCol (col_name c) Object
                            (List.map clean_address_cell (col_values c)))
                (df t)) as (Hwf1 & Hn1 & Hl1);
      [done|by intros c; simpl; rewrite length_map|done|].
    fold d1 in Hwf1, Hn1, Hl1.
    destruct (assign_column_shape address_col
                (fun c => mkCol (col_name c) (col_dtype c)
                            (List.map (invalidate_short min_length)
                               (col_values c)))
                d1) as (Hwf2 & Hn2 & Hl2);
      [done|by intros c; simpl; rewrite length_map|exact Hwf1|].
    split; [exact Hwf2|]. split; [congruence|].
    split; [simpl in *; lia|]. split; [apply log_prefix_if|done].
  - intros cols method threshold t1. unfold filter_outliers.
    destruct (filter_outliers_loop method threshold cols (df t)) as [d'|]
      eqn:Hloop; simpl; [|done].
    intros [= <-]. unfold shape_kept. simpl.
    destruct (filter_outliers_loop_shape _ _ _ _ _ Hwf Hloop)
      as (Hwf1 & Hn1 & Hl1).
    split; [done|]. split; [done|]. split; [done|].
    split; [apply log_prefix_if|done].
Qed.

Lemma operations_keep_shape_witness :
  shape_kept (init tidy_df true)
    (@clean_address_column ascii_platform "brands" 5 (init tidy_df true)).
Proof.
  apply (@operations_keep_shape ascii_platform (init tidy_df true)).
  split; [|repeat constructor].
  apply (bool_decide_unpack (NoDup (column_names tidy_df))).
  vm_compute. exact I.
Defined.

(** ** Deduplication *)

Lemma cell_eqb_trans (a b c : cell) :
  cell_eqb a b = true → cell_eqb b c = true → cell_eqb a c = true.
Proof.
  destruct a, b, c; simpl; try done.
  - intros H1%bool_decide_eq_true H2%bool_decide_eq_true.
    apply bool_decide_eq_true. congruence.
  - intros H1%Qeq_bool_iff H2%Qeq_bool_iff. apply Qeq_bool_iff.
    by rewrite H1.
  - intros H1%Bool.eqb_prop H2%Bool.eqb_prop. subst. apply Bool.eqb_reflx.
Qed.

Lemma key_eqb_trans (k1 k2 k3 : list cell) :
  key_eqb k1 k2 = true → key_eqb k2 k3 = true → key_eqb k1 k3 = true.
Proof.
  revert k2 k3. induction k1 as [|a k1 IH]; intros [|b k2] [|c k3]; simpl;
    try done.
  intros [H1 H2]%andb_true_iff [H3 H4]%andb_true_iff.
  apply andb_true_iff. split; [by apply (cell_eqb_trans a b c)|].
  by apply (IH k2 k3).
Qed.

(** Dropping the marked keys leaves no key to mark. *)
Lemma duplicated_from_dropped (ks : list (list cell)) :
  ∀ seen seen',
    (∀ x, existsb (key_eqb x) seen = existsb (key_eqb x) seen') →
    count_if id
      (duplicated_from seen'
         (mask_filter (List.map negb (duplicated_from seen ks)) ks)) = O.
Proof.
  induction ks as [|k ks IH]; intros seen seen' Hsame; simpl; [done|].
  destruct (existsb (key_eqb k) seen) eqn:Hk; simpl.
  - apply IH. intros x. simpl. rewrite <- Hsame.
    destruct (key_eqb x k) eqn:Hxk; simpl; [|done]. symmetry.
    apply existsb_exists in Hk as (s & Hs & Hks).
    apply existsb_exists. exists s. split; [done|].
    by apply (key_eqb_trans x k s).
  - rewrite count_if_cons, <- Hsame, Hk. simpl.
    apply IH. intros x. simpl. by rewrite Hsame.
Qed.

Lemma row_key_S (cs : list column) (i : nat) :
  row_key cs (S i) = row_key (List.map tail_col cs) i.
Proof.
  unfold row_key. rewrite map_map. apply map_ext. intros c. simpl.
  destruct (col_values c); [by destruct i|done].
Qed.

Lemma row_keys_S (cs : list column) (n : nat) :
  row_keys cs (S n) = row_key cs 0 :: row_keys (List.map tail_col cs) n.
Proof.
  unfold row_keys. simpl. f_equal.
  rewrite <- seq_shift, map_map. apply map_ext. intros i. apply row_key_S.
Qed.

Lemma tail_cols_length (n : nat) (cs : list column) :
  Forall (fun c => length (col_values c) = S n) cs →
  Forall (fun c => length (col_values c) = n) (List.map tail_col cs).
Proof.
  intros Hall. apply Forall_forall. intros c Hc.
  apply list_elem_of_In, in_map_iff in Hc as (c0 & <- & Hc0).
  rewrite Forall_forall in Hall. apply list_elem_of_In in Hc0.
  specialize (Hall c0 Hc0). simpl. destruct (col_values c0); simpl in *; lia.
Qed.

(** The keys of the filtered columns are the filtered keys. *)
Lemma row_keys_mask_filter (m : list bool) :
  ∀ cs,
    Forall (fun c => length (col_values c) = length m) cs →
    row_keys (List.map (filter_col m) cs) (count_if id m)
    = mask_filter m (row_keys cs (length m)).
Proof.
  induction m as [|b m IH]; intros cs Hall; [done|].
  simpl length. rewrite (row_keys_S cs), count_if_cons.
  pose proof (tail_cols_length _ _ Hall) as Htl.
  assert (Hrest : List.map (filter_col m) (List.map tail_col cs)
                  = List.map (fun c => if b then tail_col (filter_col (b :: m) c)
                                       else filter_col (b :: m) c) cs).
  { rewrite map_map. apply Forall_fmap_ext_1.
    eapply Forall_impl; [exact Hall|]. intros c Hc. simpl in Hc.
    unfold filter_col, tail_col; simpl.
    destruct (col_values c) as [|v vs]; [done|]. by destruct b. }
  destruct b; simpl.
  - rewrite row_keys_S. f_equal.
    + unfold row_key. rewrite map_map. apply Forall_fmap_ext_1.
      eapply Forall_impl; [exact Hall|]. intros c Hc. simpl in *.
      by destruct (col_values c).
    + rewrite <- (IH _ Htl), Hrest. by rewrite map_map.
  - rewrite <- (IH _ Htl), Hrest. done.
Qed.

Lemma mapM_get_column_filter_rows (m : list bool) (d : DataFrame)
    (keys : list string) (cs : list column) :
  mapM_result (get_column d) keys = Ok cs →
  mapM_result (get_column (filter_rows m d)) keys
  = Ok (List.map (filter_col m) cs).
Proof.
  revert cs. induction keys as [|k keys IH]; intros cs; simpl.
  { by intros [= <-]. }
  destruct (get_column d k) as [c|] eqn:Hc; simpl; [|done].
  destruct (mapM_result (get_column d) keys) as [cs'|]; simpl; [|done].
  intros [= <-]. rewrite (get_column_filter_rows _ _ _ _ Hc). simpl.
  by rewrite (IH _ eq_refl).
Qed.

Lemma mapM_get_column_in (d : DataFrame) (keys : list string)
    (cs : list column) :
  mapM_result (get_column d) keys = Ok cs → Forall (fun c => c ∈ columns d) cs.
Proof.
  revert cs. induction keys as [|k keys IH]; intros cs; simpl.
  { intros [= <-]. constructor. }
  destruct (get_column d k) as [c|] eqn:Hc; simpl; [|done].
  destruct (mapM_result (get_column d) keys) as [cs'|]; simpl; [|done].
  intros [= <-]. constructor; [by apply get_column_Ok in Hc as [? _]|].
  by apply IH.
Qed.

(** After [drop_duplicates] no row is marked under the same key. *)
Lemma drop_duplicates_clean (d d' : DataFrame) (keys : list string) :
  wf_frame d → drop_duplicates d keys = Ok d' →
  ∃ mask, duplicated d' keys = Ok mask ∧ count_if id mask = O.
Proof.
  intros Hwf. unfold drop_duplicates.
  destruct (df_empty d) eqn:He.
  { intros [= <-]. exists []. unfold duplicated. by rewrite He. }
  destruct (duplicated d keys) as [dup|] eqn:Hdup; simpl; [|done].
  intros [= <-]. revert Hdup. unfold duplicated. rewrite He.
  destruct (mapM_result (get_column d) keys) as [cs|] eqn:Hcs; simpl; [|done].
  destruct cs as [|c cs]; [done|]. intros [= <-].
  set (ks := row_keys (c :: cs) (index_len d)).
  set (m := List.map negb (duplicated_from [] ks)).
  destruct (df_empty (filter_rows m d)); [by exists []|].
  rewrite (mapM_get_column_filter_rows _ _ _ _ Hcs). simpl.
  eexists. split; [reflexivity|].
  assert (Hm : length m = index_len d).
  { unfold m, ks. by rewrite length_map, length_duplicated_from,
      length_row_keys. }
  change (filter_col m c :: List.map (filter_col m) cs)
    with (List.map (filter_col m) (c :: cs)).
  rewrite row_keys_mask_filter.
  - rewrite Hm. fold ks. unfold m. by apply duplicated_from_dropped.
  - destruct Hwf as [_ Hall]. rewrite Forall_forall in Hall.
    pose proof (mapM_get_column_in _ _ _ Hcs) as Hin.
    eapply Forall_impl; [exact Hin|]. intros c' Hc'. simpl.
    rewrite Hm. by apply Hall.
Qed.

Lemma remove_duplicates_keys_same (d d' : DataFrame)
    (subset : option (list string)) :
  column_names d' = column_names d →
  remove_duplicates_keys d' subset = remove_duplicates_keys d subset.
Proof.
  destruct subset; [done|]. apply remove_duplicates_keys_names.
Qed.

(** X13. [remove_duplicates] is idempotent: after a successful call a
    second call with the same [subset] returns the same transformer (same
    frame, no further log entry), no row of the result is marked by
    [duplicated] under the key that was used, and [count_duplicates] with
    that key finds no duplicate in the result. *)
Theorem remove_duplicates_idempotent (subset : option (list string))
    (t t1 : DataTransformer) :
  wf_frame (df t) →
  remove_duplicates subset t = Ok t1 →
  remove_duplicates subset t1 = Ok t1
  ∧ ∀ keys, remove_duplicates_keys (df t) subset = Ok keys →
      (∃ mask, duplicated (df t1) keys = Ok mask ∧ count_if id mask = O)
      ∧ ∃ pct, count_duplicates (df t1) (Some keys) = Ok (O, pct)
               ∧ (pct == 0)%Q.
Proof.
  intros Hwf Hrun.
  destruct (remove_duplicates_inv _ _ _ Hrun) as (keys & Hkeys & Hdrop & _).
  destruct (drop_duplicates_shape _ _ _ Hwf Hdrop) as [Hwf1 Hn1].
  destruct (drop_duplicates_clean _ _ _ Hwf Hdrop) as (mask & Hmask & Hnone).
  split.
  - unfold remove_duplicates.
    rewrite (remove_duplicates_keys_same _ _ subset Hn1), Hkeys. simpl.
    assert (Hsame : drop_duplicates (df t1) keys = Ok (df t1)).
    { unfold drop_duplicates at 1. destruct (df_empty (df t1)) eqn:He; [done|].
      rewrite Hmask. simpl. f_equal. apply filter_rows_keep_all; [done| |done].
      by apply (length_duplicated _ keys). }
    rewrite Hsame. simpl. rewrite Nat.sub_diag. simpl. by destruct t1.
  - intros keys' Hkeys'. rewrite Hkeys in Hkeys'. injection Hkeys' as <-.
    split; [by exists mask|].
    unfold count_duplicates. destruct (df_empty (df t1)) eqn:He.
    { by exists 0%Q. }
    simpl. destruct keys as [|k keys]; [by exists 0%Q|].
    rewrite Hmask. simpl. rewrite Hnone. eexists. split; [reflexivity|].
    destruct (0 <? index_len (df t1))%nat eqn:Hpos; [|done].
    apply Nat.ltb_lt in Hpos. change (Q_of_nat 0) with 0%Q. field.
    pose proof (Q_of_nat_pos _ Hpos). lra.
Qed.

Lemma remove_duplicates_idempotent_witness :
  ∃ t1, remove_duplicates (Some ["code"%string]) (init codes_df true) = Ok t1
        ∧ index_len (df t1) = 4%nat
        ∧ remove_duplicates (Some ["code"%string]) t1 = Ok t1.
Proof.
  eexists. split; [vm_compute; reflexivity|]. split; [reflexivity|].
  apply (remove_duplicates_idempotent (Some ["code"%string])
           (init codes_df true)); [|vm_compute; reflexivity].
  split; [|repeat constructor].
  apply (bool_decide_unpack (NoDup (column_names codes_df))).
  vm_compute. exact I.
Defined.

(** ** Imputation *)

Lemma fillna_lookup (v : cell) (vs : list cell) (i : nat) (x : cell) :
  vs !! i = Some x → isna x = false → fillna v vs !! i = Some x.
Proof.
  intros Hx Hna. unfold fillna. rewrite lookup_map, Hx. simpl. by rewrite Hna.
Qed.

Lemma length_insert_sorted (x : Q) (l : list Q) :
  length (insert_sorted x l) = S (length l).
Proof.
  induction l as [|y l IH]; simpl; [done|].
  destruct (Qle_bool x y); simpl; by rewrite ?IH.
Qed.

Lemma length_sort_Q (l : list Q) : length (sort_Q l) = length l.
Proof.
  induction l as [|x l IH]; simpl; [done|].
  by rewrite length_insert_sorted, IH.
Qed.

Lemma median_Some (xs : list Q) : xs ≠ [] → ∃ m, median xs = Some m.
Proof.
  intros Hne. unfold median. rewrite length_sort_Q.
  destruct xs as [|x xs]; [done|]. simpl length.
  destruct (Nat.even _); by eexists.
Qed.

Lemma mean_Some (xs : list Q) : xs ≠ [] → ∃ m, mean xs = Some m.
Proof. intros Hne. destruct xs; [done|]. by eexists. Qed.

(** The value that fills a numeric column is present when the strategy is
    ['zero'], or ['median'] or ['mean'] on a column with a present value. *)
Lemma numeric_fill_value_present (numeric_strategy : string)
    (vs : list cell) :
  numeric_strategy = "zero"%string
  ∨ ((numeric_strategy = "median"%string ∨ numeric_strategy = "mean"%string)
     ∧ present vs ≠ []) →
  ∃ v, numeric_fill_value (Some numeric_strategy) vs = Some v
       ∧ isna v = false.
Proof.
  intros [->|[[->| ->] Hne]]; simpl.
  - by eexists.
  - destruct (median_Some _ Hne) as [m ->]. by eexists.
  - destruct (mean_Some _ Hne) as [m ->]. by eexists.
Qed.

Lemma count_isna_zero_fill (v : cell) (vs : list cell) :
  isna v = false →
  count_if isna (if (0 <? count_if isna vs)%nat then fillna v vs else vs) = O.
Proof.
  intros Hv. destruct (0 <? count_if isna vs)%nat eqn:Hc.
  - by apply fillna_count.
  - apply Nat.ltb_ge in Hc. lia.
Qed.

Lemma get_column_handle_missing_values (numeric_strategy : option string)
    (text_strategy : pystr) (t : DataTransformer) (name : string)
    (c : column) :
  get_column (df t) name = Ok c →
  get_column (df (handle_missing_values numeric_strategy text_strategy t))
    name = Ok (impute_column numeric_strategy text_strategy c).
Proof.
  rewrite handle_missing_values_df. unfold get_column. simpl.
  rewrite find_column_map by (intros c0; apply impute_column_shape).
  destruct (List.find _ (columns (df t))); [|done]. by intros [= <-].
Qed.

Lemma impute_column_cells (numeric_strategy : option string)
    (text_strategy : pystr) (c : column) (i : nat) (x : cell) :
  col_values c !! i = Some x → isna x = false →
  col_values (impute_column numeric_strategy text_strategy c) !! i = Some x.
Proof.
  intros Hx Hna. unfold impute_column, fill_text_column, fill_numeric_column.
  destruct (is_number_dtype (col_dtype c)); simpl.
  - destruct (0 <? count_if isna (col_values c))%nat; simpl.
    + destruct (numeric_fill_value _ _); simpl.
      * destruct (is_object_dtype _); simpl; [|by apply fillna_lookup].
        destruct (0 <? _)%nat; simpl; [|by apply fillna_lookup].
        apply fillna_lookup; [|done]. by apply fillna_lookup.
      * destruct (is_object_dtype _); simpl; [|done].
        destruct (0 <? _)%nat; simpl; [|done]. by apply fillna_lookup.
    + destruct (is_object_dtype _); simpl; [|done].
      destruct (0 <? _)%nat; simpl; [|done]. by apply fillna_lookup.
  - destruct (is_object_dtype _); simpl; [|done].
    destruct (0 <? _)%nat; simpl; [|done]. by apply fillna_lookup.
Qed.

Lemma impute_column_text (numeric_strategy : option string)
    (text_strategy : pystr) (c : column) :
  col_dtype c = Object →
  count_if isna (col_values (impute_column numeric_strategy text_strategy c))
  = O.
Proof.
  intros Hty. unfold impute_column.
  rewrite (fill_numeric_other _ c) by by rewrite Hty.
  unfold fill_text_column. simpl. rewrite Hty. simpl.
  pose proof (count_isna_zero_fill (CStr text_strategy) (col_values c)
                eq_refl) as Hz.
  by destruct (0 <? count_if isna (col_values c))%nat.
Qed.

Lemma impute_column_numeric (numeric_strategy : string)
    (text_strategy : pystr) (c : column) :
  is_number_dtype (col_dtype c) = true →
  numeric_strategy = "zero"%string
  ∨ ((numeric_strategy = "median"%string ∨ numeric_strategy = "mean"%string)
     ∧ present (col_values c) ≠ []) →
  count_if isna
    (col_values (impute_column (Some numeric_strategy) text_strategy c)) = O.
Proof.
  intros Hty Hs. unfold impute_column.
  destruct (numeric_fill_value_present _ (col_values c) Hs) as (v & Hv & Hna).
  assert (Hobj : is_object_dtype
                   (col_dtype (fst (fill_numeric_column
                                      (Some numeric_strategy) c))) = false).
  { destruct (fill_numeric_column_shape (Some numeric_strategy) c)
      as (_ & -> & _). by destruct (col_dtype c). }
  rewrite (fill_text_other _ _ Hobj). simpl.
  unfold fill_numeric_column. rewrite Hty, Hv.
  pose proof (count_isna_zero_fill v (col_values c) Hna) as Hz.
  by destruct (0 <? count_if isna (col_values c))%nat.
Qed.

Lemma impute_column_untouched (numeric_strategy : option string)
    (text_strategy : pystr) (c : column) :
  col_dtype c = Bool
  ∨ (is_number_dtype (col_dtype c) = true
     ∧ numeric_fill_value numeric_strategy (col_values c) = None) →
  impute_column numeric_strategy text_strategy c = c.
Proof.
  unfold impute_column. intros [Hty|[Hty Hnone]].
  - rewrite (fill_numeric_other _ c) by by rewrite Hty.
    simpl. rewrite (fill_text_other _ c) by by rewrite Hty. done.
  - assert (Hn : fill_numeric_column numeric_strategy c = (c, [])).
    { unfold fill_numeric_column. rewrite Hty, Hnone.
      by destruct (0 <? _)%nat. }
    rewrite Hn. simpl. rewrite fill_text_other; [done|].
    by destruct (col_dtype c).
Qed.

(** X14. On a frame whose integer columns hold no missing cell,
    [handle_missing_values] keeps the dtype and the length of every column
    and never changes a cell that is not missing; afterwards a text column
    has no missing cell, a numeric column has none under ['zero'], or under
    ['median'] or ['mean'] when it had a present value; a boolean column,
    an integer column, and a numeric column under any other strategy, is
    left as it is. *)
Theorem handle_missing_values_cells (numeric_strategy : option string)
    (text_strategy : pystr) (t : DataTransformer) (name : string)
    (c : column) :
  integer_columns_full (df t) = true →
  get_column (df t) name = Ok c →
  ∃ c',
    get_column (df (handle_missing_values numeric_strategy text_strategy t))
      name = Ok c'
    ∧ col_dtype c' = col_dtype c
    ∧ length (col_values c') = length (col_values c)
    ∧ (∀ i x, col_values c !! i = Some x → isna x = false →
              col_values c' !! i = Some x)
    ∧ (col_dtype c = Object → count_if isna (col_values c') = O)
    ∧ (∀ s, numeric_strategy = Some s →
            is_number_dtype (col_dtype c) = true →
            s = "zero"%string
            ∨ ((s = "median"%string ∨ s = "mean"%string)
               ∧ present (col_values c) ≠ []) →
            count_if isna (col_values c') = O)
    ∧ (col_dtype c = Bool
       ∨ col_dtype c = Int64
       ∨ (is_number_dtype (col_dtype c) = true
          ∧ numeric_fill_value numeric_strategy (col_values c) = None) →
       c' = c).
Proof.
  intros Hint Hget. exists (impute_column numeric_strategy text_strategy c).
  destruct (impute_column_shape numeric_strategy text_strategy c)
    as (_ & Hty & Hlen).
  split; [by apply get_column_handle_missing_values|].
  split; [done|]. split; [done|].
  split; [intros i x; apply impute_column_cells|].
  split; [apply impute_column_text|].
  split; [intros s ->; apply impute_column_numeric|].
  intros [Hbool|[Hint64|Hnone]].
  - apply impute_column_untouched. by left.
  - apply get_column_Ok in Hget as [Hin _].
    unfold integer_columns_full in Hint. rewrite forallb_forall in Hint.
    apply list_elem_of_In, Hint in Hin. rewrite Hint64 in Hin. simpl in Hin.
    apply Nat.eqb_eq in Hin.
    unfold impute_column, fill_numeric_column. rewrite Hint64, Hin. simpl.
    rewrite fill_text_other; [done|]. by rewrite Hint64.
  - apply impute_column_untouched. by right.
Qed.

Lemma handle_missing_values_cells_witness :
  ∃ c',
    get_column
      (df (handle_missing_values (Some "median"%string) (u "inconnu")
             (init tidy_df true))) "energy_100g" = Ok c'
    ∧ col_values c' !! 0%nat = Some (CNum 500)
    ∧ count_if isna (col_values c') = O.
Proof.
  destruct (handle_missing_values_cells (Some "median"%string) (u "inconnu")
              (init tidy_df true) "energy_100g"
              (mkCol "energy_100g" Float64 [CNum 500; CNaN; CNum 500])
              eq_refl eq_refl) as (c' & Hget & _ & _ & Hkeep & _ & Hfill & _).
  exists c'. split; [exact Hget|]. split.
  - by apply Hkeep.
  - apply (Hfill "median"%string); [reflexivity|reflexivity|].
    right. split; [by left|discriminate].
Defined.

Lemma fill_text_column_idem (text_strategy : pystr) (c : column) :
  fst (fill_text_column text_strategy (fst (fill_text_column text_strategy c)))
  = fst (fill_text_column text_strategy c).
Proof.
  destruct (is_object_dtype (col_dtype c)) eqn:Hty;
    [|by rewrite !(fill_text_other _ c Hty)].
  unfold fill_text_column. rewrite Hty.
  destruct (0 <? count_if isna (col_values c))%nat eqn:Hc; simpl.
  - rewrite Hty. by rewrite (fillna_count (CStr text_strategy)).
  - by rewrite Hty, Hc.
Qed.

Lemma impute_column_idem (numeric_strategy : option string)
    (text_strategy : pystr) (c : column) :
  impute_column numeric_strategy text_strategy
    (impute_column numeric_strategy text_strategy c)
  = impute_column numeric_strategy text_strategy c.
Proof.
  unfold impute_column.
  destruct (is_number_dtype (col_dtype c)) eqn:Hnum.
  - assert (Hobj : ∀ c0, col_dtype c0 = col_dtype c →
                         fill_text_column text_strategy c0 = (c0, [])).
    { intros c0 Hc0. apply fill_text_other. rewrite Hc0.
      by destruct (col_dtype c). }
    destruct (fill_numeric_column_shape numeric_strategy c) as (_ & Hty & _).
    rewrite (Hobj _ Hty). simpl. rewrite fill_numeric_column_idem.
    by rewrite (Hobj _ Hty).
  - rewrite (fill_numeric_other _ c Hnum). simpl.
    destruct (fill_text_column_shape text_strategy c) as (_ & Hty & _).
    rewrite (fill_numeric_other _ (fst (fill_text_column text_strategy c)))
      by (rewrite Hty; exact Hnum).
    simpl. apply fill_text_column_idem.
Qed.

(** X15. [handle_missing_values] is idempotent on the data: a second call
    with the same strategies leaves the frame of the first call
    unchanged. *)
Theorem handle_missing_values_idempotent (numeric_strategy : option string)
    (text_strategy : pystr) (t : DataTransformer) :
  df (handle_missing_values numeric_strategy text_strategy
        (handle_missing_values numeric_strategy text_strategy t))
  = df (handle_missing_values numeric_strategy text_strategy t).
Proof.
  rewrite !handle_missing_values_df. simpl. f_equal.
  rewrite map_map. apply map_ext. intros c. apply impute_column_idem.
Qed.

(** ** Text normalisation *)

(** What holds of a column once it has been normalised. *)
Lemma normalize_column_text `{Platform} (c : column) :
  col_dtype (normalize_column c) = Object
  ∧ length (col_values (normalize_column c)) = length (col_values c)
  ∧ Forall (fun x => ∃ s, x = CStr s ∧ plain_text s)
      (col_values (normalize_column c)).
Proof.
  split; [done|]. simpl. split; [by rewrite length_map|].
  apply Forall_forall. intros x Hx.
  apply list_elem_of_In, in_map_iff in Hx as (x0 & <- & _).
  eexists. split; [reflexivity|]. apply plain_text_normalized.
Qed.

Lemma normalize_fold_listed `{Platform} (I P : column → Prop) (name : string)
    (cols : list string) :
  (∀ c, I c → I (normalize_column c) ∧ P (normalize_column c)) →
  ∀ (d : DataFrame) (c : column),
    get_column d name = Ok c →
    I c → P c ∨ name ∈ cols →
    ∃ c', get_column (fold_left normalize_step cols d) name = Ok c'
          ∧ I c' ∧ P c'.
Proof.
  intros HP. induction cols as [|col cols IH]; intros d c Hget HI Hc; simpl.
  { destruct Hc as [Hc|Hin]; [by exists c|by apply elem_of_nil in Hin]. }
  destruct (decide (col = name)) as [->|Hne].
  - destruct (HP c HI) as [HI' HP'].
    apply (IH _ (normalize_column c)); [|done|by left].
    by apply get_column_normalize_step_same.
  - apply (IH _ c); [|done|].
    + by rewrite get_column_normalize_step_other.
    + destruct Hc as [Hc|Hin]; [by left|right].
      apply elem_of_cons in Hin as [Heq|Hin]; [by subst|done].
Qed.

Lemma normalize_fold_unlisted `{Platform} (name : string)
    (cols : list string) (d : DataFrame) :
  name ∉ cols →
  get_column (fold_left normalize_step cols d) name = get_column d name.
Proof.
  revert d. induction cols as [|col cols IH]; intros d Hnot; simpl; [done|].
  apply not_elem_of_cons in Hnot as [Hne Hnot].
  rewrite (IH _ Hnot). by apply get_column_normalize_step_other.
Qed.

Lemma normalize_fold_absent `{Platform} (cols : list string) (d : DataFrame) :
  Forall (fun col => has_column d col = false) cols →
  fold_left normalize_step cols d = d.
Proof.
  induction 1 as [|col cols Hcol _ IH]; simpl; [done|].
  unfold normalize_step at 2. by rewrite Hcol.
Qed.

(** X16. After [normalize_text_columns] a column that is processed has
    dtype [object], the same length, and holds ASCII text without upper-case
    letters in every cell; a column that is not processed is returned as it
    was. *)
Theorem normalize_text_columns_cells `{Platform} (cols : option (list string))
    (t : DataTransformer) (name : string) (c : column) :
  get_column (df t) name = Ok c →
  (name ∈ default (object_column_names (df t)) cols →
   ∃ c', get_column (df (normalize_text_columns cols t)) name = Ok c'
         ∧ col_dtype c' = Object
         ∧ length (col_values c') = length (col_values c)
         ∧ Forall (fun x => ∃ s, x = CStr s ∧ plain_text s) (col_values c'))
  ∧ (name ∉ default (object_column_names (df t)) cols →
     get_column (df (normalize_text_columns cols t)) name = Ok c).
Proof.
  intros Hget. unfold normalize_text_columns. simpl. split.
  - intros Hin.
    destruct (normalize_fold_listed
                (fun c' => length (col_values c') = length (col_values c))
                (fun c' => col_dtype c' = Object
                           ∧ Forall (fun x => ∃ s, x = CStr s ∧ plain_text s)
                               (col_values c'))
                name (default (object_column_names (df t)) cols))
      with (d := df t) (c := c) as (c' & Hc' & Hlen & Hty & Hall);
      [|done|done|by right|by exists c'].
    intros c0 Hc0. destruct (normalize_column_text c0) as (H1 & H2 & H3).
    split; [congruence|done].
  - intros Hnot. by rewrite normalize_fold_unlisted.
Qed.

Lemma normalize_text_columns_cells_witness :
  ∃ c',
    get_column
      (df (@normalize_text_columns ascii_platform
             (Some ["brands"; "stores"]%string) (init tidy_df true)))
      "brands" = Ok c'
    ∧ col_values c' = [CStr (u "lindt"); CStr (u "none"); CStr (u "lindt")].
Proof.
  destruct (proj1 (@normalize_text_columns_cells ascii_platform
                     (Some ["brands"; "stores"]%string) (init tidy_df true)
                     "brands"
                     (mkCol "brands" Object
                        [CStr (u " Lindt "); CNone; CStr (u "Lindt")])
                     eq_refl))
    as (c' & Hget & _).
  { by left. }
  exists c'. split; [exact Hget|].
  vm_compute in Hget. by injection Hget as <-.
Defined.

(** ** Columns that the frame does not have *)

Lemma filter_outliers_loop_absent (method : string) (threshold : Q)
    (cols : list string) (d : DataFrame) :
  Forall (fun col => has_column d col = false) cols →
  filter_outliers_loop method threshold cols d = Ok d.
Proof.
  induction 1 as [|col cols Hcol _ IH]; simpl; [done|].
  unfold filter_outliers_step. by rewrite Hcol.
Qed.

(** X17. Names that are no column of the frame are passed over silently:
    [filter_outliers] on such names returns the transformer unchanged,
    [clean_address_column] as well, and [normalize_text_columns] leaves the
    frame unchanged but still logs the number of names it was given. *)
Theorem absent_columns_skipped `{Platform} (t : DataTransformer)
    (cols : list string) :
  Forall (fun col => has_column (df t) col = false) cols →
  (∀ method threshold, filter_outliers cols method threshold t = Ok t)
  ∧ normalize_text_columns (Some cols) t
    = mkT (df t) (transformations_applied t ++ [LogNormalize (length cols)])
          (verbose t)
  ∧ (∀ col min_length, col ∈ cols →
       clean_address_column col min_length t = t).
Proof.
  intros Habs. split; [|split].
  - intros method threshold. unfold filter_outliers.
    rewrite (filter_outliers_loop_absent _ _ _ _ Habs). simpl.
    rewrite Nat.sub_diag. simpl. by destruct t.
  - unfold normalize_text_columns. simpl.
    by rewrite (normalize_fold_absent _ _ Habs).
  - intros col min_length Hin. rewrite Forall_forall in Habs.
    specialize (Habs col Hin). unfold clean_address_column.
    destruct (get_column (df t) col) as [c|] eqn:Hget; [|done].
    apply get_column_has in Hget. congruence.
Qed.

Lemma absent_columns_skipped_witness :
  @normalize_text_columns ascii_platform (Some ["stores"; "city"]%string)
    (init codes_df true)
  = mkT codes_df [LogNormalize 2] true.
Proof.
  apply (@absent_columns_skipped ascii_platform (init codes_df true)
           ["stores"; "city"]%string).
  by repeat constructor.
Defined.

(** ** Address cleaning *)

Lemma get_column_clean_address `{Platform} (address_col : string)
    (min_length : Z) (t : DataTransformer) (c : column) :
  get_column (df t) address_col = Ok c →
  get_column (df (clean_address_column address_col min_length t)) address_col
  = Ok (mkCol (col_name c) Object
          (List.map (fun x => invalidate_short min_length
                                (clean_address_cell x)) (col_values c))).
Proof.
  intros Hget. unfold clean_address_column. rewrite Hget. simpl.
  erewrite get_column_assign; [|done|].
  2:{ by apply (get_column_assign address_col
                  (fun c => mkCol (col_name c) Object
                              (List.map clean_address_cell (col_values c)))). }
  simpl. by rewrite map_map.
Qed.

Lemma get_column_clean_address_other `{Platform} (address_col name : string)
    (min_length : Z) (t : DataTransformer) :
  name ≠ address_col →
  get_column (df (clean_address_column address_col min_length t)) name
  = get_column (df t) name.
Proof.
  intros Hne. unfold clean_address_column.
  destruct (get_column (df t) address_col); [|done]. simpl.
  unfold get_column, assign_column. simpl.
  rewrite !find_column_assign_other; done.
Qed.

Lemma invalidate_short_cell (min_length : Z) (c : cell) :
  invalidate_short min_length c = CNone
  ∨ ∃ s, invalidate_short min_length c = CStr s
         ∧ (min_length <= Z.of_nat (length s))%Z.
Proof.
  destruct c as [| |s| |]; simpl; try by left.
  destruct (min_length <=? Z.of_nat (length s))%Z eqn:Hle; [|by left].
  right. exists s. split; [done|]. by apply Z.leb_le.
Qed.

Lemma clean_address_None `{Platform} : clean_address_cell CNone = CStr (u "None").
Proof. reflexivity. Qed.

Lemma clean_address_NaN `{Platform} : clean_address_cell CNaN = CStr (u "nan").
Proof. reflexivity. Qed.

(** X18. After [clean_address_column] every cell of the address column is
    either [None] or a text of at least [min_length] characters.  A cell
    that was [None] stays missing only for [min_length > 4] (it is cast to
    the text "None" first), a NaN cell only for [min_length > 3] (text
    "nan"); the other columns are untouched. *)
Theorem clean_address_column_cells `{Platform} (address_col : string)
    (min_length : Z) (t : DataTransformer) (c : column) :
  get_column (df t) address_col = Ok c →
  ∃ c',
    get_column (df (clean_address_column address_col min_length t))
      address_col = Ok c'
    ∧ length (col_values c') = length (col_values c)
    ∧ Forall (fun x => x = CNone
                       ∨ ∃ s, x = CStr s
                              ∧ (min_length <= Z.of_nat (length s))%Z)
        (col_values c')
    ∧ (∀ i, col_values c !! i = Some CNone →
            col_values c' !! i
            = Some (if (min_length <=? 4)%Z then CStr (u "None") else CNone))
    ∧ (∀ i, col_values c !! i = Some CNaN →
            col_values c' !! i
            = Some (if (min_length <=? 3)%Z then CStr (u "nan") else CNone))
    ∧ ∀ name, name ≠ address_col →
        get_column (df (clean_address_column address_col min_length t)) name
        = get_column (df t) name.
Proof.
  intros Hget. eexists. split; [by apply get_column_clean_address|]. simpl.
  split; [by rewrite length_map|]. split.
  { apply Forall_forall. intros x Hx.
    apply list_elem_of_In, in_map_iff in Hx as (x0 & <- & _).
    destruct (invalidate_short_cell min_length (clean_address_cell x0))
      as [Hx|(s & Hx & Hs)]; [by left|right; by exists s]. }
  split; [|split].
  - intros i Hi. rewrite lookup_map, Hi. simpl. rewrite clean_address_None.
    simpl. done.
  - intros i Hi. rewrite lookup_map, Hi. simpl. rewrite clean_address_NaN.
    simpl. done.
  - intros name Hne. by apply get_column_clean_address_other.
Qed.

Lemma clean_address_column_cells_witness :
  ∃ c',
    get_column
      (df (@clean_address_column ascii_platform "brands" 4
             (init tidy_df true))) "brands" = Ok c'
    ∧ col_values c' = [CStr (u "Lindt"); CStr (u "None"); CStr (u "Lindt")].
Proof.
  destruct (@clean_address_column_cells ascii_platform "brands" 4
              (init tidy_df true)
              (mkCol "brands" Object
                 [CStr (u " Lindt "); CNone; CStr (u "Lindt")]) eq_refl)
    as (c' & Hget & _).
  exists c'. split; [exact Hget|].
  vm_compute in Hget. by injection Hget as <-.
Defined.

(** ** Outlier filtering *)

Lemma filter_outliers_loop_unknown (method : string) (threshold : Q)
    (cols : list string) (d : DataFrame) :
  method ≠ "iqr"%string → method ≠ "zscore"%string →
  filter_outliers_loop method threshold cols d = Ok d.
Proof.
  intros H1%String.eqb_neq H2%String.eqb_neq.
  induction cols as [|col cols IH]; simpl; [done|].
  unfold filter_outliers_step. rewrite H1, H2. simpl.
  destruct (has_column d col) eqn:Hcol; simpl; [|done].
  by destruct (has_column_true _ _ Hcol) as [c ->].
Qed.

Lemma sublist_mask_filter {A} (m : list bool) (l : list A) :
  mask_filter m l `sublist_of` l.
Proof.
  revert l. induction m as [|b m IH]; intros [|x l]; simpl;
    try apply sublist_nil_l.
  destruct b; [by apply sublist_skip|by apply sublist_cons].
Qed.

Lemma filter_outliers_loop_sublist (method : string) (threshold : Q)
    (cols : list string) (name : string) :
  ∀ d d' c,
    filter_outliers_loop method threshold cols d = Ok d' →
    get_column d name = Ok c →
    ∃ c', get_column d' name = Ok c'
          ∧ col_dtype c' = col_dtype c
          ∧ col_values c' `sublist_of` col_values c.
Proof.
  induction cols as [|col cols IH]; intros d d' c; simpl.
  { intros [= <-] Hget. by exists c. }
  destruct (filter_outliers_step method threshold d col) as [[d1|]|] eqn:Hs;
    simpl; [| |done].
  - destruct (filter_outliers_step_shape _ _ _ _ _ Hs) as [m ->].
    intros Hloop Hget.
    destruct (IH _ _ _ Hloop (get_column_filter_rows m _ _ _ Hget))
      as (c' & Hc' & Hty & Hsub).
    exists c'. split; [done|]. split; [done|]. simpl in Hsub.
    etransitivity; [exact Hsub|apply sublist_mask_filter].
  - apply IH.
Qed.

(** X19. [filter_outliers] only drops rows: every column of the result
    has the dtype of the original column and its values are a subsequence
    of the original values; when no row was dropped the log is unchanged;
    with a method other than ['iqr'] and ['zscore'] the transformer is
    returned unchanged, whatever the columns are. *)
Theorem filter_outliers_rows (cols : list string) (method : string)
    (threshold : Q) (t t1 : DataTransformer) :
  filter_outliers cols method threshold t = Ok t1 →
  (∀ name c, get_column (df t) name = Ok c →
     ∃ c', get_column (df t1) name = Ok c'
           ∧ col_dtype c' = col_dtype c
           ∧ col_values c' `sublist_of` col_values c)
  ∧ (index_len (df t1) = index_len (df t) →
     transformations_applied t1 = transformations_applied t)
  ∧ (method ≠ "iqr"%string → method ≠ "zscore"%string → t1 = t).
Proof.
  unfold filter_outliers.
  destruct (filter_outliers_loop method threshold cols (df t)) as [d'|]
    eqn:Hloop; simpl; [|done].
  intros [= <-]. simpl. split; [|split].
  - intros name c Hget.
    by apply (filter_outliers_loop_sublist method threshold cols name (df t)).
  - intros ->. by rewrite Nat.sub_diag.
  - intros H1 H2. rewrite (filter_outliers_loop_unknown _ _ _ _ H1 H2) in Hloop.
    injection Hloop as <-. rewrite Nat.sub_diag. simpl. by destruct t.
Qed.

Lemma filter_outliers_rows_witness :
  ∃ c',
    get_column (mkDF 4 [float_column "sugars_100g" [40; 35; 50; 40]%Q])
      "sugars_100g" = Ok c'
    ∧ col_values c' `sublist_of` List.map CNum [40; 35; 50; 40; 100]%Q.
Proof.
  destruct (proj1 (filter_outliers_rows ["sugars_100g"%string] "iqr" (3 # 2)
                     (init sugars_df false)
                     (mkT (mkDF 4 [float_column "sugars_100g"
                                     [40; 35; 50; 40]%Q])
                          [LogOutliers "iqr" 1] false) eq_refl)
              "sugars_100g" (float_column "sugars_100g" [40; 35; 50; 40; 100]%Q)
              eq_refl) as (c' & Hget & _ & Hsub).
  by exists c'.
Defined.

(** ** The cleaning chain of the pipeline *)

Lemma normalize_cell_None `{Platform} : normalize_cell CNone = CStr (u "none").
Proof. reflexivity. Qed.

Lemma stage_3_inv `{Platform} (d : DataFrame) (v : bool)
    (t : DataTransformer) :
  stage_3_cleaning d v = Ok t →
  ∃ t1,
    remove_duplicates (Some ["code"%string]) (init d v) = Ok t1
    ∧ t = normalize_text_columns
            (Some ["product_name"; "brands"; "categories"; "stores"]%string)
            (clean_address_column "stores" 5
               (handle_missing_values (Some "median"%string) (u "inconnu")
                  t1)).
Proof.
  unfold stage_3_cleaning.
  destruct (remove_duplicates _ _) as [t1|]; simpl; [|done].
  intros [= <-]. by exists t1.
Qed.

(** X20. The cleaning chain of [_stage_3_transformation], when it
    succeeds on a Tabular Container, keeps the shape of the frame, and the
    [stores] column it hands to [add_derived_columns] has no missing cell:
    every cell is ASCII text without upper-case letters, and an address
    that [clean_address_column] invalidated (fewer than 5 characters after
    cleaning) comes back as the text "none". *)
Theorem stage_3_stores `{Platform} (d : DataFrame) (v : bool)
    (t : DataTransformer) :
  wf_frame d →
  stage_3_cleaning d v = Ok t →
  shape_kept (init d v) t
  ∧ ∃ t1,
      remove_duplicates (Some ["code"%string]) (init d v) = Ok t1
      ∧ ∀ c1, get_column (df t1) "stores" = Ok c1 →
          ∃ c, get_column (df t) "stores" = Ok c
               ∧ col_dtype c = Object
               ∧ length (col_values c) = length (col_values c1)
               ∧ Forall (fun x => ∃ s, x = CStr s ∧ plain_text s)
                   (col_values c)
               ∧ ∀ i s, col_values c1 !! i = Some (CStr s) →
                   (length (sub_special (sub_spaces false (strip s))) < 5)%nat →
                   col_values c !! i = Some (CStr (u "none")).
Proof.
  intros Hwf Hrun. destruct (stage_3_inv d v t Hrun) as (t1 & Ht1 & ->).
  set (t2 := handle_missing_values (Some "median"%string) (u "inconnu") t1).
  set (t3 := clean_address_column "stores" 5 t2).
  assert (H1 : shape_kept (init d v) t1).
  { by apply (proj1 (operations_keep_shape (init d v) Hwf)
                (Some ["code"%string])). }
  assert (H2 : shape_kept t1 t2).
  { apply (proj1 (proj2 (operations_keep_shape t1 (proj1 H1)))). }
  assert (H3 : shape_kept t2 t3).
  { apply (proj1 (proj2 (proj2 (proj2 (operations_keep_shape t2 (proj1 H2)))))). }
  split.
  { apply (shape_kept_trans _ t1); [done|].
    apply (shape_kept_trans _ t2); [done|].
    apply (shape_kept_trans _ t3); [done|].
    apply (proj1 (proj2 (proj2 (operations_keep_shape t3 (proj1 H3))))). }
  exists t1. split; [done|]. intros c1 Hc1.
  pose proof (get_column_handle_missing_values (Some "median"%string)
                (u "inconnu") t1 "stores" c1 Hc1) as Hc2. fold t2 in Hc2.
  pose proof (get_column_clean_address "stores" 5 t2 _ Hc2) as Hc3.
  fold t3 in Hc3.
  eexists. split.
  { unfold normalize_text_columns. simpl.
    apply get_column_normalize_step_same.
    by rewrite !get_column_normalize_step_other. }
  destruct (normalize_column_text
              (mkCol
                 (col_name
                    (impute_column (Some "median"%string) (u "inconnu") c1))
                 Object
                 (List.map (fun x => invalidate_short 5 (clean_address_cell x))
                    (col_values
                       (impute_column (Some "median"%string) (u "inconnu")
                          c1)))))
    as (Hty & Hlen & Hall).
  split; [done|]. split.
  { rewrite Hlen. simpl. rewrite length_map.
    apply impute_column_shape. }
  split; [done|].
  intros i s Hi Hshort. simpl.
  pose proof (impute_column_cells (Some "median"%string) (u "inconnu") c1 i
                (CStr s) Hi eq_refl) as Hi2.
  rewrite !lookup_map, Hi2. simpl.
  assert (Hlt : (5 <=? Z.of_nat
                   (length (sub_special (sub_spaces false (strip s)))))%Z
                = false) by (apply Z.leb_gt; lia).
  by rewrite Hlt.
Qed.

Lemma stage_3_stores_witness :
  ∃ t c,
    @stage_3_cleaning ascii_platform shops_df true = Ok t
    ∧ get_column (df t) "stores" = Ok c
    ∧ col_values c
      = [CStr (u "carrefour paris"); CStr (u "none"); CStr (u "inconnu")].
Proof.
  assert (Hwf : wf_frame shops_df).
  { split; [|repeat constructor].
    apply (bool_decide_unpack (NoDup (column_names shops_df))).
    vm_compute. exact I. }
  eexists. 
  destruct (@stage_3_stores ascii_platform shops_df true _ Hwf eq_refl)
    as (_ & t1 & Ht1 & Hstores).
  vm_compute in Ht1. injection Ht1 as <-.
  destruct (Hstores _ eq_refl) as (c & Hc & _).
  exists c. split; [reflexivity|]. split; [exact Hc|].
  vm_compute in Hc. by injection Hc as <-.
Defined.

(** X21. On a frame that is not empty the cleaning chain of
    [_stage_3_transformation] raises [KeyError] when the products have no
    [code] column, and succeeds when they have one. *)
Theorem stage_3_needs_code `{Platform} (d : DataFrame) (v : bool) :
  df_empty d = false →
  (has_column d "code" = false → stage_3_cleaning d v = Raise KeyError)
  ∧ (has_column d "code" = true → ∃ t, stage_3_cleaning d v = Ok t).
Proof.
  intros He. unfold stage_3_cleaning, remove_duplicates. simpl. split.
  - intros Hno. unfold drop_duplicates, duplicated. rewrite He. simpl.
    unfold get_column. pose proof (find_column_spec (columns d) "code") as Hf.
    destruct (List.find _ (columns d)) as [c|]; [|done].
    destruct Hf as [Hin Hname]. exfalso.
    apply (bool_decide_eq_false_1 _ Hno). unfold column_names.
    rewrite <- Hname. by apply (list_elem_of_fmap_2 col_name).
  - intros Hcode. destruct (drop_duplicates_total d "code" Hcode) as [d' ->].
    simpl. by eexists.
Qed.

Lemma stage_3_needs_code_witness :
  @stage_3_cleaning ascii_platform sugars_df true = Raise KeyError.
Proof.
  by apply (proj1 (@stage_3_needs_code ascii_platform sugars_df true eq_refl)).
Defined.

(** * Further properties of the enricher *)

(** ** The join *)

Lemma enrich_step_record (cache : gmap pystr GeocodingResult)
    (field : string) (stats : EnrichmentStats) (p : product) :
  fst (enrich_step cache field stats p) = enrich_record cache field p.
Proof.
  unfold enrich_step, enrich_record.
  destruct (join_key field p) as [a|]; [|done].
  by destruct (cache !! a).
Qed.

Lemma enrich_products_fst (products : list product)
    (cache : gmap pystr GeocodingResult) (field : string)
    (stats : EnrichmentStats) :
  fst (enrich_products products cache field stats)
  = List.map (enrich_record cache field) products.
Proof.
  revert stats. induction products as [|p ps IH]; intros stats; simpl; [done|].
  pose proof (enrich_step_record cache field stats p) as Hp.
  destruct (enrich_step cache field stats p) as [p' s1]. simpl in Hp.
  specialize (IH s1). destruct (enrich_products ps cache field s1) as [e s2].
  simpl in *. by rewrite Hp, IH.
Qed.

Lemma set_geocoding_other (geo : GeocodingResult) (p : product) (k : string) :
  k ∉ enrichment_fields → set_geocoding geo p !! k = p !! k.
Proof.
  intros Hk. unfold set_geocoding, enrichment_fields in *.
  rewrite !not_elem_of_cons in Hk. destruct Hk as (? & ? & ? & ? & ? & ? & _).
  unfold product in *. by rewrite !lookup_insert_ne.
Qed.

Lemma set_geocoding_fields (geo : GeocodingResult) (p : product) :
  set_geocoding geo p !! "store_address"%string = Some (py_of_text (label geo))
  ∧ set_geocoding geo p !! "latitude"%string
    = Some (py_of_number (latitude geo))
  ∧ set_geocoding geo p !! "longitude"%string
    = Some (py_of_number (longitude geo))
  ∧ set_geocoding geo p !! "city"%string = Some (py_of_text (city geo))
  ∧ set_geocoding geo p !! "postal_code"%string
    = Some (py_of_text (postal_code geo))
  ∧ set_geocoding geo p !! "geocoding_score"%string
    = Some (PyNum (score geo)).
Proof.
  unfold set_geocoding, product in *.
  repeat split;
    repeat first [by rewrite lookup_insert_eq
                 |rewrite lookup_insert_ne by done].
Qed.

(** X22. [enrich_products] returns one record per input record, in
    order.  Outside the six enrichment fields the record is the input
    record; when the first comma-separated part of its address, stripped, is
    a key of the cache, the six fields hold the label, latitude, longitude,
    city, postal code and score of the cached result; a record without a
    text address, or whose key is not in the cache, is returned
    unchanged. *)
Theorem enrich_products_records (products : list product)
    (cache : gmap pystr GeocodingResult) (field : string)
    (stats : EnrichmentStats) :
  length (fst (enrich_products products cache field stats)) = length products
  ∧ ∀ i p, products !! i = Some p →
      ∃ p', fst (enrich_products products cache field stats) !! i = Some p'
            ∧ (∀ k, k ∉ enrichment_fields → p' !! k = p !! k)
            ∧ (∀ a geo, join_key field p = Some a → cache !! a = Some geo →
                 p' !! "store_address"%string = Some (py_of_text (label geo))
                 ∧ p' !! "latitude"%string
                   = Some (py_of_number (latitude geo))
                 ∧ p' !! "longitude"%string
                   = Some (py_of_number (longitude geo))
                 ∧ p' !! "city"%string = Some (py_of_text (city geo))
                 ∧ p' !! "postal_code"%string
                   = Some (py_of_text (postal_code geo))
                 ∧ p' !! "geocoding_score"%string = Some (PyNum (score geo)))
            ∧ (join_key field p = None
               ∨ (∃ a, join_key field p = Some a ∧ cache !! a = None) →
               p' = p).
Proof.
  rewrite enrich_products_fst. split; [by rewrite length_map|].
  intros i p Hp. exists (enrich_record cache field p).
  split; [by rewrite lookup_map, Hp|].
  unfold enrich_record. split; [|split].
  - intros k Hk. destruct (join_key field p) as [a|]; [|done].
    destruct (cache !! a); [by apply set_geocoding_other|done].
  - intros a geo -> ->. apply set_geocoding_fields.
  - intros [->|(a & -> & ->)]; done.
Qed.

(** ** The counters *)

Lemma enrich_step_stats (cache : gmap pystr GeocodingResult)
    (field : string) (stats : EnrichmentStats) (p : product) :
  let stats' := snd (enrich_step cache field stats p) in
  total_processed stats' = S (total_processed stats)
  ∧ (successfully_enriched stats <= successfully_enriched stats')%nat
  ∧ (failed_enrichment stats <= failed_enrichment stats')%nat
  ∧ (successfully_enriched stats' + failed_enrichment stats'
     = successfully_enriched stats + failed_enrichment stats
       + (if bool_decide (is_Some (join_key field p)) then 1 else 0))%nat.
Proof.
  unfold enrich_step. destruct (join_key field p) as [a|]; simpl.
  - destruct (cache !! a) as [geo|]; simpl; [destruct (is_valid geo)|];
      simpl; lia.
  - lia.
Qed.

Lemma enrich_products_counters (products : list product)
    (cache : gmap pystr GeocodingResult) (field : string) :
  ∀ stats,
    let stats' := snd (enrich_products products cache field stats) in
    total_processed stats' = (total_processed stats + length products)%nat
    ∧ (successfully_enriched stats <= successfully_enriched stats')%nat
    ∧ (failed_enrichment stats <= failed_enrichment stats')%nat
    ∧ (successfully_enriched stats' + failed_enrichment stats'
       = successfully_enriched stats + failed_enrichment stats
         + length (with_address field products))%nat.
Proof.
  induction products as [|p ps IH]; intros stats; simpl; [lia|].
  pose proof (enrich_step_stats cache field stats p) as Hp.
  destruct (enrich_step cache field stats p) as [p' s1]. simpl in Hp.
  specialize (IH s1). destruct (enrich_products ps cache field s1) as [e s2].
  simpl in *. unfold with_address in *. simpl.
  destruct (bool_decide (is_Some (join_key field p))); simpl; lia.
Qed.

Lemma success_rate_bounds (stats : EnrichmentStats) :
  (successfully_enriched stats <= total_processed stats)%nat →
  (0 <= success_rate stats)%Q ∧ (success_rate stats <= 100)%Q.
Proof.
  intros Hle. unfold success_rate.
  destruct (0 <? total_processed stats)%nat eqn:Hpos; [|split; lra].
  apply Nat.ltb_lt in Hpos. by apply percent_bounds.
Qed.

(** X23. The counters of [enrich_products]: [total_processed] grows by
    the number of records, successes and failures together grow by the
    number of records with a non-empty text address, none of them
    decreases; so [successfully_enriched + failed_enrichment <=
    total_processed] is kept, and with it the success rate of [get_stats]
    lies between 0 and 100. *)
Theorem enrich_products_stats (products : list product)
    (cache : gmap pystr GeocodingResult) (field : string)
    (stats : EnrichmentStats) :
  let stats' := snd (enrich_products products cache field stats) in
  total_processed stats' = (total_processed stats + length products)%nat
  ∧ (successfully_enriched stats' + failed_enrichment stats'
     = successfully_enriched stats + failed_enrichment stats
       + length (with_address field products))%nat
  ∧ (successfully_enriched stats <= successfully_enriched stats')%nat
  ∧ (failed_enrichment stats <= failed_enrichment stats')%nat
  ∧ ((successfully_enriched stats + failed_enrichment stats
      <= total_processed stats)%nat →
     (successfully_enriched stats' + failed_enrichment stats'
      <= total_processed stats')%nat
     ∧ (0 <= success_rate stats')%Q ∧ (success_rate stats' <= 100)%Q).
Proof.
  destruct (enrich_products_counters products cache field stats)
    as (Ht & Hs & Hf & Hsum).
  simpl. split; [done|]. split; [done|]. split; [done|]. split; [done|].
  intros Hinv.
  assert (Hw : (length (with_address field products) <= length products)%nat).
  { unfold with_address. apply filter_length_le. }
  split; [lia|]. apply success_rate_bounds. lia.
Qed.

(** X24. The counters are cumulative: enriching [ps1 ++ ps2] in one call
    gives the same records and the same counters as enriching [ps1] and
    then [ps2] with the counters left by the first call. *)
Theorem enrich_products_cumulative (ps1 ps2 : list product)
    (cache : gmap pystr GeocodingResult) (field : string)
    (stats : EnrichmentStats) :
  enrich_products (ps1 ++ ps2) cache field stats
  = (fst (enrich_products ps1 cache field stats)
     ++ fst (enrich_products ps2 cache field
               (snd (enrich_products ps1 cache field stats))),
     snd (enrich_products ps2 cache field
            (snd (enrich_products ps1 cache field stats)))).
Proof.
  revert stats. induction ps1 as [|p ps1 IH]; intros stats; simpl.
  { by destruct (enrich_products ps2 cache field stats). }
  destruct (enrich_step cache field stats p) as [p' s1].
  rewrite (IH s1). destruct (enrich_products ps1 cache field s1) as [e1 s2].
  simpl. by destruct (enrich_products ps2 cache field s2).
Qed.

(** ** The cache *)

Lemma build_geocoding_cache_snoc (results : list GeocodingResult)
    (r : GeocodingResult) :
  build_geocoding_cache (results ++ [r])
  = <[original_address r := r]> (build_geocoding_cache results).
Proof. unfold build_geocoding_cache. by rewrite fold_left_app. Qed.

(** X25. The cache built by [build_geocoding_cache] has exactly the
    addresses of the geocoder's results as keys; the result stored under a
    key is one of the results and carries that address; and when several
    results carry the same address the last one is stored. *)
Theorem build_geocoding_cache_lookup (results : list GeocodingResult) :
  (∀ a, is_Some (build_geocoding_cache results !! a)
        ↔ ∃ r, r ∈ results ∧ original_address r = a)
  ∧ (∀ a geo, build_geocoding_cache results !! a = Some geo →
       geo ∈ results ∧ original_address geo = a)
  ∧ (∀ before r after,
       results = before ++ r :: after →
       Forall (fun r' => original_address r' ≠ original_address r) after →
       build_geocoding_cache results !! original_address r = Some r).
Proof.
  induction results as [|r0 results (IH1 & IH2 & IH3)] using rev_ind.
  { split; [|split].
    - intros a. unfold build_geocoding_cache. simpl. rewrite lookup_empty.
      split; [by intros [? ?]|]. intros (r & Hr & _).
      by apply elem_of_nil in Hr.
    - intros a geo. unfold build_geocoding_cache. simpl.
      by rewrite lookup_empty.
    - intros [|? ?] ? ?; done. }
  rewrite build_geocoding_cache_snoc. split; [|split].
  - intros a. destruct (decide (original_address r0 = a)) as [<-|Hne].
    + rewrite lookup_insert_eq. split; [|by eexists].
      intros _. exists r0. split; [|done]. apply elem_of_app. right. by left.
    + rewrite lookup_insert_ne by done. rewrite IH1. split.
      * intros (r & Hr & Ha). exists r. split; [|done].
        apply elem_of_app. by left.
      * intros (r & Hr & Ha). exists r. split; [|done].
        apply elem_of_app in Hr as [Hr|Hr]; [done|].
        apply list_elem_of_singleton in Hr. by subst.
  - intros a geo. destruct (decide (original_address r0 = a)) as [<-|Hne].
    + rewrite lookup_insert_eq. intros [= <-]. split; [|done].
      apply elem_of_app. right. by left.
    + rewrite lookup_insert_ne by done. intros Hgeo.
      destruct (IH2 _ _ Hgeo) as [Hin Ha]. split; [|done].
      apply elem_of_app. by left.
  - intros before r after Heq Hafter.
    destruct after as [|r1 after _] using rev_ind.
    + apply app_inj_tail in Heq as [_ <-]. by rewrite lookup_insert_eq.
    + rewrite app_comm_cons, app_assoc in Heq.
      apply app_inj_tail in Heq as [-> <-].
      apply Forall_app in Hafter as [Hafter Hlast].
      apply Forall_inv in Hlast.
      rewrite lookup_insert_ne by done. by apply (IH3 before r after).
Qed.

(** ** The enrichment stage of the pipeline *)

Lemma hd_split_elem (sep : N) (s : pystr) :
  hd [] (split sep s) ∈ split sep s.
Proof.
  destruct s as [|c s]; simpl; [by left|].
  destruct (c =? sep); [by left|]. destruct (split sep s); by left.
Qed.

Lemma join_key_extracted (products : list product) (p : product)
    (a : pystr) :
  p ∈ products → join_key "stores" p = Some a → (4 <= length a)%nat →
  a ∈ extract_addresses products "stores".
Proof.
  intros Hp Hkey Hlen. unfold extract_addresses.
  apply elem_of_elements, extract_fold_elem. right.
  unfold join_key in Hkey.
  destruct (p !! "stores"%string) as [[|[|c addr]|]|] eqn:Hstores; try done.
  change (Some (strip (hd [] (split comma (c :: addr)))) = Some a) in Hkey.
  injection Hkey as <-.
  exists p, (c :: addr), (hd [] (split comma (c :: addr))).
  split; [done|]. split; [done|]. split; [|done]. apply hd_split_elem.
Qed.

(** X26. The enrichment of [_stage_2_enrichment]: when the geocoder
    answers every address it is asked and at most 50 addresses were
    extracted, every record whose first shop name (the first
    comma-separated part of [stores], stripped) has at least 4 characters
    is enriched with the result for that name. *)
Theorem stage_2_enriches (fetch_all : list pystr → list GeocodingResult)
    (products : list product) :
  (∀ a, a ∈ extract_addresses products "stores" →
        ∃ r, r ∈ fetch_all (extract_addresses products "stores")
             ∧ original_address r = a) →
  (length (extract_addresses products "stores") <= 50)%nat →
  ∀ i p a,
    products !! i = Some p →
    join_key "stores" p = Some a → (4 <= length a)%nat →
    ∃ geo,
      geo ∈ fetch_all (extract_addresses products "stores")
      ∧ original_address geo = a
      ∧ fst (stage_2_enrichment fetch_all products) !! i
        = Some (set_geocoding geo p).
Proof.
  intros Hgeo Hcap i p a Hp Hkey Hlen.
  pose proof (join_key_extracted products p a
                (list_elem_of_lookup_2 _ _ _ Hp) Hkey Hlen) as Hin.
  unfold stage_2_enrichment.
  destruct (extract_addresses products "stores") as [|a0 addrs] eqn:Hex.
  { by apply elem_of_nil in Hin. }
  rewrite <- Hex in *. clear Hex a0 addrs.
  rewrite Nat.min_r by done. rewrite Nat.ltb_irrefl.
  destruct (Hgeo a Hin) as (r & Hr & Ha).
  destruct (build_geocoding_cache_lookup
              (fetch_all (extract_addresses products "stores")))
    as (Hsome & Hfound & _).
  destruct (proj2 (Hsome a)) as [geo Hcache]; [by exists r|].
  destruct (Hfound _ _ Hcache) as [Hgin Hga].
  exists geo. split; [done|]. split; [done|].
  rewrite enrich_products_fst, lookup_map, Hp. simpl.
  unfold enrich_record. by rewrite Hkey, Hcache.
Qed.


Lemma echo_geocoder_answers (addresses : list pystr) (a : pystr) :
  a ∈ addresses →
  ∃ r, r ∈ echo_geocoder addresses ∧ original_address r = a.
Proof.
  intros Ha.
  exists (mkGeo a (Some a) (Some 1%Q) (Some 1%Q) (9 # 10) None None None).
  split; [|reflexivity]. unfold echo_geocoder.
  apply (list_elem_of_fmap_2
           (fun a => mkGeo a (Some a) (Some 1%Q) (Some 1%Q) (9 # 10)
                       None None None)), Ha.
Qed.

Lemma stage_2_enriches_witness :
  ∃ geo,
    geo ∈ echo_geocoder (extract_addresses sample_products "stores")
    ∧ original_address geo = u "Carrefour Paris"
    ∧ fst (stage_2_enrichment echo_geocoder sample_products) !! 0%nat
      = Some (set_geocoding geo
                {[ "code"%string := PyStr (u "001");
                   "stores"%string := PyStr (u "Carrefour Paris, Auchan") ]}).
Proof.
  assert (H2 : (length (extract_addresses sample_products "stores") <= 50)%nat).
  { vm_compute. lia. }
  exact (stage_2_enriches echo_geocoder sample_products
           (echo_geocoder_answers _) H2 0%nat
           ({[ "code"%string := PyStr (u "001");
              "stores"%string := PyStr (u "Carrefour Paris, Auchan") ]})
           (u "Carrefour Paris") eq_refl eq_refl ltac:(vm_compute; lia)).
Defined.

(** X27. The enrichment of [_stage_2_enrichment] never enriches a record
    whose first shop name has fewer than 4 characters, when the geocoder
    only answers the addresses it is asked: such a name is not extracted,
    so it is no key of the cache and the record is returned unchanged. *)
Theorem stage_2_short_key (fetch_all : list pystr → list GeocodingResult)
    (products : list product) :
  (∀ asked r, r ∈ fetch_all asked → original_address r ∈ asked) →
  ∀ i p a,
    products !! i = Some p →
    join_key "stores" p = Some a → (length a < 4)%nat →
    fst (stage_2_enrichment fetch_all products) !! i = Some p.
Proof.
  intros Hasked i p a Hp Hkey Hshort. unfold stage_2_enrichment.
  destruct (extract_addresses products "stores") as [|a0 addrs] eqn:Hex;
    [done|].
  rewrite <- Hex. clear Hex a0 addrs.
  set (addresses := extract_addresses products "stores").
  set (asked := if (Nat.min 50 (length addresses) <? length addresses)%nat
                then take (Nat.min 50 (length addresses)) addresses
                else addresses).
  rewrite enrich_products_fst, lookup_map, Hp. simpl. f_equal.
  unfold enrich_record. rewrite Hkey.
  destruct (build_geocoding_cache (fetch_all asked) !! a) as [geo|] eqn:Hc;
    [|done].
  exfalso.
  destruct (proj1 (proj2 (build_geocoding_cache_lookup (fetch_all asked)))
              _ _ Hc) as [Hin Ha].
  apply Hasked in Hin. rewrite Ha in Hin.
  assert (Hext : a ∈ addresses).
  { unfold asked in Hin. destruct (_ <? _)%nat; [|done].
    exact (elem_of_sublist _ _ _ Hin (sublist_take _ _)). }
  unfold addresses, extract_addresses in Hext.
  apply elem_of_elements, extract_fold_elem in Hext
    as [Hext|(_ & _ & _ & _ & _ & _ & _ & Hlen)].
  - by apply elem_of_empty in Hext.
  - lia.
Qed.

Lemma echo_geocoder_asked (asked : list pystr) (r : GeocodingResult) :
  r ∈ echo_geocoder asked → original_address r ∈ asked.
Proof.
  unfold echo_geocoder. intros Hr.
  apply list_elem_of_fmap in Hr as (a & -> & Ha). exact Ha.
Qed.

Lemma stage_2_short_key_witness :
  fst (stage_2_enrichment echo_geocoder short_key_products) !! 0%nat
  = Some ({[ "code"%string := PyStr (u "001");
             "stores"%string := PyStr (u "Bio, Carrefour Paris") ]}).
Proof.
  exact (stage_2_short_key echo_geocoder short_key_products
           echo_geocoder_asked 0%nat
           ({[ "code"%string := PyStr (u "001");
               "stores"%string := PyStr (u "Bio, Carrefour Paris") ]})
           (u "Bio") eq_refl eq_refl ltac:(vm_compute; lia)).
Defined.
